(** * AI-Story-Video-Generator: the pipeline orchestrator, embedded in Rocq

    A shallow embedding of the orchestration code of the repository
    (src/main.py, src/api/server.py, src/utils/common.py,
    src/scripts/llm.py, src/videogeneration/combine.py,
    src/videogeneration/images_slideshow.py,
    src/videogeneration/subtitles.py and the back ends under src/images),
    followed by the properties of it that the specification states and by
    further properties of the code, numbered X1, X2, and so on.

    Conventions of the embedding.
    - A Python [str] is a [string]; its characters are the code points
      below 256.  On that range [\d] is [0-9] and [str.isspace] is the set
      given by [isspace] below.
    - A Python [int] is a [Z].  A Python [float] that holds a time in
      seconds is an exact rational [Q]: rounding is not modelled, and
      equalities between times are stated with [==].
    - A Python [dict] (and a parsed JSON object) is an association list in
      insertion order with pairwise distinct keys, because the order of
      [dict.keys()] is observable through the stable sort of the segment
      keys.
    - A call that can raise returns a [result]; external collaborators (the
      LLM, the text-to-speech, image and video back ends, the transcriber,
      the clock, the random source) are parameters of the functions that
      call them.
    - A media file is known by its path and the duration its reader
      reports; a clip is the expression that built it.  Opening a file that
      an earlier stage wrote and encoding a clip are taken to succeed and to
      keep durations. *)

From Stdlib Require Import ZArith QArith Qminmax List String Ascii Bool Lia.
From Stdlib Require Import Permutation Sorted DecimalString Qabs Lqa.
From Stdlib Require Import DecimalZ DecimalPos.
Import ListNotations.

Local Open Scope string_scope.
Local Open Scope Z_scope.

(* ===================================================================== *)
(** * Part I: definitions                                                 *)
(* ===================================================================== *)

(** ** Python built-ins used by the sources *)

Module Py.

(** [Exception] values are identified with their [str()]; the messages
    of the built-in errors are those of CPython 3.11. *)
Inductive result (A : Type) : Type :=
| Ok (a : A)
| Raise (msg : string).
Arguments Ok {A} a.
Arguments Raise {A} msg.

Definition in_range (lo hi : nat) (c : ascii) : bool :=
  (Nat.leb lo (nat_of_ascii c) && Nat.leb (nat_of_ascii c) hi)%bool.

(** [\d] on code points below 256. *)
Definition is_digit (c : ascii) : bool := in_range 48 57 c.

Definition is_lower (c : ascii) : bool := in_range 97 122 c.

Definition is_upper (c : ascii) : bool := in_range 65 90 c.

(** [str.isspace] and [\s] on code points below 256: TAB..CR, FS..US,
    SPACE, NEL and NBSP. *)
Definition isspace (c : ascii) : bool :=
  (in_range 9 13 c || in_range 28 32 c
   || Nat.eqb (nat_of_ascii c) 133 || Nat.eqb (nat_of_ascii c) 160)%bool.

(** [str.lower] on one code point below 256: A-Z, and the Latin-1 capitals
    other than the multiplication sign. *)
Definition lower_char (c : ascii) : ascii :=
  if (is_upper c
      || (in_range 192 222 c && negb (Nat.eqb (nat_of_ascii c) 215)))%bool
  then ascii_of_nat (nat_of_ascii c + 32) else c.

Fixpoint str_map (f : ascii -> ascii) (s : string) : string :=
  match s with
  | EmptyString => EmptyString
  | String c r => String (f c) (str_map f r)
  end.

Fixpoint str_filter (p : ascii -> bool) (s : string) : string :=
  match s with
  | EmptyString => EmptyString
  | String c r => if p c then String c (str_filter p r) else str_filter p r
  end.

Fixpoint str_forall (p : ascii -> bool) (s : string) : bool :=
  match s with
  | EmptyString => true
  | String c r => (p c && str_forall p r)%bool
  end.

(** [s[:n]] for [n >= 0]. *)
Fixpoint str_take (n : nat) (s : string) : string :=
  match n, s with
  | O, _ => EmptyString
  | _, EmptyString => EmptyString
  | S k, String c r => String c (str_take k r)
  end.

Definition lower (s : string) : string := str_map lower_char s.

(** [str.lstrip()], and [str.strip()] through the reversed string. *)
Fixpoint lstrip (s : string) : string :=
  match s with
  | EmptyString => EmptyString
  | String c r => if isspace c then lstrip r else s
  end.

Fixpoint str_rev_onto (s acc : string) : string :=
  match s with
  | EmptyString => acc
  | String c r => str_rev_onto r (String c acc)
  end.

Definition str_rev (s : string) : string := str_rev_onto s EmptyString.

Definition rstrip (s : string) : string := str_rev (lstrip (str_rev s)).

Definition strip (s : string) : string := rstrip (lstrip s).

(** The longest prefix of digits, and what follows it. *)
Fixpoint span_digits (s : string) : string * string :=
  match s with
  | EmptyString => (EmptyString, EmptyString)
  | String c r =>
      if is_digit c
      then let '(d, rest) := span_digits r in (String c d, rest)
      else (EmptyString, s)
  end.

(** [re.findall(r"\d+", s)]: the maximal runs of digits, left to right. *)
Fixpoint findall_digits_fuel (fuel : nat) (s : string) : list string :=
  match fuel with
  | O => []
  | S f =>
      match s with
      | EmptyString => []
      | String c r =>
          if is_digit c
          then let '(d, rest) := span_digits s in d :: findall_digits_fuel f rest
          else findall_digits_fuel f r
      end
  end.

Definition findall_digits (s : string) : list string :=
  findall_digits_fuel (S (String.length s)) s.

(** [int(d)] for a string of decimal digits (leading zeros allowed). *)
Fixpoint int_of_digits_acc (acc : Z) (d : string) : Z :=
  match d with
  | EmptyString => acc
  | String c r =>
      int_of_digits_acc (10 * acc + (Z.of_nat (nat_of_ascii c) - 48)) r
  end.

Definition int_of_digits (d : string) : Z := int_of_digits_acc 0 d.

(** [sorted(l, key=key)]: Python's sort is stable, and a stable sort by a
    totally ordered key has one possible result; it is computed here by
    insertion from the right. *)
Section Sorted.
Context {A : Type} (key : A -> Z).

Fixpoint insert_by (x : A) (l : list A) : list A :=
  match l with
  | [] => [x]
  | y :: r => if key x <=? key y then x :: l else y :: insert_by x r
  end.

Fixpoint sorted (l : list A) : list A :=
  match l with
  | [] => []
  | x :: r => insert_by x (sorted r)
  end.

End Sorted.

(** [str(n)] for an [int]. *)
Definition str_int (n : Z) : string := NilZero.string_of_int (Z.to_int n).

(** [needle in s] for two strings. *)
Fixpoint str_contains (needle s : string) : bool :=
  (String.prefix needle s
   || match s with
      | EmptyString => false
      | String _ r => str_contains needle r
      end)%bool.

(** JSON values as [json.load] returns them.  An object is a [dict]: its
    pairs in insertion order. *)
#[warnings="-register-all"]
Inductive json : Type :=
| JNull
| JBool (b : bool)
| JNum (n : Z)
| JStr (s : string)
| JArr (l : list json)
| JObj (d : list (string * json)).

Definition dict : Type := list (string * json).

(** [d.get(k)]: the value of the first pair with key [k]. *)
Fixpoint dget (k : string) (d : dict) : option json :=
  match d with
  | [] => None
  | (k', v) :: r => if String.eqb k k' then Some v else dget k r
  end.

(** [d[k] = v]: in place when [k] is already a key, at the end otherwise. *)
Fixpoint dset (k : string) (v : json) (d : dict) : dict :=
  match d with
  | [] => [(k, v)]
  | (k', v') :: r =>
      if String.eqb k k' then (k', v) :: r else (k', v') :: dset k v r
  end.

(** [d.update(u)]: the pairs of [u] are assigned from left to right. *)
Definition dupdate (d u : dict) : dict :=
  fold_left (fun acc kv => dset (fst kv) (snd kv) acc) u d.

(** [list(d.keys())]. *)
Definition dkeys (d : dict) : list string := map fst d.

Definition dmem (k : string) (d : dict) : bool :=
  match dget k d with Some _ => true | None => false end.

(** Truth value of a JSON value in a condition ([if not x]). *)
Definition truthy (j : json) : bool :=
  match j with
  | JNull => false
  | JBool b => b
  | JNum n => negb (n =? 0)
  | JStr s => negb (String.eqb s EmptyString)
  | JArr l => match l with [] => false | _ => true end
  | JObj d => match d with [] => false | _ => true end
  end.

(** [type(j).__name__], for the messages of the errors below. *)
Definition type_name (j : json) : string :=
  match j with
  | JNull => "NoneType"
  | JBool _ => "bool"
  | JNum _ => "int"
  | JStr _ => "str"
  | JArr _ => "list"
  | JObj _ => "dict"
  end.

(** [j.get(k, default)]: only a [dict] has the method. *)
Definition py_get (j : json) (k : string) (default : json) : result json :=
  match j with
  | JObj d => Ok (match dget k d with Some v => v | None => default end)
  | _ => Raise ("'" ++ type_name j ++ "' object has no attribute 'get'")
  end.

(** [k in j] for a string [k]: a key of a [dict], an element of a [list],
    a substring of a [str]; the other values are not containers. *)
Definition py_in (k : string) (j : json) : result bool :=
  match j with
  | JObj d => Ok (dmem k d)
  | JArr l =>
      Ok (existsb (fun x => match x with JStr s => String.eqb s k | _ => false end) l)
  | JStr s => Ok (str_contains k s)
  | _ => Raise ("argument of type '" ++ type_name j ++ "' is not iterable")
  end.

Definition dquote : string := String (ascii_of_nat 34) EmptyString.

(** [repr(s)] for a string without double quote, backslash or control
    character: single quotes, unless [s] holds a single quote. *)
Definition repr_str (s : string) : string :=
  if str_contains "'" s then dquote ++ s ++ dquote else "'" ++ s ++ "'".

(** [j[k]] for a string [k]. *)
Definition py_getitem (j : json) (k : string) : result json :=
  match j with
  | JObj d =>
      match dget k d with
      | Some v => Ok v
      | None => Raise (repr_str k)
      end
  | JArr _ => Raise "list indices must be integers or slices, not str"
  | JStr _ => Raise "string indices must be integers, not 'str'"
  | _ => Raise ("'" ++ type_name j ++ "' object is not subscriptable")
  end.

(** [j[k] = v] for a string [k]. *)
Definition py_setitem (j : json) (k : string) (v : json) : result json :=
  match j with
  | JObj d => Ok (JObj (dset k v d))
  | JArr _ => Raise "list indices must be integers or slices, not str"
  | _ => Raise ("'" ++ type_name j ++ "' object does not support item assignment")
  end.

(** [j.setdefault(k, default)], for its effect on [j]. *)
Definition py_setdefault (j : json) (k : string) (default : json)
  : result json :=
  match j with
  | JObj d => Ok (JObj (if dmem k d then d else dset k default d))
  | _ => Raise ("'" ++ type_name j ++ "' object has no attribute 'setdefault'")
  end.

(** Sequencing of calls that can raise. *)
Definition bind {A B : Type} (r : result A) (k : A -> result B) : result B :=
  match r with
  | Ok a => k a
  | Raise e => Raise e
  end.

Notation "x <- r ;; k" := (bind r (fun x => k))
  (at level 61, r at next level, right associativity).

(** A JSON file on disk, as [os.path.exists] and [json.load] see it. *)
Inductive file : Type :=
| Absent
| Corrupt
| Holds (j : json).

End Py.

Import Py.

(** ** src/main.py: segment order and slugs *)

Module Main.

(** [seg_key] inside [natural_segment_order]:
    [m = re.findall(r"\d+", s); return int(m[0]) if m else 0]. *)
Definition seg_key (s : string) : Z :=
  match findall_digits s with
  | d :: _ => int_of_digits d
  | [] => 0
  end.

(** [natural_segment_order(segments) = sorted(segments, key=seg_key)]. *)
Definition natural_segment_order (segments : list string) : list string :=
  sorted seg_key segments.

(** The class [[a-zA-Z0-9\-_. ]] of the first substitution of [slugify]. *)
Definition slug_keep (c : ascii) : bool :=
  (is_lower c || is_upper c || is_digit c
   || Nat.eqb (nat_of_ascii c) 45 || Nat.eqb (nat_of_ascii c) 95
   || Nat.eqb (nat_of_ascii c) 46 || Nat.eqb (nat_of_ascii c) 32)%bool.

(** [re.sub(r"\s+", "-", slug)]: every maximal run of white space becomes
    one hyphen.  [in_run] tells that the previous character was white
    space, whose run has already produced its hyphen. *)
Fixpoint hyphenate_from (in_run : bool) (s : string) : string :=
  match s with
  | EmptyString => EmptyString
  | String c r =>
      if isspace c
      then if in_run then hyphenate_from true r
           else String "-"%char (hyphenate_from true r)
      else String c (hyphenate_from false r)
  end.

Definition hyphenate (s : string) : string := hyphenate_from false s.

(** [str(uuid.uuid4())]: the 128-bit value in lower-case hexadecimal,
    grouped 8-4-4-4-12.  [nibble u i] is the [i]-th hexadecimal digit from
    the left. *)
Definition hex_char (n : N) : ascii :=
  if (n <? 10)%N then ascii_of_N (48 + n) else ascii_of_N (87 + n).

Definition nibble (u : N) (i : N) : N := N.land (N.shiftr u (4 * (31 - i))) 15.

Fixpoint hex_from (u : N) (i : N) (n : nat) (k : string) : string :=
  match n with
  | O => k
  | S m => String (hex_char (nibble u i)) (hex_from u (N.succ i) m k)
  end.

Definition uuid_str (u : N) : string :=
  hex_from u 0 8 (String "-"%char
  (hex_from u 8 4 (String "-"%char
  (hex_from u 12 4 (String "-"%char
  (hex_from u 16 4 (String "-"%char
  (hex_from u 20 12 EmptyString)))))))).

Definition is_empty (s : string) : bool :=
  match s with EmptyString => true | _ => false end.

(** [slugify(text, max_len=40)].  [uuid4] is the value [uuid.uuid4()]
    returns when it is called; [max_len] is never negative in the sources
    (every caller leaves the default). *)
Definition slugify (uuid4 : N) (text : string) (max_len : nat) : string :=
  let slug := lower (strip (str_filter slug_keep text)) in
  let slug := hyphenate slug in
  let slug := if is_empty slug then str_take 8 (uuid_str uuid4) else slug in
  str_take max_len slug.

Definition default_max_len : nat := 40.

End Main.

(** ** Times, and the part of moviepy the sources rely on *)

Module Media.

Local Open Scope Q_scope.

Definition Qltb (a b : Q) : bool := negb (Qle_bool b a).

(** Python's [max(a, b)] and [min(a, b)] on two arguments: the first
    argument unless the second is strictly better. *)
Definition py_max (a b : Q) : Q := if Qltb a b then b else a.

Definition py_min (a b : Q) : Q := if Qltb b a then b else a.

(** Clips are kept as the expression that built them.
    - [VideoFileClip p d] and [AudioFileClip p d]: the file [p], whose
      reader reports the duration [d];
    - [ImageClip c t d]: [ImageClip(c.get_frame(t)).set_duration(d)], the
      frame of [c] at time [t] held for [d];
    - [ImageFile p d]: [ImageClip(p, duration=d)], the image file [p] held
      for [d] (the zoom put on it does not change its duration);
    - [Subclip c a b]: the part of [c] between the times [a] and [b];
    - [Concat cs]: [concatenate_videoclips(cs, method="compose")];
    - [SetAudio c a]: [c.set_audio(a)]. *)
#[warnings="-register-all"]
Inductive clip : Type :=
| VideoFileClip (path : string) (d : Q)
| AudioFileClip (path : string) (d : Q)
| ImageClip (c : clip) (t : Q) (d : Q)
| ImageFile (path : string) (d : Q)
| Subclip (c : clip) (a b : Q)
| Concat (cs : list clip)
| SetAudio (c : clip) (a : clip).

Fixpoint duration (c : clip) : Q :=
  match c with
  | VideoFileClip _ d => d
  | AudioFileClip _ d => d
  | ImageClip _ _ d => d
  | ImageFile _ d => d
  | Subclip _ a b => b - a
  | Concat cs => fold_right (fun x acc => duration x + acc) 0 cs
  | SetAudio c _ => duration c
  end.

(** A picture of a clip: the file it is taken from and the time in that
    file. *)
Definition frame : Type := string * Q.

Definition same_frame (f g : frame) : Prop := fst f = fst g /\ snd f == snd g.

(** [c.get_frame(t)]. *)
Fixpoint get_frame (c : clip) (t : Q) : frame :=
  match c with
  | VideoFileClip p _ => (p, t)
  | AudioFileClip p _ => (p, t)
  | ImageClip c0 t0 _ => get_frame c0 t0
  | ImageFile p _ => (p, 0)
  | Subclip c0 a _ => get_frame c0 (t + a)
  | Concat cs =>
      (fix go (cs : list clip) (t : Q) : frame :=
         match cs with
         | [] => (EmptyString, 0)
         | c0 :: r =>
             match r with
             | [] => get_frame c0 t
             | _ => if Qltb t (duration c0) then get_frame c0 t
                    else go r (t - duration c0)
             end
         end) cs t
  | SetAudio c0 _ => get_frame c0 t
  end.

(** [Clip.subclip(t_start, t_end)] of moviepy 1.0: a negative bound counts
    from the end of the clip, a start after the end raises, and the result
    lasts [t_end - t_start]. *)
Definition subclip (c : clip) (t_start t_end : Q) : result clip :=
  let t_start := if Qltb t_start 0 then duration c + t_start else t_start in
  if Qltb (duration c) t_start
  then Raise "t_start should be smaller than the clip's duration"
  else
    let t_end := if Qltb t_end 0 then duration c + t_end else t_end in
    Ok (Subclip c t_start t_end).

(** [tol = 1e-3] in [adjust_video_to_duration] and [combine_two_videos],
    [eps = 1e-3] in [_clamp_items_to_duration]. *)
Definition tol : Q := 1 # 1000.

Definition eps : Q := 1 # 1000.

(** [adjust_video_to_duration(video_path, target_duration, out_path, fps)]
    of src/main.py.  [clip] is [VideoFileClip(video_path)]; the result is
    [final_clip], the clip that is written to [out_path]. *)
Definition adjust_video_to_duration
    (clip : clip) (target_duration : Q) (fps : Z) : result Media.clip :=
  let cur := duration clip in
  if Qltb (target_duration + tol) cur then
    subclip clip 0 target_duration
  else if Qltb cur (target_duration - tol) then
    if (fps =? 0)%Z then Raise "float division by zero"
    else
      let safe_t := py_max (cur - 1 / inject_Z fps) 0 in
      let pad_clip := ImageClip clip safe_t (target_duration - cur) in
      Ok (Concat [clip; pad_clip])
  else Ok clip.

Definition default_fps : Z := 24.

(** [combine_two_videos(video1_path, video2_path, audio_path, output_path)]
    of src/videogeneration/combine.py.  [v1], [v2] and [aud] are the three
    opened files; the result is [seg], the clip that is written to
    [output_path] and returned. *)
Definition combine_two_videos (v1 v2 aud : clip) : result clip :=
  let seg := Concat [v1; v2] in
  let vid_dur := duration seg in
  let aud_dur := duration aud in
  let final_dur := py_max (py_min vid_dur aud_dur - tol) 0 in
  match (if Qltb final_dur vid_dur then subclip seg 0 final_dur else Ok seg) with
  | Raise e => Raise e
  | Ok seg =>
      match subclip aud 0 final_dur with
      | Raise e => Raise e
      | Ok clamped_audio => Ok (SetAudio seg clamped_audio)
      end
  end.

(** [build_segment_from_images(image_paths, audio_path, output_path)] of
    src/videogeneration/images_slideshow.py.  [aud] is the opened audio
    file; the result is [video], the clip that is written. *)
Fixpoint image_clips (base total_dur : Q) (n i : nat) (image_paths : list string)
  : list clip :=
  match image_paths with
  | [] => []
  | img :: r =>
      let dur :=
        if Nat.ltb i (n - 1) then base
        else total_dur - base * inject_Z (Z.of_nat (n - 1)) in
      ImageFile img (py_max dur (1 # 10)) :: image_clips base total_dur n (S i) r
  end.

Definition build_segment_from_images (image_paths : list string) (aud : clip)
  : result clip :=
  match image_paths with
  | [] => Raise "No images provided"
  | _ =>
      let total_dur := duration aud in
      let n := List.length image_paths in
      let base := total_dur / inject_Z (Z.of_nat n) in
      let video := Concat (image_clips base total_dur n 0 image_paths) in
      match subclip aud 0 (py_min total_dur (duration video)) with
      | Raise e => Raise e
      | Ok aud => Ok (SetAudio video aud)
      end
  end.

(** [concatenate_segments(segment_video_paths, output_path)] of
    src/main.py, on the opened clips: moviepy takes a maximum over the
    clips, which raises on an empty list. *)
Definition concatenate_segments (clips : list clip) : result clip :=
  match clips with
  | [] => Raise "max() arg is an empty sequence"
  | _ => Ok (Concat clips)
  end.

(** A subtitle item [(start, end, text)]. *)
Definition item : Type := Q * Q * string.

(** [_clamp_items_to_duration(items, max_duration)] of
    src/videogeneration/subtitles.py. *)
Definition clamp_item (max_duration : Q) (it : item) : item :=
  let '(start, end_, text) := it in
  let s := py_max 0 (py_min start (max_duration - eps)) in
  let e := py_max 0 (py_min end_ (max_duration - eps)) in
  let e := if Qle_bool e s then py_min (s + (1 # 10)) (max_duration - eps) else e in
  (s, e, text).

Definition _clamp_items_to_duration (items : list item) (max_duration : Q)
  : list item :=
  map (clamp_item max_duration) items.

(** A [TextClip] placed on the video:
    [txt.set_start(start).set_duration(dur)]. *)
Record text_clip : Type := TextClip {
  txt_text : string;
  txt_start : Q;
  txt_duration : Q
}.

(** The loop of [burn_subtitles_from_items]: the clamped items, each given
    [dur = max(end - start, 0.1)].  [v_duration] is the duration of the
    opened video; the result is the list [subs] composited over it. *)
Definition burn_subtitles_from_items (v_duration : Q) (items : list item)
  : list text_clip :=
  let items := _clamp_items_to_duration items v_duration in
  map (fun it : item =>
         let '(start, end_, text) := it in
         let dur := py_max (end_ - start) (1 # 10) in
         TextClip text start dur)
      items.

End Media.

(** ** src/utils/common.py: image fallback and the retry controller *)

Module Common.

(** What the controller does to the outside world, in order:
    [time.sleep(wait_s)] and the calls of [generate_video_from_image]
    (numbered from 0).  The [print]s are not recorded. *)
Inductive event : Type :=
| Sleep (seconds : Q)
| Call (n : nat).

Definition is_call (e : event) : bool :=
  match e with Call _ => true | Sleep _ => false end.

(** The number of times the wrapped operation was invoked. *)
Definition attempts (log : list event) : nat :=
  List.length (filter is_call log).

(** [str(last_err)]. *)
Definition str_exc (e : option string) : string :=
  match e with
  | None => "None"
  | Some msg => msg
  end.

Section Retry.

(** The outcome of the [n]-th call of [generate_video_from_image] made by
    the controller: the name of the generated file, or the exception. *)
Variable generate_video_from_image : nat -> result string.

(** [VIDEO_GEN_WAIT_SECONDS] and [VIDEO_GEN_MAX_RETRIES] as parsed from the
    environment, and the [label] of the messages. *)
Variable wait_s : Q.
Variable max_retries : Z.
Variable label : string.

(** The [RuntimeError] raised after the loop. *)
Definition exhausted (attempt : Z) (last_err : option string) : string :=
  label ++ " generation failed after " ++ str_int attempt
  ++ " attempts: " ++ str_exc last_err.

(** One pass through the body of the loop up to the call: the optional
    sleep, then the call numbered [calls]. *)
Definition before_call (calls : nat) (log : list event) : list event :=
  let log :=
    if Media.Qltb 0 wait_s then (log ++ [Sleep wait_s])%list else log in
  (log ++ [Call calls])%list.

(** The [while attempt <= max_retries] loop and the [raise] after it, read
    literally.  [fuel] bounds the number of iterations; [None] means that
    it ran out with the guard still true. *)
Fixpoint retry_while (fuel : nat) (attempt : Z) (last_err : option string)
    (calls : nat) (log : list event) : option (result string * list event) :=
  if attempt <=? max_retries then
    match fuel with
    | O => None
    | S fuel' =>
        let log := before_call calls log in
        match generate_video_from_image calls with
        | Ok name => Some (Ok name, log)
        | Raise e => retry_while fuel' (attempt + 1) (Some e) (S calls) log
        end
    end
  else Some (Raise (exhausted attempt last_err), log).

(** The same loop by recursion on [remaining], the number of iterations
    the guard still allows: [remaining = max_retries + 1 - attempt], so
    that [attempt <= max_retries] holds exactly when [remaining] is not
    zero ([retry_while_loop] below relates the two). *)
Fixpoint retry_loop (remaining : nat) (attempt : Z) (last_err : option string)
    (calls : nat) (log : list event) : result string * list event :=
  match remaining with
  | O => (Raise (exhausted attempt last_err), log)
  | S remaining' =>
      let log := before_call calls log in
      match generate_video_from_image calls with
      | Ok name => (Ok name, log)
      | Raise e => retry_loop remaining' (attempt + 1) (Some e) (S calls) log
      end
  end.

(** [generate_video_with_retries(image_path, prompt, duration_seconds,
    label)]: the loop from [attempt = 0], [last_err = None]. *)
Definition generate_video_with_retries : result string * list event :=
  retry_loop (Z.to_nat (max_retries + 1)) 0 None 0%nat [].

End Retry.

Section Fallback.

(** The two image back ends, [hf_generate_and_save_image] and
    [generate_image_from_prompt]; both take [(prompt, save_path)]. *)
Variable hf_generate_and_save_image : json -> string -> result unit.
Variable generate_image_from_prompt : json -> string -> result unit.

(** [generate_image_with_fallback(prompt, save_path)]. *)
Definition generate_image_with_fallback (prompt : json) (save_path : string)
  : result unit :=
  match hf_generate_and_save_image prompt save_path with
  | Ok tt => Ok tt
  | Raise e =>
      match generate_image_from_prompt prompt save_path with
      | Ok tt => Ok tt
      | Raise e2 =>
          Raise ("Both HF inference and fallback image generation failed: hf_error="
                 ++ e ++ "; fallback_error=" ++ e2)
      end
  end.

End Fallback.

End Common.

(** ** src/scripts/llm.py: image prompts and their cache *)

Module Llm.

(** The request sent to the model for one segment (the fields of
    [payload] that vary). *)
Record payload : Type := Payload {
  script_id : string;
  current_segment_id : string;
  current_segment_text : string;
  full_script_segments : list (string * string);
  full_script_text : string;
  previous_image_prompts : dict
}.

(** What [client.chat.completions.create] followed by [json.loads(raw)]
    gives: the call raised, the reply was not JSON, or it parsed. *)
Inductive reply : Type :=
| Failed (msg : string)
| NotJson
| Parsed (data : json).

(** [seg_index]: [m = re.search(r"(\d+)", k)];
    [int(m.group(1)) if m else 10**9]. *)
Definition seg_index (k : string) : Z :=
  match findall_digits k with
  | d :: _ => int_of_digits d
  | [] => 10 ^ 9
  end.

(** [sorted(script_obj.items(), key=lambda kv: seg_index(kv[0]))]. *)
Definition ordered_segments (script_obj : dict) : dict :=
  sorted (fun kv => seg_index (fst kv)) script_obj.

(** The texts of the segments, as [" ".join] needs them: every one a
    [str]. *)
Fixpoint texts_from (i : Z) (items : dict) : result (list (string * string)) :=
  match items with
  | [] => Ok []
  | (k, JStr t) :: r => rest <- texts_from (i + 1) r ;; Ok ((k, t) :: rest)
  | (_, v) :: _ =>
      Raise ("sequence item " ++ str_int i ++ ": expected str instance, "
             ++ type_name v ++ " found")
  end.

(** [os.path.exists] and [json.load] under
    [except (OSError, json.JSONDecodeError)]. *)
Definition load_or_empty (f : file) : json :=
  match f with
  | Holds j => j
  | _ => JObj []
  end.

(** The data used when the reply is not JSON. *)
Definition fallback_data (segment_text : string) : json :=
  JObj [("image1", JObj [("prompt", JStr (str_take 120 segment_text))]);
        ("image2", JObj [("prompt", JStr (str_take 120 segment_text))])].

(** [prev_prompts]: the cached prompts of the segments before
    [segment_key]. *)
Fixpoint prev_prompts_of (existing_for_script : json) (segment_key : string)
    (keys : list string) (prev_prompts : dict) : result dict :=
  match keys with
  | [] => Ok prev_prompts
  | sk :: r =>
      if seg_index sk <? seg_index segment_key then
        present <- py_in sk existing_for_script ;;
        if (present : bool) then
          v <- py_getitem existing_for_script sk ;;
          prev_prompts_of existing_for_script segment_key r (dset sk v prev_prompts)
        else prev_prompts_of existing_for_script segment_key r prev_prompts
      else prev_prompts_of existing_for_script segment_key r prev_prompts
  end.

(** The merge-save of one segment: the snapshot on disk is read again,
    [data] is put under [script_key] and [segment_key], and the file is
    written. *)
Definition merge_save (script_key segment_key : string) (data : json)
    (disk : file) : result file :=
  let latest_all := load_or_empty disk in
  latest_all <- py_setdefault latest_all script_key (JObj []) ;;
  inner <- py_getitem latest_all script_key ;;
  inner <- py_setitem inner segment_key data ;;
  latest_all <- py_setitem latest_all script_key inner ;;
  Ok (Holds latest_all).

Section Generate.

(** The model behind [client]. *)
Variable llm : payload -> reply.

(** What other writers do to ALL_PROMPTS.json between the first read of
    the function and the merge-save of a segment. *)
Variable other_writers : string -> file -> file.

Variable script_key : string.

(** The state of the loop: [result] and [existing_for_script]. *)
Definition loop_state : Type := dict * json.

(** The body of [for segment_key, segment_text in segments_to_process].
    The file is returned as the body leaves it, also when it raises. *)
Definition process_one (ordered : list (string * string))
    (st : loop_state) (disk : file) (seg : string * string)
  : result loop_state * file :=
  let '(result_, existing_for_script) := st in
  let '(segment_key, segment_text) := seg in
  match prev_prompts_of existing_for_script segment_key (map fst ordered) [] with
  | Raise e => (Raise e, disk)
  | Ok prev_prompts =>
      match llm (Payload script_key segment_key segment_text ordered
                   (String.concat " " (map snd ordered)) prev_prompts) with
      | Failed e => (Raise e, disk)
      | r =>
          let data :=
            match r with
            | Parsed d => d
            | _ => fallback_data segment_text
            end in
          let result_ := dset segment_key data result_ in
          let disk := other_writers segment_key disk in
          match merge_save script_key segment_key data disk with
          | Raise e => (Raise e, disk)
          | Ok disk =>
              match py_setitem existing_for_script segment_key data with
              | Raise e => (Raise e, disk)
              | Ok existing_for_script => (Ok (result_, existing_for_script), disk)
              end
          end
      end
  end.

Fixpoint process_all (ordered segs : list (string * string))
    (st : loop_state) (disk : file) : result loop_state * file :=
  match segs with
  | [] => (Ok st, disk)
  | seg :: r =>
      match process_one ordered st disk seg with
      | (Raise e, disk) => (Raise e, disk)
      | (Ok st, disk) => process_all ordered r st disk
      end
  end.

(** Everything before the loop: the checks on [scripts.json], the choice
    of the segments to process and the first read of the cache. *)
Definition prepare (scripts : json) (segment : option string) (disk : file)
  : result (list (string * string) * list (string * string) * json) :=
  present <- py_in script_key scripts ;;
  if negb present then
    Raise (repr_str ("Script key '" ++ script_key ++ "' not found in scripts.json"))
  else
    script_obj <- py_getitem scripts script_key ;;
    match script_obj with
    | JObj script_obj =>
        let ordered := ordered_segments script_obj in
        _ <- match segment with
             | Some sg =>
                 if dmem sg script_obj then Ok tt
                 else Raise (repr_str ("Segment '" ++ sg ++ "' not found in script '"
                                       ++ script_key ++ "'"))
             | None => Ok tt
             end ;;
        existing_for_script <- py_get (load_or_empty disk) script_key (JObj []) ;;
        texts <- texts_from 0 ordered ;;
        let segments_to_process :=
          match segment with
          | Some sg =>
              match find (fun kv => String.eqb (fst kv) sg) texts with
              | Some kv => [kv]
              | None => []
              end
          | None => texts
          end in
        Ok (texts, segments_to_process, existing_for_script)
    | j =>
        Raise ("Script '" ++ script_key ++ "' is not a valid segmented script: <class '"
               ++ type_name j ++ "'>")
    end.

(** [generate_prompts_for_script(script_key, segment=segment)].  [scripts]
    is the content of scripts.json and [disk] the state of
    image_prompts/ALL_PROMPTS.json when the function starts; the result
    comes with the state of that file when the function ends. *)
Definition generate_prompts_for_script (scripts : json)
    (segment : option string) (disk : file) : result dict * file :=
  match prepare scripts segment disk with
  | Raise e => (Raise e, disk)
  | Ok (ordered, segments_to_process, existing_for_script) =>
      match process_all ordered segments_to_process ([], existing_for_script) disk with
      | (Raise e, disk) => (Raise e, disk)
      | (Ok (result_, _), disk) => (Ok result_, disk)
      end
  end.

End Generate.

End Llm.

(** ** src/main.py: the prompts of a segment in the command-line loop *)

Module Cli.

(** [load_segment_prompts_from_disk(script_key, segment_key)]; [None] is
    [JNull].  Only [OSError] and [JSONDecodeError] are caught. *)
Definition load_segment_prompts_from_disk (disk : file)
    (script_key segment_key : string) : result json :=
  match disk with
  | Holds data =>
      x <- py_get data script_key (JObj []) ;; py_get x segment_key JNull
  | _ => Ok JNull
  end.

Section Prompts.

Variable llm : Llm.payload -> Llm.reply.

(** [scripts]: the content of scripts.json. *)
Variable scripts : json.

(** Lines 245-258 of [main]: the prompts of a segment, found on disk or
    generated, and the cache afterwards.  Nothing is caught here. *)
Definition image_prompts_for (selected_key seg_key : string) (disk : file)
  : result json * file :=
  match load_segment_prompts_from_disk disk selected_key seg_key with
  | Raise e => (Raise e, disk)
  | Ok image_prompts =>
      if truthy image_prompts then (Ok image_prompts, disk)
      else
        match Llm.generate_prompts_for_script llm (fun _ disk => disk)
                selected_key scripts (Some seg_key) disk with
        | (Raise e, disk) => (Raise e, disk)
        | (Ok out, disk) =>
            let generated :=
              match dget seg_key out with Some v => v | None => JNull end in
            if truthy generated then (Ok generated, disk)
            else
              match load_segment_prompts_from_disk disk selected_key seg_key with
              | Raise e => (Raise e, disk)
              | Ok loaded =>
                  (Ok (if truthy loaded then loaded else JObj []), disk)
              end
        end
  end.

End Prompts.

End Cli.

(** ** src/api/server.py: sessions and the pipeline run *)

Module Server.

Import Media.

(** [os.path.join(a, b)] on POSIX paths. *)
Definition ends_with_slash (a : string) : bool :=
  match str_rev a with
  | String c _ => Ascii.eqb c "/"%char
  | EmptyString => false
  end.

Definition path_join (a b : string) : string :=
  if String.prefix "/" b then b
  else if (String.eqb a EmptyString || ends_with_slash a)%bool then a ++ b
  else a ++ "/" ++ b.

(** The value of the ["progress"] key. *)
Definition progress (total_segments completed : Z) : json :=
  JObj [("total_segments", JNum total_segments); ("completed", JNum completed)].

(** [_read_status(session_dir)]: the content of status.json, or [{}] on
    any exception. *)
Definition _read_status (status_file : file) : json :=
  match status_file with
  | Holds j => j
  | _ => JObj []
  end.

(** [status.update(u)] on what [_read_status] returned. *)
Definition py_update (status : json) (u : dict) : result dict :=
  match status with
  | JObj d => Ok (dupdate d u)
  | _ => Raise ("'" ++ type_name status ++ "' object has no attribute 'update'")
  end.

(** What a run does to the outside world, in order. *)
Inductive event : Type :=
| WriteStatus (payload : dict)
| WriteSegmentText (path text : string)
| RunTts (text voice out_path : string)
| ImageFromPrompt (prompt : json) (save_path : string)
| ImageWithFallback (prompt : json) (save_path : string)
| VideoWithRetries (cwd image_path : string) (prompt : json)
    (duration_seconds : Q) (label : string) (calls : list Common.event)
| AdjustVideo (video_path : string) (final_clip : clip)
| WriteVideo (path : string) (c : clip)
| Transcribe (video_path : string)
| WriteSubtitled (path : string) (subs : list text_clip).

(** The collaborators of a run and its environment. *)
Record world : Type := World {
  sessions_root : string;
  default_voice : string;
  wait_s : Q;
  max_retries : Z;
  run_tts : string -> string -> string -> result unit;
  audio_duration : string -> Q;
  llm : Llm.payload -> Llm.reply;
  generate_image_from_prompt : json -> string -> result unit;
  hf_generate_and_save_image : json -> string -> result unit;
  generate_video_from_image : string -> string -> json -> Q -> nat -> result string;
  video_duration : string -> Q;
  transcribe : string -> result (list item)
}.

(** What a run mutates: the [status] dictionary it holds, the prompt cache
    on disk, and the outside world through [log]. *)
Record state : Type := State {
  status : dict;
  prompts_file : file;
  log : list event
}.

(** Computations of a run: they change the state and can raise; the state
    changes made before a [raise] stay. *)
Definition M (A : Type) : Type := state -> result A * state.

Definition ret {A : Type} (a : A) : M A := fun st => (Ok a, st).

Definition mbind {A B : Type} (m : M A) (k : A -> M B) : M B :=
  fun st =>
    match m st with
    | (Ok a, st') => k a st'
    | (Raise e, st') => (Raise e, st')
    end.

Notation "x <~ m ;; k" := (mbind m (fun x => k))
  (at level 61, m at next level, right associativity).

Definition lift {A : Type} (r : result A) : M A := fun st => (r, st).

Definition emit (e : event) : M unit :=
  fun st => (Ok tt, State (status st) (prompts_file st) (log st ++ [e])%list).

(** A collaborator is called, which is recorded, and returns or raises. *)
Definition call {A : Type} (e : event) (r : result A) : M A :=
  _ <~ emit e ;; lift r.

(** [status.update(u)] inside the run, where [status] is a [dict]. *)
Definition update_status (u : dict) : M unit :=
  fun st => (Ok tt, State (dupdate (status st) u) (prompts_file st) (log st)).

(** [_write_status(session_dir, status)]. *)
Definition write_status : M unit :=
  fun st => emit (WriteStatus (status st)) st.

(** The snapshots passed to [_write_status], oldest first. *)
Fixpoint snapshots (l : list event) : list dict :=
  match l with
  | [] => []
  | WriteStatus payload :: r => payload :: snapshots r
  | _ :: r => snapshots r
  end.

(** What a snapshot says: [progress.completed], [progress.total_segments]
    and [state]. *)
Definition progress_field (field : string) (d : dict) : option Z :=
  match dget "progress" d with
  | Some (JObj p) =>
      match dget field p with
      | Some (JNum n) => Some n
      | _ => None
      end
  | _ => None
  end.

Definition completed_of (d : dict) : option Z := progress_field "completed" d.

Definition total_of (d : dict) : option Z := progress_field "total_segments" d.

Definition state_of (d : dict) : option string :=
  match dget "state" d with
  | Some (JStr s) => Some s
  | _ => None
  end.

(** Lines 190-198 of [run_pipeline]: the cached prompts of a segment, [{}]
    when the file is missing or anything raises. *)
Definition cached_prompts (disk : file) (script_key seg_key : string) : json :=
  match disk with
  | Holds allp =>
      match (x <- py_get allp script_key (JObj []) ;; py_get x seg_key (JObj [])) with
      | Ok j => j
      | Raise _ => JObj []
      end
  | _ => JObj []
  end.

(** [f.write(seg_text)]. *)
Definition written (seg_text : json) : result string :=
  match seg_text with
  | JStr t => Ok t
  | JNull => Raise "write() argument must be str, not None"
  | j => Raise ("write() argument must be str, not " ++ type_name j)
  end.

Section Run.

Variable w : world.

(** [scripts]: the content of scripts.json. *)
Variable scripts : json.
Variable script_key : string.
Variable selected_script : dict.
Variable session_dir : string.
Variable voice : string.
Variable mode : string.

(** [len(seg_keys)]. *)
Variable total : Z.

Definition segments_root : string := path_join session_dir "segments".

(** Stage 2 of a segment, the whole [with pushd(session_dir)] block, as a
    function of the prompt cache on disk: the prompts found or generated
    ([{}] when the generation raises), and the cache afterwards. *)
Definition image_prompts_for (disk : file) (seg_key : string) : json * file :=
  let image_prompts := cached_prompts disk script_key seg_key in
  if truthy image_prompts then (image_prompts, disk)
  else
    match Llm.generate_prompts_for_script (llm w) (fun _ disk => disk)
            script_key scripts (Some seg_key) disk with
    | (Ok out, disk) =>
        (match dget seg_key out with Some v => v | None => JObj [] end, disk)
    | (Raise _, disk) => (JObj [], disk)
    end.

(** The stage inside a run: it never raises. *)
Definition prompts_stage (seg_key : string) : M json :=
  fun st =>
    let '(image_prompts, disk) := image_prompts_for (prompts_file st) seg_key in
    (Ok image_prompts, State (status st) disk (log st)).

(** [image_prompts.get(image, {}).get("prompt", seg_text)]. *)
Definition prompt_of (image_prompts : json) (image seg_text : string)
  : result json :=
  x <- py_get image_prompts image (JObj []) ;; py_get x "prompt" (JStr seg_text).

(** Stage 3: one image, by the back end of the mode. *)
Definition image_stage (prompt : json) (img_path : string) : M unit :=
  if String.eqb mode "videos"
  then call (ImageFromPrompt prompt img_path)
            (generate_image_from_prompt w prompt img_path)
  else call (ImageWithFallback prompt img_path)
            (Common.generate_image_with_fallback
               (hf_generate_and_save_image w) (generate_image_from_prompt w)
               prompt img_path).

(** Stage 4 for one image: [generate_video_with_retries] inside
    [pushd(seg_dir)], then [adjust_video_to_duration] on its file. *)
Definition video_stage (seg_dir image_path : string) (prompt : json)
    (half : Q) (label : string) : M clip :=
  let '(r, calls) :=
    Common.generate_video_with_retries
      (generate_video_from_image w seg_dir image_path prompt half)
      (wait_s w) (max_retries w) label in
  vid_name <~ call (VideoWithRetries seg_dir image_path prompt half label calls) r ;;
  let vid_path := path_join seg_dir vid_name in
  final_clip <~ lift (adjust_video_to_duration
                        (VideoFileClip vid_path (video_duration w vid_path))
                        half default_fps) ;;
  _ <~ emit (AdjustVideo vid_path final_clip) ;;
  ret final_clip.

(** Stages 1 to 5 of a segment (lines 181-253): narration, prompts,
    images, then the videos or the slideshow; it returns the path and the
    clip appended to [segment_output_paths]. *)
Definition segment_stages (seg_key seg_text : string) : M (string * clip) :=
  let seg_dir := path_join segments_root seg_key in
  let audio_path := path_join seg_dir "audio.mp3" in
  _ <~ call (RunTts seg_text voice audio_path)
            (run_tts w seg_text voice audio_path) ;;
  image_prompts <~ prompts_stage seg_key ;;
  prompt1 <~ lift (prompt_of image_prompts "image1" seg_text) ;;
  prompt2 <~ lift (prompt_of image_prompts "image2" seg_text) ;;
  let img1_path := path_join seg_dir "image1.png" in
  let img2_path := path_join seg_dir "image2.png" in
  _ <~ image_stage prompt1 img1_path ;;
  _ <~ image_stage prompt2 img2_path ;;
  let aud := AudioFileClip audio_path (audio_duration w audio_path) in
  let segment_video_path := path_join seg_dir (seg_key ++ ".mp4") in
  seg <~ (if String.eqb mode "videos" then
            let dur := duration aud in
            let half := py_max (dur / 2) (1 # 10) in
            vid1 <~ video_stage seg_dir "image1.png" prompt1 half "video 1" ;;
            vid2 <~ video_stage seg_dir "image2.png" prompt2 half "video 2" ;;
            lift (combine_two_videos vid1 vid2 aud)
          else lift (build_segment_from_images [img1_path; img2_path] aud)) ;;
  _ <~ emit (WriteVideo segment_video_path seg) ;;
  ret (segment_video_path, seg).

(** The body of [for i, seg_key in enumerate(seg_keys, start=1)]: the text
    of the segment is written, the status says which segment is current,
    the stages run, and the status counts the segment as completed. *)
Definition process_segment (i : Z) (seg_key : string) : M (string * clip) :=
  let seg_dir := path_join segments_root seg_key in
  seg_text <~ lift (py_getitem (JObj selected_script) seg_key) ;;
  seg_text <~ lift (written seg_text) ;;
  _ <~ emit (WriteSegmentText (path_join seg_dir "segment.txt") seg_text) ;;
  _ <~ update_status [("current_segment", JStr seg_key);
                      ("progress", progress total (i - 1))] ;;
  _ <~ write_status ;;
  out <~ segment_stages seg_key seg_text ;;
  _ <~ update_status [("progress", progress total i)] ;;
  _ <~ write_status ;;
  ret out.

(** The [for] loop, from index [i]. *)
Fixpoint segments_loop (i : Z) (seg_keys : list string)
    (segment_output_paths : list (string * clip)) : M (list (string * clip)) :=
  match seg_keys with
  | [] => ret segment_output_paths
  | seg_key :: r =>
      out <~ process_segment i seg_key ;;
      segments_loop (i + 1) r (segment_output_paths ++ [out])%list
  end.

(** The body of the [try]: the loop, the final concatenation, the
    subtitles and the last update of the status. *)
Definition try_body (seg_keys : list string) : M unit :=
  outs <~ segments_loop 1 seg_keys [] ;;
  let final_output := path_join session_dir "final_output.mp4" in
  final <~ lift (concatenate_segments (map snd outs)) ;;
  _ <~ emit (WriteVideo final_output final) ;;
  let subtitled_output := path_join session_dir "final_output_subtitled.mp4" in
  items <~ call (Transcribe final_output) (transcribe w final_output) ;;
  _ <~ emit (WriteSubtitled subtitled_output
               (burn_subtitles_from_items (duration final) items)) ;;
  _ <~ update_status
         [("state", JStr "completed");
          ("artifacts",
           JObj [("final", JStr final_output);
                 ("subtitled", JStr subtitled_output);
                 ("segments", JArr (map (fun o => JStr (fst o)) outs))])] ;;
  write_status.

(** [try: ... except Exception as e:] the status is marked failed and
    written, and [e] is raised again. *)
Definition try_except (body : M unit) : M unit :=
  fun st =>
    match body st with
    | (Ok tt, st') => (Ok tt, st')
    | (Raise e, st') =>
        match (_ <~ update_status [("state", JStr "failed"); ("error", JStr e)] ;;
               write_status) st' with
        | (_, st'') => (Raise e, st'')
        end
    end.

End Run.

(** [run_pipeline(session_id, script_key, voice, mode)].
    [session_exists] tells whether the directory of the session is there;
    [scripts_file], [status_file] and [prompts_file] are scripts.json,
    status.json and image_prompts/ALL_PROMPTS.json of the session when the
    run starts. *)
Definition run_pipeline (w : world) (session_exists : bool)
    (scripts_file status_file prompts_file : file)
    (session_id script_key : string) (voice : option string) (mode : string)
  : result unit * state :=
  let st0 := State [] prompts_file [] in
  let session_dir := path_join (sessions_root w) session_id in
  if negb session_exists then (Raise "Session not found", st0)
  else
    let voice :=
      match voice with
      | Some v => if String.eqb v EmptyString then default_voice w else v
      | None => default_voice w
      end in
    let mode :=
      if (String.eqb mode "videos" || String.eqb mode "images")%bool
      then mode else "videos" in
    match scripts_file with
    | Absent => (Raise "Scripts not generated for this session yet.", st0)
    | Corrupt => (Raise "scripts.json is not valid JSON", st0)
    | Holds scripts =>
        match
          (present <- py_in script_key scripts ;;
           if negb present then Raise "Invalid script_key."
           else
             v <- py_getitem scripts script_key ;;
             match v with
             | JObj selected_script =>
                 let seg_keys := Main.natural_segment_order (dkeys selected_script) in
                 let total := Z.of_nat (List.length seg_keys) in
                 status <- py_update (_read_status status_file)
                             [("state", JStr "running");
                              ("voice", JStr voice);
                              ("mode", JStr mode);
                              ("selected_script", JStr script_key);
                              ("progress", progress total 0)] ;;
                 Ok (scripts, selected_script, seg_keys, total, status)
             | _ => Raise "Invalid script_key."
             end)
        with
        | Raise e => (Raise e, st0)
        | Ok (scripts, selected_script, seg_keys, total, status) =>
            (_ <~ write_status ;;
             try_except
               (try_body w scripts script_key selected_script session_dir
                  voice mode total seg_keys))
              (State status prompts_file [])
        end
    end.

(** The status that [api_run_session] writes when it schedules a run:
    [st.update({"state": "queued", ...})] on the status read from disk.
    [voice] is [payload.get("voice")]. *)
Definition api_run_session (status_file : file) (script_key : string)
    (voice : option string) (mode : string) : result dict :=
  if String.eqb script_key EmptyString then Raise "'script_key' is required"
  else
    py_update (_read_status status_file)
      [("state", JStr "queued");
       ("selected_script", JStr script_key);
       ("voice", match voice with Some v => JStr v | None => JNull end);
       ("mode", JStr mode)].

(** [create_session(idea)].  [ts] is
    [datetime.now().strftime("%Y%m%d-%H%M%S")] and [uuid4] the value
    [uuid.uuid4()] returns if it is called; the result is the name of the
    session and the status written for it. *)
Definition create_session (ts : string) (uuid4 : N) (idea : string)
  : string * dict :=
  let session_name := ts ++ "-" ++ Main.slugify uuid4 idea Main.default_max_len in
  (session_name,
   [("session_id", JStr session_name);
    ("idea", JStr idea);
    ("state", JStr "created");
    ("progress", progress 0 0);
    ("artifacts", JObj []);
    ("error", JNull)]).

End Server.

(** ** More Python built-ins: [int] of a string, pieces and order of strings *)

Module PyStr.

(** The digits of [int(s)] after the sign: decimal digits, a single
    underscore allowed between two digits.  The result is the value and
    the number of digits read. *)
Fixpoint int_body (acc : Z) (count : nat) (after_digit : bool) (s : string)
  : option (Z * nat) :=
  match s with
  | EmptyString => if after_digit then Some (acc, count) else None
  | String c r =>
      if is_digit c
      then int_body (10 * acc + (Z.of_nat (nat_of_ascii c) - 48)) (S count) true r
      else if (Ascii.eqb c "_" && after_digit)%bool
           then int_body acc count false r
           else None
  end.

(** [sys.get_int_max_str_digits()], as CPython sets it. *)
Definition int_max_str_digits : nat := 4300.

(** [int(s)] for a [str] in base 10: the value, or one of the two
    [ValueError]s.  White space around the number is dropped, one sign may
    come first, and a number of more than [int_max_str_digits] digits is
    refused. *)
Inductive parsed_int : Type :=
| IntValue (z : Z)
| InvalidLiteral
| TooManyDigits (digits : nat).

Definition parse_int (s : string) : parsed_int :=
  let s := strip s in
  let '(negative, body) :=
    match s with
    | String "-"%char r => (true, r)
    | String "+"%char r => (false, r)
    | _ => (false, s)
    end in
  match int_body 0 0 false body with
  | Some (v, n) =>
      if Nat.ltb int_max_str_digits n then TooManyDigits n
      else IntValue (if negative then - v else v)
  | None => InvalidLiteral
  end.

(** [int(s)] under [except ValueError]. *)
Definition py_int (s : string) : option Z :=
  match parse_int s with
  | IntValue z => Some z
  | _ => None
  end.

(** [s.split(sep)] for a separator of one character: the pieces between
    the separators, empty pieces included. *)
Fixpoint split (sep : ascii) (s : string) : list string :=
  match s with
  | EmptyString => [EmptyString]
  | String c r =>
      if Ascii.eqb c sep then EmptyString :: split sep r
      else match split sep r with
           | p :: ps => String c p :: ps
           | [] => [String c EmptyString]
           end
  end.

(** [s[n:]] for [n >= 0]. *)
Fixpoint str_drop (n : nat) (s : string) : string :=
  match n, s with
  | O, _ => s
  | _, EmptyString => EmptyString
  | S k, String _ r => str_drop k r
  end.

(** [s.endswith(suffix)]. *)
Definition endswith (suffix s : string) : bool :=
  String.prefix (str_rev suffix) (str_rev s).

(** [s.lstrip(c)] and [s.rstrip(c)] for one character [c]. *)
Fixpoint lstrip_char (c : ascii) (s : string) : string :=
  match s with
  | EmptyString => EmptyString
  | String x r => if Ascii.eqb x c then lstrip_char c r else s
  end.

Definition rstrip_char (c : ascii) (s : string) : string :=
  str_rev (lstrip_char c (str_rev s)).

(** [a <= b] on strings: the order of the code points, a proper prefix
    first. *)
Definition str_le (a b : string) : bool := String.leb a b.

(** [sorted(l)] and [sorted(l, reverse=True)] on strings, by insertion
    from the right as [sorted] above. *)
Fixpoint insert_str (descending : bool) (x : string) (l : list string)
  : list string :=
  match l with
  | [] => [x]
  | y :: r =>
      if (if descending then str_le y x else str_le x y)
      then x :: l else y :: insert_str descending x r
  end.

Fixpoint sort_strings (descending : bool) (l : list string) : list string :=
  match l with
  | [] => []
  | x :: r => insert_str descending x (sort_strings descending r)
  end.

End PyStr.

(** ** [os.path] on POSIX *)

Module OsPath.

Import PyStr.

Definition isabs (p : string) : bool := String.prefix "/" p.

(** [os.path.join(a, b)]. *)
Definition join (a b : string) : string := Server.path_join a b.

(** [os.path.basename(p)]: what follows the last slash. *)
Definition basename (p : string) : string := last (split "/" p) EmptyString.

(** The number of slashes that [normpath] keeps at the start: two when
    the path starts with exactly two, one when it starts with one or with
    three or more. *)
Definition initial_slashes (path : string) : nat :=
  if String.prefix "/" path then
    if (String.prefix "//" path && negb (String.prefix "///" path))%bool
    then 2 else 1
  else 0.

Definition is_nil {A : Type} (l : list A) : bool :=
  match l with [] => true | _ => false end.

(** One turn of the loop of [normpath] over the components. *)
Definition normpath_step (initial : nat) (new_comps : list string)
    (comp : string) : list string :=
  if (String.eqb comp "" || String.eqb comp ".")%bool then new_comps
  else if (negb (String.eqb comp "..")
           || (Nat.eqb initial 0 && is_nil new_comps)
           || (negb (is_nil new_comps)
               && String.eqb (last new_comps EmptyString) ".."))%bool
       then (new_comps ++ [comp])%list
       else removelast new_comps.

Fixpoint slashes (n : nat) : string :=
  match n with
  | O => EmptyString
  | S k => String "/"%char (slashes k)
  end.

(** [os.path.normpath(path)]. *)
Definition normpath (path : string) : string :=
  if String.eqb path "" then "."
  else
    let initial := initial_slashes path in
    let comps := fold_left (normpath_step initial) (split "/" path) [] in
    let path := slashes initial ++ String.concat "/" comps in
    if String.eqb path "" then "." else path.

(** [os.path.abspath(path)], in the working directory [cwd]. *)
Definition abspath (cwd path : string) : string :=
  normpath (if isabs path then path else join cwd path).

(** [p.rfind(c)]: the index of the last [c], or -1. *)
Fixpoint rfind_from (c : ascii) (s : string) (i last : Z) : Z :=
  match s with
  | EmptyString => last
  | String x r => rfind_from c r (i + 1) (if Ascii.eqb x c then i else last)
  end.

Definition rfind (c : ascii) (s : string) : Z := rfind_from c s 0 (-1).

(** The loop of [genericpath._splitext]: the dot at [dotIndex] starts an
    extension when a character before it, from [filenameIndex] on, is not
    a dot. *)
Fixpoint splitext_loop (p : string) (filenameIndex : Z) (steps : nat)
    (dotIndex : Z) : option (string * string) :=
  match steps with
  | O => None
  | S k =>
      match String.get (Z.to_nat filenameIndex) p with
      | Some c =>
          if negb (Ascii.eqb c ".")
          then Some (str_take (Z.to_nat dotIndex) p, str_drop (Z.to_nat dotIndex) p)
          else splitext_loop p (filenameIndex + 1) k dotIndex
      | None => Some (str_take (Z.to_nat dotIndex) p, str_drop (Z.to_nat dotIndex) p)
      end
  end.

(** [os.path.splitext(p)]. *)
Definition splitext (p : string) : string * string :=
  let sepIndex := rfind "/" p in
  let dotIndex := rfind "." p in
  if sepIndex <? dotIndex then
    match splitext_loop p (sepIndex + 1) (Z.to_nat (dotIndex - (sepIndex + 1)))
            dotIndex with
    | Some r => r
    | None => (p, EmptyString)
    end
  else (p, EmptyString).

End OsPath.

(** ** src/main.py: the choice of a script *)

Module Menu.

Import PyStr.

Definition is_dict (j : json) : bool :=
  match j with JObj _ => true | _ => false end.

(** [valid = {k: v for k, v in scripts.items() if isinstance(v, dict)}]. *)
Definition valid_scripts (scripts : dict) : dict :=
  filter (fun kv => is_dict (snd kv)) scripts.

(** [sorted(valid.keys(), key=...)]: the key is the first run of digits of
    the name, 0 when there is none, as in [natural_segment_order]. *)
Definition ordered_keys (valid : dict) : list string :=
  sorted Main.seg_key (dkeys valid).

(** [preview[:120]] and [len(preview)] on the first segment of a script:
    a text and a list can be sliced, the other values cannot. *)
Definition preview (v : json) : result unit :=
  match v with
  | JStr _ | JArr _ => Ok tt
  | JObj _ => Raise "unhashable type: 'slice'"
  | j => Raise ("'" ++ type_name j ++ "' object is not subscriptable")
  end.

(** The loop that prints the menu: for every script, in order, its name,
    the number of its segments and the start of its first segment. *)
Fixpoint print_menu (valid : dict) (keys : list string) : result unit :=
  match keys with
  | [] => Ok tt
  | key :: r =>
      script <- py_getitem (JObj valid) key ;;
      _ <- match script with
           | JObj ((first_seg, first_text) :: _) => preview first_text
           | _ => Ok tt
           end ;;
      print_menu valid r
  end.

(** The [while True] loop: one line is read at each turn; a line that is
    not a number, or a number out of range, asks again.  [inputs] are the
    lines that [input()] still has to return, and an exhausted input
    raises [EOFError].  The lines not read are returned with the choice. *)
Fixpoint choose (ordered : list string) (inputs : list string)
  : result string * list string :=
  match inputs with
  | [] => (Raise "EOF when reading a line", [])
  | line :: rest =>
      match py_int (strip line) with
      | Some choice =>
          if ((1 <=? choice) && (choice <=? Z.of_nat (List.length ordered)))%bool
          then (Ok (nth (Z.to_nat (choice - 1)) ordered EmptyString), rest)
          else choose ordered rest
      | None => choose ordered rest
      end
  end.

(** [pick_script_key(scripts)]. *)
Definition pick_script_key (scripts : json) (inputs : list string)
  : result string * list string :=
  match scripts with
  | JObj scripts =>
      let valid := valid_scripts scripts in
      match valid with
      | [] => (Raise "No valid scripts returned from LLM.", inputs)
      | _ =>
          let ordered := ordered_keys valid in
          match print_menu valid ordered with
          | Raise e => (Raise e, inputs)
          | Ok _ => choose ordered inputs
          end
      end
  | j => (Raise ("'" ++ type_name j ++ "' object has no attribute 'items'"), inputs)
  end.

End Menu.

(** ** src/scripts/llm.py and src/api/server.py: the scripts of a session *)

Module Scripts.

Import Menu.

(** [get_llm_response(user_query)]: the reply of the model is parsed; a
    reply that is not JSON gives [None], and scripts.json is written only
    for a value that counts as true.  The second component is scripts.json
    afterwards. *)
Definition get_llm_response (reply : Llm.reply) (scripts_json : file)
  : result json * file :=
  match reply with
  | Llm.Failed e => (Raise e, scripts_json)
  | Llm.NotJson => (Ok JNull, scripts_json)
  | Llm.Parsed scripts =>
      (Ok scripts, if truthy scripts then Holds scripts else scripts_json)
  end.

(** The files of a session that the functions below read and write:
    what reading idea.txt gives, scripts.json and status.json. *)
Record session : Type := Session {
  idea_txt : result string;
  scripts_json : file;
  status_json : file
}.

(** [generate_scripts_for_session(session_id)].  [found] is the session
    whose directory is [SESSIONS_ROOT/session_id], if that directory
    exists, and [llm] the model asked for scripts; the session is returned
    as the function leaves it. *)
Definition generate_scripts_for_session (llm : string -> Llm.reply)
    (found : option session) : result dict * option session :=
  match found with
  | None => (Raise "Session not found", None)
  | Some s =>
      match idea_txt s with
      | Raise e => (Raise e, Some s)
      | Ok idea =>
          match get_llm_response (llm idea) (scripts_json s) with
          | (Raise e, scripts_file) =>
              (Raise e, Some (Session (idea_txt s) scripts_file (status_json s)))
          | (Ok scripts, scripts_file) =>
              match scripts with
              | JObj (kv :: d) =>
                  let scripts := kv :: d in
                  let scripts_file := Holds (JObj scripts) in
                  match Server.py_update (Server._read_status (status_json s))
                          [("state", JStr "scripts_ready");
                           ("script_keys", JArr (map JStr (dkeys scripts)))] with
                  | Raise e =>
                      (Raise e, Some (Session (idea_txt s) scripts_file (status_json s)))
                  | Ok st =>
                      (Ok scripts,
                       Some (Session (idea_txt s) scripts_file (Holds (JObj st))))
                  end
              | _ =>
                  (Raise "Failed to generate scripts",
                   Some (Session (idea_txt s) scripts_file (status_json s)))
              end
          end
      end
  end.

End Scripts.

(** ** src/api/server.py: the endpoints *)

Module Endpoints.

Import PyStr OsPath Scripts.

(** What an endpoint does: it answers, it raises an [HTTPException] with a
    status code and a detail, or another exception leaves it. *)
Inductive http (A : Type) : Type :=
| Respond (a : A)
| HTTPException (status_code : Z) (detail : string)
| Uncaught (msg : string).
Arguments Respond {A} a.
Arguments HTTPException {A} status_code detail.
Arguments Uncaught {A} msg.

(** [(payload or {}).get(k, "")] for a body of type [Dict[str, str]]: the
    pairs of the body are kept in a list. *)
Definition field (payload : list (string * string)) (k : string) : string :=
  match find (fun kv => String.eqb (fst kv) k) payload with
  | Some kv => snd kv
  | None => EmptyString
  end.

(** The session that [create_session(idea)] leaves under its name:
    idea.txt and status.json are written, and a scripts.json that was
    already there stays. *)
Definition created (existing : option session) (idea : string) (status : dict)
  : session :=
  Session (Ok idea)
    (match existing with Some s => scripts_json s | None => Absent end)
    (Holds (JObj status)).

(** [api_create_session(payload)]: the answer, and the session created
    with its name. *)
Definition api_create_session (ts : string) (uuid4 : N)
    (sessions : string -> option session) (payload : list (string * string))
  : http string * option (string * session) :=
  let idea := strip (field payload "idea") in
  if String.eqb idea "" then (HTTPException 400 "'idea' is required", None)
  else
    let '(session_id, status) := Server.create_session ts uuid4 idea in
    (Respond session_id,
     Some (session_id, created (sessions session_id) idea status)).

(** The answer of [api_generate_scripts]. *)
Record scripts_response : Type := ScriptsResponse {
  session_id : string;
  scripts : dict;
  ordered_keys : list string
}.

(** [api_generate_scripts(payload)]: the answer, and the session it
    worked on as it leaves it. *)
Definition api_generate_scripts (ts : string) (uuid4 : N)
    (llm : string -> Llm.reply) (sessions : string -> option session)
    (payload : list (string * string))
  : http scripts_response * option (string * session) :=
  let given := strip (field payload "session_id") in
  let idea := strip (field payload "idea") in
  if (String.eqb given "" && String.eqb idea "")%bool
  then (HTTPException 400 "Provide 'session_id' or 'idea'", None)
  else
    let '(session_id, found) :=
      if String.eqb given ""
      then let '(name, status) := Server.create_session ts uuid4 idea in
           (name, Some (created (sessions name) idea status))
      else (given, sessions given) in
    match generate_scripts_for_session llm found with
    | (Raise e, after) =>
        (Uncaught e, match after with Some s => Some (session_id, s) | None => None end)
    | (Ok scripts, after) =>
        (Respond (ScriptsResponse session_id scripts
                    (sorted Main.seg_key
                       (dkeys (filter (fun kv => Menu.is_dict (snd kv)) scripts)))),
         match after with Some s => Some (session_id, s) | None => None end)
    end.

(** The part of the file system that the read-only endpoints look at. *)
Record fs : Type := Fs {
  exists_ : string -> bool;
  isdir : string -> bool;
  isfile : string -> bool;
  listdir : string -> result (list string)
}.

(** [api_list_sessions()]. *)
Definition api_list_sessions (disk : fs) (sessions_root : string)
  : result (list string) :=
  if negb (exists_ disk sessions_root) then Ok []
  else
    names <- listdir disk sessions_root ;;
    Ok (sort_strings true
          (filter (fun d => isdir disk (join sessions_root d)) names)).

(** A [FileResponse]: the file, its media type and the name it is sent
    under. *)
Record file_response : Type := FileResponse {
  path : string;
  media_type : string;
  filename : string
}.

(** [api_download(session_id, kind)]. *)
Definition api_download (disk : fs) (sessions_root session_id kind : string)
  : http file_response :=
  let session_dir := join sessions_root session_id in
  if negb (isdir disk session_dir) then HTTPException 404 "Session not found"
  else
    let file_map :=
      [("final", join session_dir "final_output.mp4");
       ("subtitled", join session_dir "final_output_subtitled.mp4")] in
    match find (fun kv => String.eqb (fst kv) kind) file_map with
    | None => HTTPException 400 "kind must be 'final' or 'subtitled'"
    | Some (_, path) =>
        if negb (exists_ disk path)
        then HTTPException 404 (kind ++ " video not available yet")
        else Respond (FileResponse path "video/mp4" (basename path))
    end.

Definition one_of (l : list string) (s : string) : bool :=
  existsb (String.eqb s) l.

(** The media type that [api_get_artifact] gives to an extension. *)
Definition guess_media_type (ext : string) : string :=
  if one_of [".png"; ".jpg"; ".jpeg"] ext
  then "image/" ++ (if one_of [".jpg"; ".jpeg"] ext then "jpeg" else "png")
  else if String.eqb ext ".mp4" then "video/mp4"
  else if one_of [".mp3"] ext then "audio/mpeg"
  else "application/octet-stream".

(** [api_get_artifact(session_id, relpath)].  [cwd] is the working
    directory, which [os.path.abspath] uses for a relative path. *)
Definition api_get_artifact (disk : fs) (cwd sessions_root session_id relpath : string)
  : http file_response :=
  let session_dir := join sessions_root session_id in
  if negb (isdir disk session_dir) then HTTPException 404 "Session not found"
  else
    let requested := normpath (join session_dir relpath) in
    if negb (String.prefix (abspath cwd session_dir) requested)
    then HTTPException 400 "Invalid path"
    else if (negb (exists_ disk requested) || negb (isfile disk requested))%bool
    then HTTPException 404 "File not found"
    else
      let ext := lower (snd (splitext requested)) in
      Respond (FileResponse requested (guess_media_type ext) (basename requested)).

(** The inventory of [api_get_status]: for every directory under
    segments/, in the order of the names, the links to its pictures, its
    videos and its sounds.  [base_url] is [str(request.base_url)]. *)
Record links : Type := Links {
  images : list string;
  videos : list string;
  audios : list string
}.

Definition has_suffix (suffixes : list string) (f : string) : bool :=
  existsb (fun s => endswith s (lower f)) suffixes.

(** [_url(p)] for the segment [seg]. *)
Definition _url (base_url session_id seg p : string) : string :=
  rstrip_char "/" base_url ++ "/api/sessions/" ++ session_id ++ "/artifact/"
  ++ seg ++ "/" ++ p.

Fixpoint inventory_loop (disk : fs) (base_url session_id segments_root : string)
    (segs : list string) (segments_info : list (string * links))
  : result (list (string * links)) :=
  match segs with
  | [] => Ok segments_info
  | seg :: r =>
      let seg_dir := join segments_root seg in
      if negb (isdir disk seg_dir)
      then inventory_loop disk base_url session_id segments_root r segments_info
      else
        files <- listdir disk seg_dir ;;
        let url := _url base_url session_id seg in
        let entry :=
          Links (map url (filter (has_suffix [".png"; ".jpg"; ".jpeg"]) files))
                (map url (filter (has_suffix [".mp4"]) files))
                (map url (filter (has_suffix [".mp3"; ".wav"; ".m4a"]) files)) in
        inventory_loop disk base_url session_id segments_root r
          (segments_info ++ [(seg, entry)])%list
  end.

Definition segments_inventory (disk : fs) (base_url session_dir session_id : string)
  : result (list (string * links)) :=
  let segments_root := join session_dir "segments" in
  if isdir disk segments_root then
    names <- listdir disk segments_root ;;
    inventory_loop disk base_url session_id segments_root
      (sort_strings false names) []
  else Ok [].

End Endpoints.

(** ** src/images and src/main.py: the back ends and the files they write *)

Module Backends.

Import OsPath.

(** [not os.getenv(name)]: the variable is unset or empty. *)
Definition missing (value : option string) : bool :=
  match value with
  | None => true
  | Some v => String.eqb v ""
  end.

(** [generate_image_from_prompt(prompt, save_path=...)] of
    src/images/image_gen.py.  [hf_token] is the variable HF_TOKEN,
    [predict] what building the client and calling the Space give (the
    temporary file of the picture and the seed used) and [save] what
    opening that file and saving it under [save_path] gives. *)
Definition generate_image_from_prompt (hf_token : option string)
    (predict : json -> result (string * Z))
    (save : string -> string -> result unit)
    (prompt : json) (save_path : string) : result Z :=
  if missing hf_token then Raise "HF_TOKEN is not set in your environment."
  else
    match predict prompt with
    | Raise e => Raise e
    | Ok (image_path, used_seed) =>
        match save image_path save_path with
        | Raise e => Raise ("Failed to open or save the image: " ++ e)
        | Ok _ => Ok used_seed
        end
    end.

(** [_get_client()] of src/images/hf_inference_image_gen.py under
    [lru_cache(maxsize=1)]: [cached] tells whether an earlier call has
    returned a client, which is then returned again; an exception is not
    cached. *)
Definition _get_client (cached : bool) (hf_token : option string)
  : result unit * bool :=
  if cached then (Ok tt, true)
  else if missing hf_token
       then (Raise "HF_TOKEN is not set or inference client failed to initialize.",
             false)
       else (Ok tt, true).

(** [generate_and_save_image(prompt, save_path)] of the same file.
    [makedirs] is what creating the directory of [save_path] gives and
    [text_to_image] what the inference call followed by the saving of the
    picture gives. The second component is the state of the cache. *)
Definition generate_and_save_image (cached : bool) (hf_token : option string)
    (makedirs : string -> result unit)
    (text_to_image : json -> string -> result unit)
    (prompt : json) (save_path : string) : result string * bool :=
  match makedirs save_path with
  | Raise e => (Raise e, cached)
  | Ok _ =>
      match _get_client cached hf_token with
      | (Raise e, cached) => (Raise e, cached)
      | (Ok _, cached) =>
          match text_to_image prompt save_path with
          | Raise e => (Raise e, cached)
          | Ok _ => (Ok save_path, cached)
          end
      end
  end.

(** [generate_video_from_image(image_path, prompt, ...)] of
    src/images/image_to_video.py.  [predict] is what building the client
    and calling the Space give (the result and the seed used), [copy] is
    [shutil.copy] and [str] is Python's [str()] of a value, used in the
    message of the [ValueError]. *)
Definition generate_video_from_image
    (predict : result (json * Z)) (copy : json -> string -> result unit)
    (str : json -> string) : result (string * Z) :=
  match predict with
  | Raise e => Raise e
  | Ok (result_, used_seed) =>
      match result_ with
      | JObj d =>
          match dget "video" d with
          | Some remote_video_path =>
              let output_filename := "generated_" ++ str_int used_seed ++ ".mp4" in
              match copy remote_video_path output_filename with
              | Raise e => Raise e
              | Ok _ => Ok (output_filename, used_seed)
              end
          | None => Raise ("Unexpected return format: " ++ str result_)
          end
      | _ => Raise ("Unexpected return format: " ++ str result_)
      end
  end.

(** Lines 153-155 of [adjust_video_to_duration] in src/main.py: the file
    written when no [out_path] is given. *)
Definition out_path (video_path : string) : string :=
  let '(base, ext) := splitext video_path in
  base ++ "_adj" ++ ext.

End Backends.

(** ** src/videogeneration/subtitles.py: subtitles from a file or from
    a transcription *)

Module Subtitles.

Import PyStr Media.

Section Srt.

(** Python's [repr] of a text, for the message of [int]. *)
Variable repr : string -> string.
















End Srt.

(** A segment of the result of Whisper: its ["start"], ["end"] and
    ["text"] when they are present. *)
Record whisper_segment : Type := WhisperSegment {
  seg_start : option Q;
  seg_end : option Q;
  seg_text : option string
}.

(** The loop of [transcribe_to_items_whisper] over [result["segments"]]. *)
Fixpoint items_of (segments : list whisper_segment) : list item :=
  match segments with
  | [] => []
  | seg :: r =>
      let start := match seg_start seg with Some t => t | None => 0%Q end in
      let end_ := match seg_end seg with Some t => t | None => (start + (1 # 2))%Q end in
      let text := strip (match seg_text seg with Some t => t | None => EmptyString end) in
      if String.eqb text "" then items_of r else (start, end_, text) :: items_of r
  end.

(** [transcribe_to_items_whisper(video_path, ...)].  [imported] tells
    whether [import whisper] succeeds and [transcribed] is what loading the
    model and transcribing give: the segments of the result, or nothing
    when the result has no ["segments"]. *)
Definition transcribe_to_items_whisper (imported : bool)
    (transcribed : result (option (list whisper_segment)))
  : result (list item) :=
  if negb imported
  then Raise "openai-whisper is not installed. Run: pip install openai-whisper"
  else
    match transcribed with
    | Raise e => Raise e
    | Ok None => Ok []
    | Ok (Some segments) => Ok (items_of segments)
    end.

(** [auto_subtitle_with_whisper]: the subtitles put on a video of
    duration [v_duration]. *)
Definition auto_subtitle_with_whisper (imported : bool)
    (transcribed : result (option (list whisper_segment))) (v_duration : Q)
  : result (list text_clip) :=
  items <- transcribe_to_items_whisper imported transcribed ;;
  Ok (burn_subtitles_from_items v_duration items).

End Subtitles.

(* ===================================================================== *)
(** * Part II: properties                                                 *)
(* ===================================================================== *)

(** ** The stable sort *)

Section SortedFacts.

Context {A : Type} (key : A -> Z).

Definition key_le (a b : A) : Prop := key a <= key b.

Lemma insert_by_perm (x : A) (l : list A) :
  Permutation (insert_by key x l) (x :: l).
Proof.
  induction l as [|y r IH]; simpl.
  - apply Permutation_refl.
  - destruct (key x <=? key y).
    + apply Permutation_refl.
    + apply perm_trans with (y :: x :: r).
      * now apply perm_skip.
      * apply perm_swap.
Qed.

Lemma sorted_perm (l : list A) : Permutation (sorted key l) l.
Proof.
  induction l as [|x r IH]; simpl.
  - apply perm_nil.
  - apply perm_trans with (x :: sorted key r).
    + apply insert_by_perm.
    + now apply perm_skip.
Qed.

Lemma insert_by_Forall (P : A -> Prop) (x : A) (l : list A) :
  P x -> Forall P l -> Forall P (insert_by key x l).
Proof.
  intros Hx Hl.
  rewrite Forall_forall in *.
  intros y Hy.
  apply (Permutation_in _ (insert_by_perm x l)) in Hy.
  destruct Hy as [<- | Hy]; auto.
Qed.

Lemma insert_by_sorted (x : A) (l : list A) :
  StronglySorted key_le l -> StronglySorted key_le (insert_by key x l).
Proof.
  induction 1 as [|y r Hr IH Hy]; simpl.
  - constructor; [constructor | constructor].
  - destruct (key x <=? key y) eqn:E.
    + apply Z.leb_le in E.
      constructor.
      * now constructor.
      * constructor; [exact E|].
        eapply Forall_impl; [|exact Hy].
        unfold key_le; intros; lia.
    + apply Z.leb_gt in E.
      constructor; [exact IH|].
      apply insert_by_Forall; [unfold key_le; lia | exact Hy].
Qed.

Lemma sorted_sorted (l : list A) : StronglySorted key_le (sorted key l).
Proof.
  induction l as [|x r IH]; simpl.
  - constructor.
  - now apply insert_by_sorted.
Qed.

(** Stability: the elements of any one key come out in the order in which
    they went in. *)
Lemma insert_by_filter (k : Z) (x : A) (l : list A) :
  filter (fun y => key y =? k) (insert_by key x l)
  = filter (fun y => key y =? k) (x :: l).
Proof.
  induction l as [|y r IH]; [reflexivity|].
  cbn [insert_by].
  destruct (key x <=? key y) eqn:E; [reflexivity|].
  apply Z.leb_gt in E.
  cbn [filter] in *. rewrite IH.
  destruct (key y =? k) eqn:Ey, (key x =? k) eqn:Ex; try reflexivity.
  apply Z.eqb_eq in Ey, Ex. lia.
Qed.

Lemma sorted_stable (k : Z) (l : list A) :
  filter (fun y => key y =? k) (sorted key l) = filter (fun y => key y =? k) l.
Proof.
  induction l as [|x r IH]; [reflexivity|].
  cbn [sorted]. rewrite insert_by_filter.
  cbn [filter]. now rewrite IH.
Qed.

End SortedFacts.

(** ** Segment order (src/main.py, [natural_segment_order]) *)

Section SegmentOrder.

Import Main.

Definition no_digit (c : ascii) : bool := negb (is_digit c).

Lemma span_digits_run (d rest : string) :
  str_forall is_digit d = true ->
  (rest = EmptyString \/ exists c r, rest = String c r /\ is_digit c = false) ->
  span_digits (d ++ rest) = (d, rest).
Proof.
  intros Hd Hrest. induction d as [|c d IH]; simpl in *.
  - destruct Hrest as [-> | (c & r & -> & Hc)]; simpl; [reflexivity|].
    now rewrite Hc.
  - apply andb_true_iff in Hd as [Hc Hd].
    rewrite Hc, (IH Hd). reflexivity.
Qed.

Lemma findall_digits_fuel_first (pre d rest : string) (c : ascii) (fuel : nat) :
  str_forall no_digit pre = true ->
  is_digit c = true ->
  str_forall is_digit d = true ->
  (rest = EmptyString \/ exists c' r, rest = String c' r /\ is_digit c' = false) ->
  (String.length pre < fuel)%nat ->
  exists tl, findall_digits_fuel fuel (pre ++ String c d ++ rest)
             = String c d :: tl.
Proof.
  intros Hpre Hc Hd Hrest. revert fuel.
  induction pre as [|p pre IH]; intros fuel Hfuel.
  - destruct fuel as [|fuel]; [simpl in Hfuel; lia|].
    cbn [append findall_digits_fuel]. rewrite Hc.
    change (String c (d ++ rest)) with (String c d ++ rest).
    rewrite span_digits_run; [eexists; reflexivity | | exact Hrest].
    simpl. now rewrite Hc, Hd.
  - destruct fuel as [|fuel]; [simpl in Hfuel; lia|].
    simpl in Hpre. apply andb_true_iff in Hpre as [Hp Hpre].
    cbn [append findall_digits_fuel].
    unfold no_digit in Hp. apply negb_true_iff in Hp. rewrite Hp.
    apply (IH Hpre). simpl in Hfuel. lia.
Qed.

Lemma findall_digits_fuel_none (s : string) (fuel : nat) :
  str_forall no_digit s = true -> findall_digits_fuel fuel s = [].
Proof.
  revert s. induction fuel as [|fuel IH]; intros s Hs; [reflexivity|].
  destruct s as [|c s]; [reflexivity|].
  simpl in Hs. apply andb_true_iff in Hs as [Hc Hs].
  unfold no_digit in Hc. apply negb_true_iff in Hc.
  cbn [findall_digits_fuel]. rewrite Hc. now apply IH.
Qed.

(** A key without digits has index 0. *)
Lemma seg_key_no_digit (s : string) :
  str_forall no_digit s = true -> seg_key s = 0.
Proof.
  intros Hs. unfold seg_key, findall_digits.
  now rewrite findall_digits_fuel_none.
Qed.

Lemma length_append (a b : string) :
  String.length (a ++ b) = (String.length a + String.length b)%nat.
Proof. induction a as [|c a IH]; simpl; [reflexivity | now rewrite IH]. Qed.

(** The index of a key is the value of its first maximal run of digits:
    [pre] has no digit, [String c d] is made of digits, and [rest] does
    not go on with a digit. *)
Lemma seg_key_first_run (pre d rest : string) (c : ascii) :
  str_forall no_digit pre = true ->
  is_digit c = true ->
  str_forall is_digit d = true ->
  (rest = EmptyString \/ exists c' r, rest = String c' r /\ is_digit c' = false) ->
  seg_key (pre ++ String c d ++ rest) = int_of_digits (String c d).
Proof.
  intros Hpre Hc Hd Hrest. unfold seg_key, findall_digits.
  destruct (findall_digits_fuel_first pre d rest c
              (S (String.length (pre ++ String c d ++ rest)))
              Hpre Hc Hd Hrest) as [tl ->]; [|reflexivity].
  rewrite length_append. lia.
Qed.

(** The order that the specification words describe: ascending by index,
    keys of equal index ascending as strings. *)
Definition index_then_key (a b : string) : Prop :=
  seg_key a < seg_key b \/ (seg_key a = seg_key b /\ String.leb a b = true).

Definition ordered_by_index_then_key (out : list string) : Prop :=
  StronglySorted index_then_key out.

(** C4, as stated, fails: two keys of equal index are not put in string
    order, they stay in input order.  ["segment01"] is below ["segment1"]
    as a string and both have index 1. *)
Lemma natural_segment_order_ties_not_by_key :
  seg_key "segment1" = seg_key "segment01"
  /\ natural_segment_order ["segment1"; "segment01"] = ["segment1"; "segment01"]
  /\ ~ ordered_by_index_then_key (natural_segment_order ["segment1"; "segment01"]).
Proof.
  split; [reflexivity|]. split; [reflexivity|].
  intros H. change (natural_segment_order ["segment1"; "segment01"])
    with ["segment1"; "segment01"] in H.
  inversion H as [|a l _ Hall]; subst.
  inversion Hall as [|b l' Hab _]; subst.
  destruct Hab as [Hlt | [_ Hle]].
  - vm_compute in Hlt. discriminate.
  - vm_compute in Hle. discriminate.
Qed.

(** C4, amended: [natural_segment_order] returns the same keys (as a
    multiset), ascending by the first embedded integer of each key, a key
    without digits counting as 0, and keys of equal integer keep the order
    they had in the input (the sort is stable); on
    [segment10, segment2, segment1] it gives [segment1, segment2,
    segment10]. *)
Theorem natural_segment_order_stable_by_index :
  forall segments : list string,
    Permutation (natural_segment_order segments) segments
    /\ StronglySorted (fun a b => seg_key a <= seg_key b)
         (natural_segment_order segments)
    /\ (forall k : Z,
          filter (fun s => seg_key s =? k) (natural_segment_order segments)
          = filter (fun s => seg_key s =? k) segments)
    /\ (forall s, str_forall no_digit s = true -> seg_key s = 0)
    /\ (forall pre d rest c,
          str_forall no_digit pre = true ->
          is_digit c = true ->
          str_forall is_digit d = true ->
          (rest = EmptyString
           \/ exists c' r, rest = String c' r /\ is_digit c' = false) ->
          seg_key (pre ++ String c d ++ rest) = int_of_digits (String c d))
    /\ natural_segment_order ["segment10"; "segment2"; "segment1"]
       = ["segment1"; "segment2"; "segment10"].
Proof.
  intros segments. unfold natural_segment_order.
  split; [apply sorted_perm|].
  split; [apply (sorted_sorted seg_key)|].
  split; [intros k; apply sorted_stable|].
  split; [exact seg_key_no_digit|].
  split; [exact seg_key_first_run|].
  reflexivity.
Qed.

End SegmentOrder.

(** ** Strings *)

Section StringFacts.

Variables p q : ascii -> bool.

Lemma str_forall_take (n : nat) (s : string) :
  str_forall p s = true -> str_forall p (str_take n s) = true.
Proof.
  revert s. induction n as [|n IH]; intros [|c s]; simpl; auto.
  intros H. apply andb_true_iff in H as [Hc Hs].
  now rewrite Hc, IH.
Qed.

Lemma str_forall_filter (s : string) :
  (forall c, q c = true -> p c = true) ->
  str_forall p (str_filter q s) = true.
Proof.
  intros Hqp. induction s as [|c s IH]; simpl; [reflexivity|].
  destruct (q c) eqn:E; [|exact IH].
  simpl. now rewrite (Hqp c E), IH.
Qed.

Lemma str_forall_lstrip (s : string) :
  str_forall p s = true -> str_forall p (lstrip s) = true.
Proof.
  induction s as [|c s IH]; simpl; [reflexivity|].
  intros H. destruct (isspace c); [|exact H].
  apply andb_true_iff in H as [_ Hs]. now apply IH.
Qed.

Lemma str_forall_rev_onto (s acc : string) :
  str_forall p s = true -> str_forall p acc = true ->
  str_forall p (str_rev_onto s acc) = true.
Proof.
  revert acc. induction s as [|c s IH]; intros acc Hs Hacc; simpl; [exact Hacc|].
  simpl in Hs. apply andb_true_iff in Hs as [Hc Hs].
  apply IH; [exact Hs|]. simpl. now rewrite Hc, Hacc.
Qed.

Lemma str_forall_rev (s : string) :
  str_forall p s = true -> str_forall p (str_rev s) = true.
Proof. intros H. now apply str_forall_rev_onto. Qed.

Lemma str_forall_strip (s : string) :
  str_forall p s = true -> str_forall p (strip s) = true.
Proof.
  intros H. unfold strip, rstrip.
  now apply str_forall_rev, str_forall_lstrip, str_forall_rev, str_forall_lstrip.
Qed.

Lemma str_forall_map (f : ascii -> ascii) (s : string) :
  (forall c, p c = true -> q (f c) = true) ->
  str_forall p s = true -> str_forall q (str_map f s) = true.
Proof.
  intros Hf. induction s as [|c s IH]; simpl; [reflexivity|].
  intros H. apply andb_true_iff in H as [Hc Hs].
  now rewrite (Hf c Hc), IH.
Qed.

Lemma str_forall_hyphenate_from (in_run : bool) (s : string) :
  (forall c, p c = true -> isspace c = false -> q c = true) ->
  q "-"%char = true ->
  str_forall p s = true -> str_forall q (Main.hyphenate_from in_run s) = true.
Proof.
  intros Hc Hh. revert in_run.
  induction s as [|c s IH]; intros in_run H; simpl; [reflexivity|].
  simpl in H. apply andb_true_iff in H as [Hpc Hs].
  destruct (isspace c) eqn:E.
  - destruct in_run; simpl; [now apply IH|].
    now rewrite Hh, IH.
  - simpl. now rewrite (Hc c Hpc E), IH.
Qed.

Lemma length_str_take (n : nat) (s : string) :
  (String.length (str_take n s) <= n)%nat.
Proof.
  revert s. induction n as [|n IH]; intros [|c s]; simpl; try lia.
  specialize (IH s). lia.
Qed.

Lemma str_take_nonempty (n : nat) (s : string) :
  s <> EmptyString -> str_take (S n) s <> EmptyString.
Proof. destruct s as [|c s]; simpl; [congruence | discriminate]. Qed.

End StringFacts.

(** ** Session names (src/main.py [slugify], src/api/server.py
    [create_session]) *)

Section Slug.

Import Main.

Definition is_char (n : nat) (c : ascii) : bool := Nat.eqb (nat_of_ascii c) n.

(** The characters of a slug: lower-case letters, digits, hyphen,
    underscore, dot. *)
Definition slug_char (c : ascii) : bool :=
  (is_lower c || is_digit c || is_char 45 c || is_char 95 c || is_char 46 c)%bool.

(** The characters of an idea that can reach the slug: letters, digits,
    hyphen, underscore, dot. *)
Definition sluggable (c : ascii) : bool :=
  (is_lower c || is_upper c || is_digit c
   || is_char 45 c || is_char 95 c || is_char 46 c)%bool.

(** What is left after the first substitution, [strip] and [lower]. *)
Definition slug_or_space (c : ascii) : bool := (slug_char c || is_char 32 c)%bool.

Ltac each_ascii c :=
  destruct c as [[] [] [] [] [] [] [] []]; vm_compute; intros;
  solve [reflexivity | discriminate | assumption].

Lemma lower_char_keep (c : ascii) :
  slug_keep c = true -> slug_or_space (lower_char c) = true.
Proof. each_ascii c. Qed.

Lemma slug_or_space_not_space (c : ascii) :
  slug_or_space c = true -> isspace c = false -> slug_char c = true.
Proof. each_ascii c. Qed.

Lemma keep_not_sluggable (c : ascii) :
  slug_keep c = true -> sluggable c = false -> isspace c = true.
Proof. each_ascii c. Qed.

Lemma hex_char_slug (n : N) : (n < 16)%N -> slug_char (hex_char n) = true.
Proof.
  intros H. destruct n as [|p]; [reflexivity|].
  do 4 (try destruct p as [p|p|]); try reflexivity; lia.
Qed.

Lemma nibble_lt (u i : N) : (nibble u i < 16)%N.
Proof.
  unfold nibble. change 15%N with (N.ones 4).
  rewrite N.land_ones. apply N.mod_lt. discriminate.
Qed.

Lemma uuid_prefix_slug (u : N) :
  str_forall slug_char (str_take 8 (uuid_str u)) = true
  /\ String.length (str_take 8 (uuid_str u)) = 8%nat.
Proof.
  unfold uuid_str. cbn [hex_from str_take str_forall String.length].
  rewrite !hex_char_slug by apply nibble_lt. split; reflexivity.
Qed.

Lemma lstrip_all_space (s : string) :
  str_forall isspace s = true -> lstrip s = EmptyString.
Proof.
  induction s as [|c s IH]; simpl; [reflexivity|].
  intros H. apply andb_true_iff in H as [-> Hs]. now apply IH.
Qed.

Lemma filter_keep_all_space (idea : string) :
  str_forall (fun c => negb (sluggable c)) idea = true ->
  str_forall isspace (str_filter slug_keep idea) = true.
Proof.
  induction idea as [|c s IH]; simpl; [reflexivity|].
  intros H. apply andb_true_iff in H as [Hc Hs].
  apply negb_true_iff in Hc.
  destruct (slug_keep c) eqn:E; [|now apply IH].
  simpl. now rewrite (keep_not_sluggable c E Hc), IH.
Qed.

Lemma slug_before_cut (uuid4 : N) (text : string) :
  let slug := hyphenate (lower (strip (str_filter slug_keep text))) in
  str_forall slug_char
    (if is_empty slug then str_take 8 (uuid_str uuid4) else slug) = true
  /\ (if is_empty slug then str_take 8 (uuid_str uuid4) else slug) <> EmptyString.
Proof.
  intros slug. destruct (is_empty slug) eqn:E.
  - split; [apply uuid_prefix_slug|].
    intros H. pose proof (proj2 (uuid_prefix_slug uuid4)) as L.
    rewrite H in L. discriminate.
  - split; [|destruct slug; [discriminate | discriminate]].
    unfold slug, hyphenate.
    apply (str_forall_hyphenate_from slug_or_space slug_char);
      [exact slug_or_space_not_space | reflexivity |].
    apply (str_forall_map slug_keep slug_or_space); [exact lower_char_keep|].
    apply str_forall_strip, str_forall_filter. auto.
Qed.

(** C10: the name of a session is [<timestamp>-<slug>]; the slug is never
    empty, has at most 40 characters, and is made of lower-case letters,
    digits, hyphens, underscores and dots; when the idea has no letter,
    digit, hyphen, underscore or dot, the slug is the first 8 characters of
    a fresh UUID, which are 8 hexadecimal digits. *)
Theorem create_session_name (ts : string) (uuid4 : N) (idea : string) :
  let slug := slugify uuid4 idea default_max_len in
  fst (Server.create_session ts uuid4 idea) = ts ++ "-" ++ slug
  /\ slug <> EmptyString
  /\ (String.length slug <= 40)%nat
  /\ str_forall slug_char slug = true
  /\ (str_forall (fun c => negb (sluggable c)) idea = true ->
      slug = str_take 8 (uuid_str uuid4))
  /\ String.length (str_take 8 (uuid_str uuid4)) = 8%nat.
Proof.
  intros slug.
  destruct (slug_before_cut uuid4 idea) as [Hchars Hne].
  split; [reflexivity|].
  split; [apply str_take_nonempty, Hne|].
  split; [apply length_str_take|].
  split; [apply str_forall_take, Hchars|].
  split; [|apply uuid_prefix_slug].
  intros Hidea. unfold slug, slugify.
  assert (E : strip (str_filter slug_keep idea) = EmptyString).
  { unfold strip. rewrite lstrip_all_space by now apply filter_keep_all_space.
    reflexivity. }
  rewrite E. cbn [lower str_map hyphenate hyphenate_from is_empty].
  unfold default_max_len.
  pose proof (proj2 (uuid_prefix_slug uuid4)) as L.
  unfold uuid_str in *. cbn [hex_from str_take] in *. reflexivity.
Qed.

(** A run of spaces between two words becomes one hyphen. *)
Fixpoint spaces (n : nat) : string :=
  match n with
  | O => EmptyString
  | S k => String " "%char (spaces k)
  end.

Lemma slug_char_keep (c : ascii) : slug_char c = true -> slug_keep c = true.
Proof. each_ascii c. Qed.

Lemma slug_char_not_space (c : ascii) : slug_char c = true -> isspace c = false.
Proof. each_ascii c. Qed.

Lemma slug_char_lower (c : ascii) : slug_char c = true -> lower_char c = c.
Proof. each_ascii c. Qed.

Lemma str_forall_app (p : ascii -> bool) (a b : string) :
  str_forall p (a ++ b) = (str_forall p a && str_forall p b)%bool.
Proof.
  induction a as [|c a IH]; simpl; [reflexivity|].
  now rewrite IH, andb_assoc.
Qed.

Lemma str_filter_all (p : ascii -> bool) (x : string) :
  str_forall p x = true -> str_filter p x = x.
Proof.
  induction x as [|c x IH]; simpl; [reflexivity|].
  intros H. apply andb_true_iff in H as [-> Hx]. now rewrite IH.
Qed.

Lemma str_map_fixed (f : ascii -> ascii) (p : ascii -> bool) (x : string) :
  (forall c, p c = true -> f c = c) -> str_forall p x = true -> str_map f x = x.
Proof.
  intros Hf. induction x as [|c x IH]; simpl; [reflexivity|].
  intros H. apply andb_true_iff in H as [Hc Hx]. now rewrite (Hf c Hc), IH.
Qed.

Lemma str_append_assoc (x y z : string) : (x ++ y) ++ z = x ++ y ++ z.
Proof. induction x as [|c x IH]; simpl; [reflexivity | now rewrite IH]. Qed.

Lemma append_empty_r (x : string) : x ++ EmptyString = x.
Proof. induction x as [|c x IH]; simpl; [reflexivity | now rewrite IH]. Qed.

Lemma str_rev_onto_app (x acc : string) :
  str_rev_onto x acc = str_rev x ++ acc.
Proof.
  unfold str_rev. revert acc.
  induction x as [|c x IH]; intros acc; simpl; [reflexivity|].
  rewrite (IH (String c acc)), (IH (String c EmptyString)).
  now rewrite str_append_assoc.
Qed.

Lemma str_rev_cons (c : ascii) (x : string) :
  str_rev (String c x) = str_rev x ++ String c EmptyString.
Proof. unfold str_rev at 1. simpl. apply str_rev_onto_app. Qed.

Lemma str_rev_app (x y : string) : str_rev (x ++ y) = str_rev y ++ str_rev x.
Proof.
  induction x as [|c x IH]; simpl.
  - change (str_rev EmptyString) with EmptyString. now rewrite append_empty_r.
  - now rewrite !str_rev_cons, IH, str_append_assoc.
Qed.

Lemma str_rev_involutive (x : string) : str_rev (str_rev x) = x.
Proof.
  induction x as [|c x IH]; [reflexivity|].
  now rewrite str_rev_cons, str_rev_app, IH.
Qed.

Lemma lstrip_word (x rest : string) :
  x <> EmptyString -> str_forall slug_char x = true ->
  lstrip (x ++ rest) = x ++ rest.
Proof.
  destruct x as [|c x]; [congruence|]. simpl. intros _ H.
  apply andb_true_iff in H as [Hc _]. now rewrite (slug_char_not_space c Hc).
Qed.

Lemma strip_between_words (a mid b : string) :
  a <> EmptyString -> b <> EmptyString ->
  str_forall slug_char a = true -> str_forall slug_char b = true ->
  strip (a ++ mid ++ b) = a ++ mid ++ b.
Proof.
  intros Ha Hb Fa Fb. unfold strip, rstrip.
  rewrite (lstrip_word a _ Ha Fa).
  rewrite <- str_append_assoc, str_rev_app.
  rewrite lstrip_word.
  - now rewrite <- str_rev_app, str_rev_involutive, str_append_assoc.
  - intros E. apply (f_equal str_rev) in E.
    rewrite str_rev_involutive in E. now apply Hb.
  - now apply str_forall_rev.
Qed.

Lemma hyphenate_from_word (x rest : string) (in_run : bool) :
  x <> EmptyString -> str_forall slug_char x = true ->
  hyphenate_from in_run (x ++ rest) = x ++ hyphenate_from false rest.
Proof.
  revert in_run. induction x as [|c x IH]; intros in_run Hx H; [congruence|].
  simpl in H. apply andb_true_iff in H as [Hc Hr].
  simpl. rewrite (slug_char_not_space c Hc). f_equal.
  destruct x as [|d x]; [reflexivity|].
  apply IH; [discriminate | exact Hr].
Qed.

Lemma hyphenate_from_spaces (n : nat) (rest : string) :
  hyphenate_from true (spaces n ++ rest) = hyphenate_from true rest.
Proof. induction n as [|n IH]; simpl; [reflexivity | exact IH]. Qed.

Lemma slugify_joins_words (uuid4 : N) (a b : string) (n : nat) :
  a <> EmptyString -> b <> EmptyString ->
  str_forall slug_char a = true -> str_forall slug_char b = true ->
  slugify uuid4 (a ++ spaces (S n) ++ b) default_max_len
  = str_take 40 (a ++ "-" ++ b).
Proof.
  intros Ha Hb Fa Fb. unfold slugify.
  assert (Fs : forall k, str_forall slug_or_space (spaces k) = true)
    by (induction k; simpl; auto).
  assert (Fos : forall x, str_forall slug_char x = true ->
                          str_forall slug_or_space x = true).
  { induction x as [|c x IH]; simpl; [reflexivity|].
    intros H. apply andb_true_iff in H as [Hc Hx].
    unfold slug_or_space at 1. now rewrite Hc, IH. }
  assert (Fall : str_forall slug_or_space (a ++ spaces (S n) ++ b) = true)
    by (rewrite !str_forall_app, (Fos a Fa), (Fos b Fb), Fs; reflexivity).
  rewrite str_filter_all.
  2:{ revert Fall. generalize (a ++ spaces (S n) ++ b).
      induction s as [|c s IH]; simpl; [reflexivity|].
      intros H. apply andb_true_iff in H as [Hc Hs]. rewrite (IH Hs).
      revert Hc. clear. each_ascii c. }
  rewrite (strip_between_words a (spaces (S n)) b Ha Hb Fa Fb).
  unfold lower. rewrite (str_map_fixed lower_char slug_or_space).
  2:{ clear. intros c. each_ascii c. }
  2:{ exact Fall. }
  unfold hyphenate. rewrite (hyphenate_from_word a _ false Ha Fa).
  cbn [spaces append hyphenate_from]. replace (isspace " ") with true by reflexivity.
  rewrite hyphenate_from_spaces.
  assert (Eb : hyphenate_from true b = b).
  { rewrite <- (append_empty_r b) at 1.
    rewrite (hyphenate_from_word b EmptyString true Hb Fb).
    apply append_empty_r. }
  rewrite Eb.
  destruct a as [|c a]; [congruence|]. reflexivity.
Qed.

End Slug.

(** ** Times *)

Section TimeFacts.

Import Media.
Local Open Scope Q_scope.

Lemma Qltb_lt (a b : Q) : Qltb a b = true <-> a < b.
Proof.
  unfold Qltb. rewrite negb_true_iff.
  destruct (Qle_bool b a) eqn:E.
  - apply Qle_bool_iff in E. split; [discriminate | lra].
  - split; [intros _ | reflexivity].
    apply Qnot_le_lt. intros H. apply Qle_bool_iff in H. congruence.
Qed.

Lemma Qltb_ge (a b : Q) : Qltb a b = false <-> b <= a.
Proof.
  destruct (Qltb a b) eqn:E.
  - apply Qltb_lt in E. split; [discriminate | lra].
  - split; [intros _ | reflexivity].
    apply Qnot_lt_le. intros H. apply Qltb_lt in H. congruence.
Qed.

Lemma py_max_cases (a b : Q) :
  (a < b /\ py_max a b = b) \/ (b <= a /\ py_max a b = a).
Proof.
  unfold py_max. destruct (Qltb a b) eqn:E.
  - left. now apply Qltb_lt in E.
  - right. now apply Qltb_ge in E.
Qed.

Lemma py_min_cases (a b : Q) :
  (b < a /\ py_min a b = b) \/ (a <= b /\ py_min a b = a).
Proof.
  unfold py_min. destruct (Qltb b a) eqn:E.
  - left. now apply Qltb_lt in E.
  - right. now apply Qltb_ge in E.
Qed.

(** Python's [max] and [min] of two times are the mathematical ones. *)
Lemma py_max_Qmax (a b : Q) : py_max a b == Qmax a b.
Proof.
  destruct (py_max_cases a b) as [[H ->] | [H ->]];
    destruct (Q.max_spec a b) as [[H' ->] | [H' ->]]; lra.
Qed.

Lemma py_min_Qmin (a b : Q) : py_min a b == Qmin a b.
Proof.
  destruct (py_min_cases a b) as [[H ->] | [H ->]];
    destruct (Q.min_spec a b) as [[H' ->] | [H' ->]]; lra.
Qed.

Lemma subclip_from_0 (c : clip) (t_end : Q) :
  0 <= duration c -> 0 <= t_end -> subclip c 0 t_end = Ok (Subclip c 0 t_end).
Proof.
  intros Hc Ht. unfold subclip.
  replace (Qltb 0 0) with false by reflexivity.
  rewrite (proj2 (Qltb_ge (duration c) 0) Hc).
  now rewrite (proj2 (Qltb_ge t_end 0) Ht).
Qed.

End TimeFacts.

(** ** The duration reconciler (src/main.py, [adjust_video_to_duration]) *)

Section Reconcile.

Import Media.
Local Open Scope Q_scope.


(** What the two changed cases show, for the file that the function
    opens: the trimmed clip shows at every time what the file shows at
    that time (it is a prefix of it); the padded clip shows the file up to
    its end, and from there on the one picture taken at
    [max(duration - 1/fps, 0)]. *)
Lemma reconciled_frames (path : string) (d target : Q) (fps : Z) (t : Q) :
  let c := VideoFileClip path d in
  (same_frame (get_frame (Subclip c 0 target) t) (get_frame c t))
  /\ (let padded :=
        Concat [c; ImageClip c (py_max (d - 1 / inject_Z fps) 0) (target - d)] in
      (t < d -> get_frame padded t = get_frame c t)
      /\ (d <= t ->
          get_frame padded t
          = get_frame c (py_max (d - 1 / inject_Z fps) 0))).
Proof.
  cbn [get_frame duration]. split; [split; cbn [fst snd]; [reflexivity | lra]|].
  split; intros H.
  - now rewrite (proj2 (Qltb_lt t d) H).
  - now rewrite (proj2 (Qltb_ge t d) H).
Qed.

(** A negative target is outside the contract: moviepy counts a negative
    end from the end of the clip. *)
Lemma adjust_video_to_duration_negative_target :
  adjust_video_to_duration (VideoFileClip "v.mp4" 5) (- (1)) 24
  = Ok (Subclip (VideoFileClip "v.mp4" 5) 0 (5 + - (1))).
Proof. reflexivity. Qed.


End Reconcile.

(** ** Combining video and narration (src/videogeneration/combine.py) *)

Section Combine.

Import Media.
Local Open Scope Q_scope.

(** C8: [combine_two_videos] gives a clip that lasts
    [max(min(video, audio) - 1ms, 0)]: the video track and the audio track
    are both the part from time 0 to that duration of what they were, so
    the longer one is cut down and none is padded. *)
Theorem combine_two_videos_shrinks (v1 v2 aud : clip) :
  0 <= duration v1 ->
  0 <= duration v2 ->
  0 <= duration aud ->
  let vid_dur := duration v1 + duration v2 in
  let final_dur := Qmax (Qmin vid_dur (duration aud) - (1 # 1000)) 0 in
  exists seg clamped_audio t,
    combine_two_videos v1 v2 aud = Ok (SetAudio seg clamped_audio)
    /\ t == final_dur
    /\ duration (SetAudio seg clamped_audio) == final_dur
    /\ duration seg == final_dur
    /\ duration clamped_audio == final_dur
    /\ clamped_audio = Subclip aud 0 t
    /\ (0 < vid_dur -> seg = Subclip (Concat [v1; v2]) 0 t)
    /\ (vid_dur == 0 -> seg = Concat [v1; v2])
    /\ final_dur <= vid_dur
    /\ final_dur <= duration aud.
Proof.
  intros H1 H2 Ha vid_dur final_dur.
  unfold combine_two_videos.
  set (seg0 := Concat [v1; v2]).
  assert (Hvid : duration seg0 == vid_dur).
  { unfold seg0, vid_dur. cbn [duration fold_right]. lra. }
  set (t := py_max (py_min (duration seg0) (duration aud) - tol) 0).
  pose proof (py_max_Qmax (py_min (duration seg0) (duration aud) - tol) 0) as Ea.
  pose proof (py_min_Qmin (duration seg0) (duration aud)) as Eb.
  fold t in Ea.
  assert (Htol : tol == 1 # 1000) by reflexivity.
  assert (Hv0 : vid_dur == duration v1 + duration v2) by reflexivity.
  assert (Hfv : t == final_dur /\ 0 <= final_dur /\ final_dur <= vid_dur
                /\ final_dur <= duration aud
                /\ (0 < vid_dur -> final_dur < vid_dur)).
  { unfold final_dur.
    destruct (Q.max_spec (py_min (duration seg0) (duration aud) - tol) 0)
      as [[? E1] | [? E1]];
      destruct (Q.min_spec (duration seg0) (duration aud)) as [[? E2] | [? E2]];
      destruct (Q.max_spec (Qmin vid_dur (duration aud) - (1 # 1000)) 0)
        as [[? E3] | [? E3]];
      destruct (Q.min_spec vid_dur (duration aud)) as [[? E4] | [? E4]];
      repeat split; intros; lra. }
  destruct Hfv as (Ht & Hf0 & Hfv).
  destruct Hfv as (Hfv & Hfa & Hlt).
  assert (Hsub : subclip aud 0 t = Ok (Subclip aud 0 t))
    by (apply subclip_from_0; lra).
  destruct (Qltb t (duration seg0)) eqn:E.
  - apply Qltb_lt in E.
    rewrite subclip_from_0 by lra. rewrite Hsub.
    exists (Subclip seg0 0 t), (Subclip aud 0 t), t.
    cbn [duration]. repeat split; try reflexivity; intros; lra.
  - apply Qltb_ge in E.
    rewrite Hsub.
    exists seg0, (Subclip aud 0 t), t.
    cbn [duration]. fold seg0.
    assert (Hz : vid_dur == 0).
    { destruct (Qlt_le_dec 0 vid_dur) as [Hp | Hn]; [|lra].
      specialize (Hlt Hp). lra. }
    repeat split; try reflexivity; intros; lra.
Qed.

End Combine.

(** ** Subtitle spans (src/videogeneration/subtitles.py) *)

Section Subtitles.

Import Media.
Local Open Scope Q_scope.

(** One item through [_clamp_items_to_duration] and the loop of
    [burn_subtitles_from_items]. *)
Lemma clamp_item_spec (D start end_ : Q) (text : string) :
  eps <= D ->
  exists s e,
    clamp_item D (start, end_, text) = (s, e, text)
    /\ 0 <= s <= D - eps
    /\ 0 <= e <= D - eps
    /\ s == Qmax 0 (Qmin start (D - eps))
    /\ (s < Qmax 0 (Qmin end_ (D - eps)) -> e == Qmax 0 (Qmin end_ (D - eps)))
    /\ (Qmax 0 (Qmin end_ (D - eps)) <= s ->
        e == Qmin (s + (1 # 10)) (D - eps)
        /\ py_max (e - s) (1 # 10) == 1 # 10).
Proof.
  intros HD. unfold clamp_item.
  set (s := py_max 0 (py_min start (D - eps))).
  set (e0 := py_max 0 (py_min end_ (D - eps))).
  assert (Hs : 0 <= s <= D - eps /\ s == Qmax 0 (Qmin start (D - eps))).
  { unfold s.
    destruct (py_max_cases 0 (py_min start (D - eps))) as [[? ->] | [? ->]];
      destruct (py_min_cases start (D - eps)) as [[? E] | [? E]];
      rewrite ?E in *;
      destruct (Q.max_spec 0 (Qmin start (D - eps))) as [[? E1] | [? E1]];
      destruct (Q.min_spec start (D - eps)) as [[? E2] | [? E2]];
      repeat split; lra. }
  assert (He : 0 <= e0 <= D - eps /\ e0 == Qmax 0 (Qmin end_ (D - eps))).
  { unfold e0.
    destruct (py_max_cases 0 (py_min end_ (D - eps))) as [[? ->] | [? ->]];
      destruct (py_min_cases end_ (D - eps)) as [[? E] | [? E]];
      rewrite ?E in *;
      destruct (Q.max_spec 0 (Qmin end_ (D - eps))) as [[? E1] | [? E1]];
      destruct (Q.min_spec end_ (D - eps)) as [[? E2] | [? E2]];
      repeat split; lra. }
  destruct Hs as (Hs & Hs'), He as (He & He').
  destruct (Qle_bool e0 s) eqn:C.
  - apply Qle_bool_iff in C.
    exists s, (py_min (s + (1 # 10)) (D - eps)).
    split; [reflexivity|].
    destruct (py_min_cases (s + (1 # 10)) (D - eps)) as [[? E] | [? E]];
      rewrite E;
      destruct (Q.min_spec (s + (1 # 10)) (D - eps)) as [[? E2] | [? E2]];
      match goal with
      | |- context [py_max ?a ?b] =>
          destruct (py_max_cases a b) as [[? E3] | [? E3]]; rewrite E3
      end;
      repeat split; intros; lra.
  - assert (C' : s < e0).
    { apply Qnot_le_lt. intros H. apply Qle_bool_iff in H. congruence. }
    exists s, e0.
    split; [reflexivity|].
    repeat split; intros; lra.
Qed.

(** C9: for a video of at least one millisecond, every span is clamped so
    that its start and its end lie in [0, duration - 1ms]; a span whose
    clamped end is not after its clamped start gets the end
    [min(start + 0.1, duration - 1ms)], and the text shown for it starts at
    the clamped start and lasts 0.1. *)
Theorem subtitle_spans_clamped (D : Q) (items : list item) :
  eps <= D ->
  forall i start end_ text,
    nth_error items i = Some (start, end_, text) ->
    exists s e dur,
      nth_error (_clamp_items_to_duration items D) i = Some (s, e, text)
      /\ nth_error (burn_subtitles_from_items D items) i
         = Some (TextClip text s dur)
      /\ 0 <= s <= D - eps
      /\ 0 <= e <= D - eps
      /\ s == Qmax 0 (Qmin start (D - eps))
      /\ (s < Qmax 0 (Qmin end_ (D - eps)) ->
          e == Qmax 0 (Qmin end_ (D - eps)))
      /\ (Qmax 0 (Qmin end_ (D - eps)) <= s ->
          e == Qmin (s + (1 # 10)) (D - eps) /\ dur == 1 # 10)
      /\ eps == 1 # 1000.
Proof.
  intros HD i start end_ text Hi.
  destruct (clamp_item_spec D start end_ text HD)
    as (s & e & Hc & Hs & He & Hs' & Hlt & Hle).
  exists s, e, (py_max (e - s) (1 # 10)).
  unfold burn_subtitles_from_items, _clamp_items_to_duration.
  rewrite !nth_error_map, Hi. cbn [option_map]. rewrite Hc.
  repeat split; try reflexivity; try tauto.
Qed.

(** For a video shorter than one millisecond the interval is empty: the
    clamped start is 0 and the clamped end is negative. *)
Lemma clamp_item_short_video (D start end_ : Q) (text : string) :
  D < eps ->
  exists e, clamp_item D (start, end_, text) = (0, e, text) /\ e == D - eps.
Proof.
  intros HD. unfold clamp_item.
  assert (Zero : forall x, py_max 0 (py_min x (D - eps)) = 0).
  { intros x. destruct (py_max_cases 0 (py_min x (D - eps))) as [[H _] | [_ ->]];
      [|reflexivity].
    destruct (py_min_cases x (D - eps)) as [[? E] | [? E]]; rewrite E in H; lra. }
  rewrite !Zero. replace (Qle_bool 0 0) with true by reflexivity.
  eexists. split; [reflexivity|].
  destruct (py_min_cases (0 + (1 # 10)) (D - eps)) as [[? ->] | [? ->]];
    [reflexivity|].
  assert (eps == 1 # 1000) by reflexivity. lra.
Qed.

End Subtitles.

(** ** The retry controller (src/utils/common.py) *)

Section RetryFacts.

Import Common.

Variable op : nat -> result string.
Variable wait_s : Q.
Variable max_retries : Z.
Variable label : string.

Lemma attempts_app (l1 l2 : list event) :
  attempts (l1 ++ l2) = (attempts l1 + attempts l2)%nat.
Proof. unfold attempts. now rewrite filter_app, length_app. Qed.

Lemma attempts_before_call (calls : nat) (log : list event) :
  attempts (before_call wait_s calls log) = S (attempts log).
Proof.
  unfold before_call, attempts.
  destruct (Media.Qltb 0 wait_s); rewrite !filter_app, !length_app; simpl; lia.
Qed.

(** The loop read literally and the loop by recursion on the iterations
    left are the same function, and the literal one never runs out of the
    fuel [max_retries + 1 - attempt]. *)
Lemma retry_while_loop (remaining fuel : nat) (attempt : Z)
    (last_err : option string) (calls : nat) (log : list event) :
  remaining = Z.to_nat (max_retries + 1 - attempt) ->
  (remaining <= fuel)%nat ->
  retry_while op wait_s max_retries label fuel attempt last_err calls log
  = Some (retry_loop op wait_s label remaining attempt last_err calls log).
Proof.
  revert fuel attempt last_err calls log.
  induction remaining as [|r IH]; intros fuel attempt last_err calls log Hr Hf.
  - assert (E : (attempt <=? max_retries) = false) by (apply Z.leb_gt; lia).
    destruct fuel; simpl; rewrite E; reflexivity.
  - assert (E : (attempt <=? max_retries) = true) by (apply Z.leb_le; lia).
    destruct fuel as [|f]; [lia|].
    simpl. rewrite E.
    destruct (op calls); [reflexivity|].
    apply IH; lia.
Qed.

Lemma retry_loop_success (k : nat) :
  forall (remaining : nat) (attempt : Z) (last_err : option string)
         (calls : nat) (log : list event) (name : string),
    (k < remaining)%nat ->
    (forall i, (i < k)%nat -> exists e, op (calls + i) = Raise e) ->
    op (calls + k) = Ok name ->
    exists log',
      retry_loop op wait_s label remaining attempt last_err calls log
      = (Ok name, log')
      /\ attempts log' = (attempts log + S k)%nat.
Proof.
  induction k as [|k IH]; intros remaining attempt last_err calls log name Hk Hfail Hok;
    (destruct remaining as [|r]; [lia|]); cbn [retry_loop].
  - rewrite Nat.add_0_r in Hok. rewrite Hok.
    eexists. split; [reflexivity|]. rewrite attempts_before_call. lia.
  - destruct (Hfail 0%nat ltac:(lia)) as [e He].
    rewrite Nat.add_0_r in He. rewrite He.
    destruct (IH r (attempt + 1) (Some e) (S calls)
                (before_call wait_s calls log) name) as (log' & Hrun & Hatt).
    + lia.
    + intros i Hi. destruct (Hfail (S i) ltac:(lia)) as [e' He'].
      exists e'. now rewrite <- He', Nat.add_succ_r.
    + now rewrite <- Hok, Nat.add_succ_r.
    + exists log'. split; [exact Hrun|].
      rewrite Hatt, attempts_before_call. lia.
Qed.

Lemma retry_loop_exhausted (r : nat) :
  forall (attempt : Z) (last_err : option string) (calls : nat)
         (log : list event) (cause : string),
    (forall i, (i < r)%nat -> exists e, op (calls + i) = Raise e) ->
    op (calls + r) = Raise cause ->
    exists log',
      retry_loop op wait_s label (S r) attempt last_err calls log
      = (Raise (exhausted label (attempt + Z.of_nat (S r)) (Some cause)), log')
      /\ attempts log' = (attempts log + S r)%nat.
Proof.
  induction r as [|r IH]; intros attempt last_err calls log cause Hfail Hlast.
  - rewrite Nat.add_0_r in Hlast. cbn [retry_loop]. rewrite Hlast.
    eexists. split; [reflexivity|]. rewrite attempts_before_call. lia.
  - destruct (Hfail 0%nat ltac:(lia)) as [e He].
    rewrite Nat.add_0_r in He.
    destruct (IH (attempt + 1) (Some e) (S calls)
                (before_call wait_s calls log) cause) as (log' & Hrun & Hatt).
    + intros i Hi. destruct (Hfail (S i) ltac:(lia)) as [e' He'].
      exists e'. now rewrite <- He', Nat.add_succ_r.
    + now rewrite <- Hlast, Nat.add_succ_r.
    + exists log'. split.
      * change (retry_loop op wait_s label (S (S r)) attempt last_err calls log)
          with (match op calls with
                | Ok name => (Ok name, before_call wait_s calls log)
                | Raise e0 =>
                    retry_loop op wait_s label (S r) (attempt + 1) (Some e0)
                      (S calls) (before_call wait_s calls log)
                end).
        rewrite He, Hrun.
        replace (attempt + 1 + Z.of_nat (S r)) with (attempt + Z.of_nat (S (S r)))
          by lia.
        reflexivity.
      * rewrite Hatt, attempts_before_call. lia.
Qed.

(** The function is the literal loop run with the fuel
    [max_retries + 1]. *)
Lemma generate_video_with_retries_while :
  retry_while op wait_s max_retries label (Z.to_nat (max_retries + 1)) 0 None
    0%nat []
  = Some (generate_video_with_retries op wait_s max_retries label).
Proof.
  unfold generate_video_with_retries.
  apply retry_while_loop; [f_equal; lia | lia].
Qed.

(** With a negative budget the operation is never called. *)
Lemma generate_video_with_retries_negative :
  max_retries < 0 ->
  generate_video_with_retries op wait_s max_retries label
  = (Raise (label ++ " generation failed after 0 attempts: None"), []).
Proof.
  intros H. unfold generate_video_with_retries.
  replace (Z.to_nat (max_retries + 1)) with 0%nat by lia. reflexivity.
Qed.

End RetryFacts.

(** C2: with a retry budget that is not negative, an operation that fails
    on its first [k] calls and succeeds on the next, [k <= max_retries], is
    called exactly [k + 1] times and its result is returned; an operation
    that fails on every call is called exactly [max_retries + 1] times, and
    the error raised then names that number of attempts and the cause of
    the last failure.  In particular: three failures then a success with
    [max_retries = 5] succeed on the fourth attempt, and constant failure
    with [max_retries = 2] fails after three attempts. *)
Theorem retry_controller_attempts
    (op : nat -> result string) (wait_s : Q) (label : string) :
  (forall max_retries : Z,
     0 <= max_retries ->
     (forall (k : nat) (name : string),
        Z.of_nat k <= max_retries ->
        (forall i, (i < k)%nat -> exists e, op i = Raise e) ->
        op k = Ok name ->
        exists log,
          Common.generate_video_with_retries op wait_s max_retries label
          = (Ok name, log)
          /\ Common.attempts log = S k)
     /\ (forall cause : string,
           (forall i, (Z.of_nat i < max_retries) -> exists e, op i = Raise e) ->
           op (Z.to_nat max_retries) = Raise cause ->
           exists log,
             Common.generate_video_with_retries op wait_s max_retries label
             = (Raise (label ++ " generation failed after "
                       ++ str_int (max_retries + 1) ++ " attempts: " ++ cause),
                log)
             /\ Common.attempts log = Z.to_nat (max_retries + 1)))
  /\ (forall name : string,
        (forall i, (i < 3)%nat -> exists e, op i = Raise e) ->
        op 3%nat = Ok name ->
        exists log,
          Common.generate_video_with_retries op wait_s 5 label = (Ok name, log)
          /\ Common.attempts log = 4%nat)
  /\ ((forall i, exists e, op i = Raise e) ->
      exists log cause,
        op 2%nat = Raise cause
        /\ Common.generate_video_with_retries op wait_s 2 label
           = (Raise (label ++ " generation failed after 3 attempts: " ++ cause),
              log)
        /\ Common.attempts log = 3%nat).
Proof.
  assert (General : forall max_retries : Z,
     0 <= max_retries ->
     (forall (k : nat) (name : string),
        Z.of_nat k <= max_retries ->
        (forall i, (i < k)%nat -> exists e, op i = Raise e) ->
        op k = Ok name ->
        exists log,
          Common.generate_video_with_retries op wait_s max_retries label
          = (Ok name, log)
          /\ Common.attempts log = S k)
     /\ (forall cause : string,
           (forall i, (Z.of_nat i < max_retries) -> exists e, op i = Raise e) ->
           op (Z.to_nat max_retries) = Raise cause ->
           exists log,
             Common.generate_video_with_retries op wait_s max_retries label
             = (Raise (label ++ " generation failed after "
                       ++ str_int (max_retries + 1) ++ " attempts: " ++ cause),
                log)
             /\ Common.attempts log = Z.to_nat (max_retries + 1))).
  { intros max_retries Hmax. unfold Common.generate_video_with_retries. split.
    - intros k name Hk Hfail Hok.
      destruct (retry_loop_success op wait_s label k
                  (Z.to_nat (max_retries + 1)) 0 None 0%nat [] name)
        as (log & Hrun & Hatt); [lia | exact Hfail | exact Hok |].
      exists log. split; [exact Hrun|]. rewrite Hatt. reflexivity.
    - intros cause Hfail Hlast.
      replace (Z.to_nat (max_retries + 1)) with (S (Z.to_nat max_retries)) by lia.
      destruct (retry_loop_exhausted op wait_s label (Z.to_nat max_retries)
                  0 None 0%nat [] cause)
        as (log & Hrun & Hatt); [| exact Hlast |].
      + intros i Hi. apply Hfail. lia.
      + exists log. split; [|rewrite Hatt; reflexivity].
        rewrite Hrun. unfold Common.exhausted, Common.str_exc.
        replace (0 + Z.of_nat (S (Z.to_nat max_retries))) with (max_retries + 1)
          by lia.
        reflexivity. }
  split; [exact General|]. split.
  - intros name Hfail Hok.
    destruct (General 5 ltac:(lia)) as [Hs _].
    apply (Hs 3%nat name); [lia | exact Hfail | exact Hok].
  - intros Hfail.
    destruct (General 2 ltac:(lia)) as [_ He].
    destruct (Hfail 2%nat) as [cause Hc].
    destruct (He cause) as (log & Hrun & Hatt); [intros; apply Hfail | exact Hc |].
    exists log, cause. split; [exact Hc|]. split; [exact Hrun | exact Hatt].
Qed.

(** ** Dictionaries *)

Section DictFacts.

Lemma dget_dset_eq (k : string) (v : json) (d : dict) :
  dget k (dset k v d) = Some v.
Proof.
  induction d as [|[k' v'] r IH]; simpl.
  - now rewrite String.eqb_refl.
  - destruct (String.eqb k k') eqn:E; simpl; rewrite E; [reflexivity | exact IH].
Qed.

Lemma dget_dset_ne (k k' : string) (v : json) (d : dict) :
  k' <> k -> dget k' (dset k v d) = dget k' d.
Proof.
  intros Hne. induction d as [|[k0 v0] r IH]; simpl.
  - apply String.eqb_neq in Hne. now rewrite Hne.
  - destruct (String.eqb k k0) eqn:E; simpl.
    + apply String.eqb_eq in E. subst k0.
      apply String.eqb_neq in Hne. now rewrite Hne.
    + destruct (String.eqb k' k0); [reflexivity | exact IH].
Qed.

Lemma dmem_In (k : string) (d : dict) : dmem k d = true -> In k (dkeys d).
Proof.
  unfold dmem. induction d as [|[k' v'] r IH]; simpl; [discriminate|].
  destruct (String.eqb k k') eqn:E.
  - apply String.eqb_eq in E. now left.
  - intros H. right. now apply IH.
Qed.

Lemma dmem_dget (k : string) (d : dict) :
  dmem k d = true -> exists v, dget k d = Some v.
Proof. unfold dmem. destruct (dget k d); [eauto | discriminate]. Qed.

(** [d.update(u)] leaves the keys that [u] does not have. *)
Lemma dget_dupdate_other (k : string) (u d : dict) :
  ~ In k (dkeys u) -> dget k (dupdate d u) = dget k d.
Proof.
  unfold dupdate. revert d.
  induction u as [|[k' v'] u IH]; intros d Hk; simpl; [reflexivity|].
  simpl in Hk. rewrite IH by tauto.
  apply dget_dset_ne. intros ->. tauto.
Qed.

End DictFacts.

(** ** The prompt cache (src/scripts/llm.py) *)

Section PromptCache.

Import Llm.

(** The prompts cached in ALL_PROMPTS.json for a segment of a script, and
    everything cached for a script. *)
Definition script_entry (f : file) (script_key : string) : option json :=
  match f with
  | Holds (JObj all) => dget script_key all
  | _ => None
  end.

Definition cached_entry (f : file) (script_key segment_key : string)
  : option json :=
  match script_entry f script_key with
  | Some (JObj for_script) => dget segment_key for_script
  | _ => None
  end.

(** [after] has, for every pair other than [(script_key, segment_key)],
    the entry that [before] has. *)
Definition same_elsewhere (script_key segment_key : string)
    (before after : file) : Prop :=
  (forall sk, sk <> script_key -> script_entry after sk = script_entry before sk)
  /\ (forall sk sg, sk <> script_key \/ sg <> segment_key ->
        cached_entry after sk sg = cached_entry before sk sg).


Lemma merge_save_spec (script_key segment_key : string) (data : json)
    (disk disk' : file) :
  merge_save script_key segment_key data disk = Ok disk' ->
  cached_entry disk' script_key segment_key = Some data
  /\ same_elsewhere script_key segment_key disk disk'.
Proof.
  unfold merge_save.
  assert (Core : forall all : dict,
    (latest_all <- py_setdefault (JObj all) script_key (JObj []) ;;
     inner <- py_getitem latest_all script_key ;;
     inner <- py_setitem inner segment_key data ;;
     latest_all <- py_setitem latest_all script_key inner ;;
     Ok (Holds latest_all)) = Ok disk' ->
    cached_entry disk' script_key segment_key = Some data
    /\ same_elsewhere script_key segment_key (Holds (JObj all)) disk').
  { intros all. cbn [py_setdefault bind].
    set (all1 := if dmem script_key all then _ else _).
    assert (H1 : forall sk, sk <> script_key -> dget sk all1 = dget sk all).
    { intros sk Hsk. unfold all1. destruct (dmem script_key all); [reflexivity|].
      now apply dget_dset_ne. }
    assert (H2 : dget script_key all1
                 = match dget script_key all with
                   | Some v => Some v
                   | None => Some (JObj [])
                   end).
    { unfold all1, dmem. destruct (dget script_key all) eqn:E; [exact E|].
      apply dget_dset_eq. }
    cbn [py_getitem]. rewrite H2.
    destruct (dget script_key all) as [inner|] eqn:E; cbn [bind].
    - destruct inner as [| | | | |inner]; try discriminate.
      cbn [py_setitem bind]. intros [= <-].
      unfold same_elsewhere, cached_entry, script_entry.
      rewrite dget_dset_eq. split; [apply dget_dset_eq|].
      split.
      + intros sk Hsk. rewrite dget_dset_ne by exact Hsk. now apply H1.
      + intros sk sg Hne.
        destruct (String.eqb_spec sk script_key) as [-> | Hsk].
        * rewrite dget_dset_eq, E. apply dget_dset_ne.
          destruct Hne; [contradiction | assumption].
        * rewrite dget_dset_ne by exact Hsk. now rewrite H1.
    - cbn [py_setitem bind dset]. intros [= <-].
      unfold same_elsewhere, cached_entry, script_entry.
      rewrite dget_dset_eq. split; [apply (dget_dset_eq segment_key data [])|].
      split.
      + intros sk Hsk. rewrite dget_dset_ne by exact Hsk. now apply H1.
      + intros sk sg Hne.
        destruct (String.eqb_spec sk script_key) as [-> | Hsk].
        * rewrite dget_dset_eq, E. cbn [dget].
          destruct Hne as [Hne | Hne]; [contradiction|].
          apply String.eqb_neq in Hne. now rewrite Hne.
        * rewrite dget_dset_ne by exact Hsk. now rewrite H1. }
  destruct disk as [| |j]; cbn [load_or_empty].
  - intros H. destruct (Core [] H) as [Ha [Hb Hc]].
    split; [exact Ha|]. split.
    + intros sk Hsk. rewrite (Hb sk Hsk). reflexivity.
    + intros sk sg Hne. rewrite (Hc sk sg Hne). reflexivity.
  - intros H. destruct (Core [] H) as [Ha [Hb Hc]].
    split; [exact Ha|]. split.
    + intros sk Hsk. rewrite (Hb sk Hsk). reflexivity.
    + intros sk sg Hne. rewrite (Hc sk sg Hne). reflexivity.
  - destruct j as [| | | | |all]; try discriminate.
    apply Core.
Qed.

End PromptCache.

Section GeneratePrompts.

Import Llm.

Variable llm : payload -> reply.
Variable other_writers : string -> file -> file.
Variable script_key : string.

Lemma texts_from_keys (items : dict) :
  forall i texts, texts_from i items = Ok texts -> map fst texts = map fst items.
Proof.
  induction items as [|[k v] r IH]; intros i texts; simpl.
  - now intros [= <-].
  - destruct v; try discriminate.
    destruct (texts_from (i + 1) r) as [rest|] eqn:E; simpl; [|discriminate].
    intros [= <-]. simpl. f_equal. now apply (IH (i + 1)).
Qed.

Lemma find_key_some (seg : string) (texts : list (string * string)) :
  In seg (map fst texts) ->
  exists text, find (fun kv => String.eqb (fst kv) seg) texts = Some (seg, text).
Proof.
  induction texts as [|[k t] r IH]; simpl; [tauto|].
  intros H. destruct (String.eqb_spec k seg) as [-> | Hne]; [eauto|].
  destruct H as [H | H]; [contradiction | now apply IH].
Qed.

(** With [segment] given, exactly that segment is processed. *)
Lemma prepare_single (scripts : json) (seg : string) (disk : file)
    (ordered segs : list (string * string)) (existing : json) :
  prepare script_key scripts (Some seg) disk = Ok (ordered, segs, existing) ->
  exists text, segs = [(seg, text)].
Proof.
  unfold prepare.
  destruct (py_in script_key scripts) as [present|]; [|discriminate].
  cbn [bind]. destruct present; cbn [negb]; [|discriminate].
  destruct (py_getitem scripts script_key) as [script_obj|]; [|discriminate].
  cbn [bind]. destruct script_obj as [| | | | |script_obj]; try discriminate.
  destruct (dmem seg script_obj) eqn:Hmem; [|discriminate].
  cbn [bind].
  destruct (py_get (load_or_empty disk) script_key (JObj [])); [|discriminate].
  cbn [bind].
  destruct (texts_from 0 (ordered_segments script_obj)) as [texts|] eqn:Ht;
    [|discriminate].
  cbn [bind]. intros [= <- <- <-].
  destruct (find_key_some seg texts) as [text ->]; [|eauto].
  rewrite (texts_from_keys _ _ _ Ht).
  apply dmem_In in Hmem.
  apply (Permutation_in seg (Permutation_map fst
           (Permutation_sym (sorted_perm (fun kv => seg_index (fst kv)) script_obj)))).
  exact Hmem.
Qed.



End GeneratePrompts.

(** ** The run of a session (src/api/server.py, [run_pipeline]) *)

Section RunFacts.

Import Server Media.

Lemma snapshots_app (l1 l2 : list event) :
  snapshots (l1 ++ l2) = (snapshots l1 ++ snapshots l2)%list.
Proof.
  induction l1 as [|e l1 IH]; simpl; [reflexivity|].
  destruct e; simpl; now rewrite ?IH.
Qed.

Lemma mbind_inv {A B : Type} (m : M A) (k : A -> M B) (st st' : state)
    (r : result B) :
  mbind m k st = (r, st') ->
  (exists a st1, m st = (Ok a, st1) /\ k a st1 = (r, st'))
  \/ (exists e, m st = (Raise e, st') /\ r = Raise e).
Proof.
  unfold mbind. destruct (m st) as [[a|e] st1].
  - intros H. left. eauto.
  - intros [= <- <-]. right. eauto.
Qed.

(** A computation is quiet when it neither changes the status nor writes
    it. *)
Definition quiet {A : Type} (m : M A) : Prop :=
  forall st r st',
    m st = (r, st') ->
    status st' = status st /\ snapshots (log st') = snapshots (log st).

Lemma quiet_ret {A : Type} (a : A) : quiet (ret a).
Proof. intros st r st' [= <- <-]. split; reflexivity. Qed.

Lemma quiet_lift {A : Type} (x : result A) : quiet (lift x).
Proof. intros st r st' [= <- <-]. split; reflexivity. Qed.

Lemma quiet_bind {A B : Type} (m : M A) (k : A -> M B) :
  quiet m -> (forall a, quiet (k a)) -> quiet (mbind m k).
Proof.
  intros Hm Hk st r st' H.
  destruct (mbind_inv _ _ _ _ _ H) as [(a & st1 & H1 & H2) | (e & H1 & _)].
  - destruct (Hm _ _ _ H1) as [E1 E2], (Hk a _ _ _ H2) as [E3 E4].
    split; congruence.
  - exact (Hm _ _ _ H1).
Qed.

Lemma quiet_emit (e : event) : snapshots [e] = [] -> quiet (emit e).
Proof.
  intros He st r st' [= <- <-]. cbn [status log].
  split; [reflexivity|]. rewrite snapshots_app, He. apply app_nil_r.
Qed.

Lemma quiet_call {A : Type} (e : event) (x : result A) :
  snapshots [e] = [] -> quiet (call e x).
Proof.
  intros He. apply quiet_bind; [now apply quiet_emit | intros; apply quiet_lift].
Qed.

Variable w : world.
Variable scripts : json.
Variable script_key : string.
Variable selected_script : dict.
Variable session_dir : string.
Variable voice : string.
Variable mode : string.
Variable total : Z.

Lemma quiet_prompts_stage (seg_key : string) :
  quiet (prompts_stage w scripts script_key seg_key).
Proof.
  intros st r st'. unfold prompts_stage.
  destruct (image_prompts_for _ _ _ _ _) as [image_prompts disk].
  intros [= <- <-]. split; reflexivity.
Qed.

Lemma quiet_image_stage (prompt : json) (img_path : string) :
  quiet (image_stage w mode prompt img_path).
Proof.
  unfold image_stage. destruct (String.eqb mode "videos");
    now apply quiet_call.
Qed.

Lemma quiet_video_stage (seg_dir image_path : string) (prompt : json)
    (half : Q) (label : string) :
  quiet (video_stage w seg_dir image_path prompt half label).
Proof.
  unfold video_stage.
  destruct (Common.generate_video_with_retries _ _ _ _) as [r calls].
  apply quiet_bind; [now apply quiet_call|]. intros vid_name.
  apply quiet_bind; [apply quiet_lift|]. intros final_clip.
  apply quiet_bind; [now apply quiet_emit | intros; apply quiet_ret].
Qed.

Lemma quiet_segment_stages (seg_key seg_text : string) :
  quiet (segment_stages w scripts script_key session_dir voice mode
           seg_key seg_text).
Proof.
  unfold segment_stages.
  apply quiet_bind; [now apply quiet_call|]. intros _.
  apply quiet_bind; [apply quiet_prompts_stage|]. intros image_prompts.
  apply quiet_bind; [apply quiet_lift|]. intros prompt1.
  apply quiet_bind; [apply quiet_lift|]. intros prompt2.
  apply quiet_bind; [apply quiet_image_stage|]. intros _.
  apply quiet_bind; [apply quiet_image_stage|]. intros _.
  apply quiet_bind.
  - destruct (String.eqb mode "videos"); [|apply quiet_lift].
    apply quiet_bind; [apply quiet_video_stage|]. intros vid1.
    apply quiet_bind; [apply quiet_video_stage|]. intros vid2.
    apply quiet_lift.
  - intros seg.
    apply quiet_bind; [now apply quiet_emit | intros; apply quiet_ret].
Qed.

Lemma emit_inv (e : event) (st st' : state) (r : result unit) :
  emit e st = (r, st') ->
  r = Ok tt
  /\ st' = State (status st) (prompts_file st) (log st ++ [e])%list.
Proof. intros [= <- <-]. split; reflexivity. Qed.

Lemma update_status_inv (u : dict) (st st' : state) (r : result unit) :
  update_status u st = (r, st') ->
  r = Ok tt
  /\ st' = State (dupdate (status st) u) (prompts_file st) (log st).
Proof. intros [= <- <-]. split; reflexivity. Qed.

Lemma write_status_inv (st st' : state) (r : result unit) :
  write_status st = (r, st') ->
  r = Ok tt
  /\ st' = State (status st) (prompts_file st)
             (log st ++ [WriteStatus (status st)])%list.
Proof. intros [= <- <-]. split; reflexivity. Qed.

Lemma call_inv {A : Type} (e : event) (x : result A) (st st' : state)
    (r : result A) :
  call e x st = (r, st') ->
  r = x /\ st' = State (status st) (prompts_file st) (log st ++ [e])%list.
Proof. intros [= <- <-]. split; reflexivity. Qed.

(** [status.update(u); _write_status(...)], then [k]. *)
Lemma update_write_inv {B : Type} (u : dict) (k : M B) (st st' : state)
    (r : result B) :
  (_ <~ update_status u ;; _ <~ write_status ;; k) st = (r, st') ->
  k (State (dupdate (status st) u) (prompts_file st)
       (log st ++ [WriteStatus (dupdate (status st) u)])%list) = (r, st').
Proof.
  intros H.
  apply mbind_inv in H as [(u1 & st1 & H1 & H) | (e & H1 & _)].
  2:{ apply update_status_inv in H1 as [[=] _]. }
  apply update_status_inv in H1 as [_ ->].
  apply mbind_inv in H as [(u2 & st2 & H2 & H) | (e & H2 & _)].
  2:{ apply write_status_inv in H2 as [[=] _]. }
  apply write_status_inv in H2 as [_ ->]. exact H.
Qed.

(** The two snapshots of a segment. *)
Definition started (seg_key : string) (i : Z) (d : dict) : dict :=
  dupdate d [("current_segment", JStr seg_key);
             ("progress", progress total (i - 1))].

Definition finished (i : Z) (d : dict) : dict :=
  dupdate d [("progress", progress total i)].

(** What a pass through the loop writes: nothing if it raises before the
    first update, the snapshot [started] if it raises in a stage, and
    [started] then [finished] if it returns. *)
Lemma process_segment_snapshots (i : Z) (seg_key : string) (st st' : state)
    (r : result (string * clip)) :
  process_segment w scripts script_key selected_script session_dir voice mode
    total i seg_key st = (r, st') ->
  let s1 := started seg_key i (status st) in
  let s2 := finished i s1 in
  (exists e, r = Raise e /\ status st' = status st
             /\ snapshots (log st') = snapshots (log st))
  \/ (exists e, r = Raise e /\ status st' = s1
                /\ snapshots (log st') = (snapshots (log st) ++ [s1])%list)
  \/ (exists out, r = Ok out /\ status st' = s2
                  /\ snapshots (log st') = (snapshots (log st) ++ [s1; s2])%list).
Proof.
  intros H s1 s2. unfold process_segment in H.
  apply mbind_inv in H as [(j & st1 & H1 & H) | (e & H1 & ->)].
  2:{ left. exists e. destruct (quiet_lift _ _ _ _ H1). auto. }
  injection H1 as _ <-.
  apply mbind_inv in H as [(text & st2 & H2 & H) | (e & H2 & ->)].
  2:{ left. exists e. destruct (quiet_lift _ _ _ _ H2). auto. }
  injection H2 as _ <-.
  apply mbind_inv in H as [(u3 & st3 & H3 & H) | (e & H3 & _)].
  2:{ apply emit_inv in H3 as [[=] _]. }
  apply emit_inv in H3 as [_ ->].
  apply update_write_inv in H. cbn [status log prompts_file] in H.
  fold (started seg_key i (status st)) in H. fold s1 in H.
  apply mbind_inv in H as [(out & st6 & H6 & H) | (e & H6 & ->)].
  - destruct (quiet_segment_stages _ _ _ _ _ H6) as [Ea6 Eb6].
    cbn [status log] in Ea6, Eb6.
    rewrite !snapshots_app in Eb6. cbn [snapshots] in Eb6.
    rewrite app_nil_r in Eb6.
    apply update_write_inv in H. injection H as <- <-.
    right. right. exists out. cbn [status log].
    rewrite snapshots_app, Eb6, Ea6. cbn [snapshots].
    fold (finished i s1). fold s2.
    split; [reflexivity|]. split; [reflexivity|].
    now rewrite <- app_assoc.
  - destruct (quiet_segment_stages _ _ _ _ _ H6) as [Ea6 Eb6].
    cbn [status log] in Ea6, Eb6.
    rewrite !snapshots_app in Eb6. cbn [snapshots] in Eb6.
    rewrite app_nil_r in Eb6.
    right. left. exists e. auto.
Qed.

End RunFacts.

(** ** Progress over the snapshots of a run *)

Section Progress.

Import Server Media.

(** The snapshots of [l] count completed segments from at least [lo], never
    backwards, up to at most [hi]. *)
Fixpoint ascending (lo hi : Z) (l : list dict) : Prop :=
  match l with
  | [] => lo <= hi
  | d :: r => exists c, completed_of d = Some c /\ lo <= c /\ ascending c hi r
  end.

Lemma ascending_bounds (l : list dict) :
  forall lo hi, ascending lo hi l -> lo <= hi.
Proof.
  induction l as [|d r IH]; intros lo hi; simpl; [auto|].
  intros (c & _ & Hc & Hr). specialize (IH _ _ Hr). lia.
Qed.

Lemma ascending_weaken (l : list dict) :
  forall lo lo' hi hi',
    lo' <= lo -> hi <= hi' -> ascending lo hi l -> ascending lo' hi' l.
Proof.
  induction l as [|d r IH]; intros lo lo' hi hi' Hlo Hhi; simpl; [lia|].
  intros (c & Hd & Hc & Hr). exists c. split; [exact Hd|]. split; [lia|].
  apply (IH c c hi hi'); [lia | exact Hhi | exact Hr].
Qed.

Lemma ascending_app (l1 l2 : list dict) :
  forall lo mid hi,
    ascending lo mid l1 -> ascending mid hi l2 -> ascending lo hi (l1 ++ l2).
Proof.
  induction l1 as [|d r IH]; intros lo mid hi; simpl.
  - intros Hlo H2. apply (ascending_weaken l2 mid lo hi hi); [exact Hlo | lia | exact H2].
  - intros (c & Hd & Hc & Hr) H2. exists c. split; [exact Hd|]. split; [exact Hc|].
    now apply (IH c mid hi).
Qed.

(** In the words of the claim: every snapshot has a [completed] count, and
    the counts never decrease. *)
Lemma ascending_sorted (l : list dict) :
  forall lo hi,
    ascending lo hi l ->
    exists cs, map completed_of l = map Some cs
               /\ StronglySorted Z.le cs
               /\ Forall (fun c => lo <= c <= hi) cs.
Proof.
  induction l as [|d r IH]; intros lo hi; simpl.
  - intros _. exists []. repeat split; constructor.
  - intros (c & Hd & Hc & Hr).
    destruct (IH c hi Hr) as (cs & Hmap & Hsorted & Hall).
    pose proof (ascending_bounds r c hi Hr) as Hchi.
    exists (c :: cs). simpl. rewrite Hd, Hmap.
    split; [reflexivity|]. split.
    + constructor; [exact Hsorted|].
      eapply Forall_impl; [|exact Hall]. simpl. intros; lia.
    + constructor; [lia|].
      eapply Forall_impl; [|exact Hall]. simpl. intros; lia.
Qed.

Lemma progress_field_set (field : string) (t c : Z) (d : dict) :
  progress_field field (dset "progress" (progress t c) d)
  = progress_field field [("progress", progress t c)].
Proof. unfold progress_field. rewrite dget_dset_eq. reflexivity. Qed.

Lemma progress_field_other (field k : string) (v : json) (d : dict) :
  k <> "progress" ->
  progress_field field (dset k v d) = progress_field field d.
Proof.
  intros Hk. unfold progress_field. rewrite dget_dset_ne; [reflexivity|].
  congruence.
Qed.

Lemma state_of_other (k : string) (v : json) (d : dict) :
  k <> "state" -> state_of (dset k v d) = state_of d.
Proof.
  intros Hk. unfold state_of. rewrite dget_dset_ne; [reflexivity|].
  congruence.
Qed.

Variable total : Z.

(** A snapshot taken while the segments are processed. *)
Definition while_running (d : dict) : Prop :=
  state_of d = Some "running" /\ total_of d = Some total.

Lemma started_facts (seg_key : string) (i : Z) (d : dict) :
  state_of d = Some "running" ->
  while_running (started total seg_key i d)
  /\ completed_of (started total seg_key i d) = Some (i - 1).
Proof.
  intros Hs. unfold started, while_running, completed_of, total_of.
  cbn [dupdate fold_left fst snd].
  rewrite !progress_field_set, !state_of_other by discriminate.
  repeat split; try reflexivity; exact Hs.
Qed.

Lemma finished_facts (i : Z) (d : dict) :
  state_of d = Some "running" ->
  while_running (finished total i d)
  /\ completed_of (finished total i d) = Some i.
Proof.
  intros Hs. unfold finished, while_running, completed_of, total_of.
  cbn [dupdate fold_left fst snd].
  rewrite !progress_field_set, !state_of_other by discriminate.
  repeat split; try reflexivity; exact Hs.
Qed.

Variable w : world.
Variable scripts : json.
Variable script_key : string.
Variable selected_script : dict.
Variable session_dir : string.
Variable voice : string.
Variable mode : string.

(** The loop from index [i], entered with [i - 1] segments counted: its
    snapshots are all taken in state [running], count from [i - 1]
    upwards, and end at the count of the status it leaves, which is that
    of all the segments when the loop returns. *)
Lemma segments_loop_progress (seg_keys : list string) :
  forall (i : Z) (acc : list (string * clip)) (st st' : state)
         (r : result (list (string * clip))),
    segments_loop w scripts script_key selected_script session_dir voice mode
      total i seg_keys acc st = (r, st') ->
    while_running (status st) ->
    completed_of (status st) = Some (i - 1) ->
    exists new c,
      snapshots (log st') = (snapshots (log st) ++ new)%list
      /\ Forall while_running new
      /\ ascending (i - 1) c new
      /\ while_running (status st')
      /\ completed_of (status st') = Some c
      /\ c <= i - 1 + Z.of_nat (List.length seg_keys)
      /\ (forall outs, r = Ok outs ->
            c = i - 1 + Z.of_nat (List.length seg_keys)).
Proof.
  induction seg_keys as [|seg_key keys IH]; intros i acc st st' r H Hrun Hc.
  - injection H as <- <-. exists [], (i - 1).
    rewrite app_nil_r. cbn [List.length ascending].
    repeat split; try assumption; try constructor; try lia; apply Hrun.
  - cbn [segments_loop] in H.
    apply mbind_inv in H as [(out & st1 & H1 & H) | (e & H1 & ->)].
    + destruct (process_segment_snapshots _ _ _ _ _ _ _ _ _ _ _ _ _ H1)
        as [(e & [=] & _) | [(e & [=] & _) | (out' & _ & Est & Elog)]].
      destruct Hrun as [Hstate Htotal].
      destruct (started_facts seg_key i _ Hstate) as [Hr1 Hc1].
      destruct (finished_facts i _ (proj1 Hr1)) as [Hr2 Hc2].
      destruct (IH (i + 1) _ _ _ _ H) as (new & c & El & Hall & Hasc & Hr' & Hc' & Hle & Hok).
      * now rewrite Est.
      * rewrite Est, Hc2. f_equal. lia.
      * exists (started total seg_key i (status st)
                :: finished total i (started total seg_key i (status st)) :: new), c.
        rewrite El, Elog, <- app_assoc. cbn [app List.length].
        split; [reflexivity|].
        split; [constructor; [exact Hr1 | constructor; [exact Hr2 | exact Hall]]|].
        split.
        { cbn [ascending]. exists (i - 1). split; [exact Hc1|]. split; [lia|].
          exists i. split; [exact Hc2|]. split; [lia|].
          replace (i + 1 - 1) with i in Hasc by lia. exact Hasc. }
        split; [exact Hr'|]. split; [exact Hc'|].
        split; [lia|]. intros outs Ho. specialize (Hok outs Ho). lia.
    + destruct (process_segment_snapshots _ _ _ _ _ _ _ _ _ _ _ _ _ H1)
        as [(e' & _ & Est & Elog) | [(e' & _ & Est & Elog) | (out' & [=] & _)]].
      * exists [], (i - 1). rewrite app_nil_r, Est. cbn [ascending List.length].
        repeat split; try assumption; try constructor; try lia;
          try apply Hrun; discriminate.
      * destruct Hrun as [Hstate Htotal].
        destruct (started_facts seg_key i _ Hstate) as [Hr1 Hc1].
        exists [started total seg_key i (status st)], (i - 1).
        rewrite Est. cbn [ascending List.length].
        split; [exact Elog|].
        split; [constructor; [exact Hr1 | constructor]|].
        split; [exists (i - 1); repeat split; [exact Hc1 | lia | lia]|].
        split; [exact Hr1|]. split; [exact Hc1|].
        split; [lia | discriminate].
Qed.

End Progress.

Section RunProgress.

Import Server Media.

Variable w : world.
Variable scripts : json.
Variable script_key : string.
Variable selected_script : dict.
Variable session_dir : string.
Variable voice : string.
Variable mode : string.

(** What every snapshot of a run satisfies: it has the total of the run,
    and if it says [completed] then it counts all the segments. *)
Definition snapshot_ok (total : Z) (d : dict) : Prop :=
  total_of d = Some total
  /\ (state_of d = Some "completed" -> completed_of d = Some total).

Lemma while_running_ok (total : Z) (d : dict) :
  while_running total d -> snapshot_ok total d.
Proof.
  intros [Hs Ht]. split; [exact Ht|]. rewrite Hs. discriminate.
Qed.

Lemma try_body_progress (seg_keys : list string) (st st' : state)
    (r : result unit) :
  let total := Z.of_nat (List.length seg_keys) in
  try_body w scripts script_key selected_script session_dir voice mode total
    seg_keys st = (r, st') ->
  while_running total (status st) ->
  completed_of (status st) = Some 0 ->
  exists new c,
    snapshots (log st') = (snapshots (log st) ++ new)%list
    /\ Forall (snapshot_ok total) new
    /\ ascending 0 c new
    /\ total_of (status st') = Some total
    /\ completed_of (status st') = Some c
    /\ (forall e, r = Raise e ->
          state_of (status st') = Some "running"
          /\ Forall (while_running total) new)
    /\ (r = Ok tt ->
        exists d, In d new /\ state_of d = Some "completed"
                  /\ completed_of d = Some total).
Proof.
  intros total H Hrun Hc. unfold try_body in H.
  apply mbind_inv in H as [(outs & st1 & H1 & H) | (e & H1 & ->)].
  - destruct (segments_loop_progress total w scripts script_key selected_script
                session_dir voice mode seg_keys 1 [] st st1 (Ok outs) H1 Hrun)
      as (new & c & El & Hall & Hasc & [Hst Htot] & Hc' & Hle & Hok);
      [exact Hc|].
    specialize (Hok outs eq_refl).
    assert (Ec : c = total) by (unfold total; lia).
    clear Hok Hle. subst c.
    assert (Hnew : Forall (snapshot_ok total) new).
    { eapply Forall_impl; [|exact Hall]. apply while_running_ok. }
    assert (Fail : forall (e : string) (l : list event),
              snapshots l = [] ->
              exists new0 c0,
                snapshots (log st1 ++ l) = (snapshots (log st) ++ new0)%list
                /\ Forall (snapshot_ok total) new0
                /\ ascending 0 c0 new0
                /\ total_of (status st1) = Some total
                /\ completed_of (status st1) = Some c0
                /\ (forall e0, Raise (A := unit) e = Raise e0 ->
                      state_of (status st1) = Some "running"
                      /\ Forall (while_running total) new0)
                /\ (Raise (A := unit) e = Ok tt ->
                    exists d, In d new0 /\ state_of d = Some "completed"
                              /\ completed_of d = Some total)).
    { intros e l Hl. exists new, total.
      rewrite snapshots_app, Hl, app_nil_r, El.
      repeat split; try assumption; try discriminate. }
    apply mbind_inv in H as [(final & st2 & H2 & H) | (e & H2 & ->)].
    2:{ injection H2 as _ <-.
        destruct (Fail e [] eq_refl) as (n0 & c0 & F).
        rewrite app_nil_r in F. eauto. }
    injection H2 as _ <-.
    apply mbind_inv in H as [(u3 & st3 & H3 & H) | (e & H3 & _)].
    2:{ apply emit_inv in H3 as [[=] _]. }
    apply emit_inv in H3 as [_ ->].
    apply mbind_inv in H as [(items & st4 & H4 & H) | (e & H4 & ->)].
    2:{ apply call_inv in H4 as [_ ->]. cbn [status log prompts_file].
        rewrite <- app_assoc. now apply Fail. }
    apply call_inv in H4 as [_ ->].
    apply mbind_inv in H as [(u5 & st5 & H5 & H) | (e & H5 & _)].
    2:{ apply emit_inv in H5 as [[=] _]. }
    apply emit_inv in H5 as [_ ->].
    apply update_write_inv in H. injection H as <- <-.
    cbn [status log prompts_file].
    set (done := dset "artifacts" _ _).
    assert (Hdone : state_of done = Some "completed"
                    /\ total_of done = Some total
                    /\ completed_of done = Some total).
    { unfold done, completed_of, total_of.
      rewrite !progress_field_other by discriminate.
      rewrite state_of_other by discriminate.
      unfold state_of at 1. rewrite dget_dset_eq.
      repeat split; assumption. }
    destruct Hdone as (Hd1 & Hd2 & Hd3).
    exists (new ++ [done])%list, total.
    rewrite !snapshots_app. cbn [snapshots].
    rewrite El, !app_nil_r, <- !app_assoc.
    split; [reflexivity|].
    split.
    { apply Forall_app. split; [exact Hnew|].
      constructor; [|constructor]. split; auto. }
    split.
    { apply (ascending_app new [done] 0 total total).
      - replace (1 - 1) with 0 in Hasc by lia. exact Hasc.
      - exists total. repeat split; [exact Hd3 | lia | simpl; lia]. }
    split; [exact Hd2|]. split; [exact Hd3|].
    split; [discriminate|].
    intros _. exists done. split; [|split; assumption].
    apply in_or_app. right. now left.
  - destruct (segments_loop_progress total w scripts script_key selected_script
                session_dir voice mode seg_keys 1 [] st st' (Raise e) H1 Hrun)
      as (new & c & El & Hall & Hasc & [Hst Htot] & Hc' & Hle & Hok);
      [exact Hc|].
    exists new, c.
    repeat split; try assumption; try discriminate.
    eapply Forall_impl; [|exact Hall]. apply while_running_ok.
Qed.

End RunProgress.

Section RunPipeline.

Import Server Media.

Variable w : world.

Lemma try_except_inv (body : M unit) (st st' : state) (r : result unit) :
  try_except body st = (r, st') ->
  (r = Ok tt /\ body st = (Ok tt, st'))
  \/ (exists e st1,
        r = Raise e /\ body st = (Raise e, st1)
        /\ st' = State (dupdate (status st1)
                          [("state", JStr "failed"); ("error", JStr e)])
                   (prompts_file st1)
                   (log st1 ++ [WriteStatus
                                  (dupdate (status st1)
                                     [("state", JStr "failed");
                                      ("error", JStr e)])])%list).
Proof.
  unfold try_except. destruct (body st) as [[[]|e] st1].
  - intros [= <- <-]. now left.
  - intros [= <- <-]. right. exists e, st1. repeat split.
Qed.

(** The status with which a run starts. *)
Definition first_status (prev : dict) (voice mode script_key : string)
    (total : Z) : dict :=
  dupdate prev [("state", JStr "running");
                ("voice", JStr voice);
                ("mode", JStr mode);
                ("selected_script", JStr script_key);
                ("progress", progress total 0)].

Lemma first_status_facts (prev : dict) (voice mode script_key : string)
    (total : Z) :
  let s0 := first_status prev voice mode script_key total in
  while_running total s0
  /\ completed_of s0 = Some 0
  /\ dget "progress" s0 = Some (progress total 0)
  /\ dget "error" s0 = dget "error" prev
  /\ dget "artifacts" s0 = dget "artifacts" prev.
Proof.
  unfold first_status, while_running, completed_of, total_of.
  cbn [dupdate fold_left fst snd].
  rewrite !progress_field_set, !state_of_other by discriminate.
  unfold state_of at 1. rewrite !dget_dset_eq.
  rewrite !(dget_dset_ne _ "error"), !(dget_dset_ne _ "artifacts") by discriminate.
  repeat split.
Qed.

(** A call of [run_pipeline] either is rejected before it touches the
    status, or writes its first status and enters the [try]. *)
Lemma run_pipeline_cases (session_exists : bool)
    (scripts_file status_file prompts_file : file)
    (session_id script_key : string) (voice : option string) (mode : string)
    (r : result unit) (st : state) :
  run_pipeline w session_exists scripts_file status_file prompts_file
    session_id script_key voice mode = (r, st) ->
  ((exists e, r = Raise e) /\ log st = [])
  \/ (exists scripts selected_script prev voice' mode',
        scripts_file = Holds scripts
        /\ py_getitem scripts script_key = Ok (JObj selected_script)
        /\ _read_status status_file = JObj prev
        /\ let seg_keys := Main.natural_segment_order (dkeys selected_script) in
           let total := Z.of_nat (List.length seg_keys) in
           let s0 := first_status prev voice' mode' script_key total in
           try_except
             (try_body w scripts script_key selected_script
                (path_join (sessions_root w) session_id) voice' mode' total
                seg_keys)
             (State s0 prompts_file [WriteStatus s0]) = (r, st)).
Proof.
  unfold run_pipeline.
  destruct session_exists; cbn [negb];
    [|intros [= <- <-]; left; split; [eauto | reflexivity]].
  destruct scripts_file as [| |scripts];
    try (intros [= <- <-]; left; split; [eauto | reflexivity]).
  destruct (py_in script_key scripts) as [[|]|]; cbn [bind negb];
    try (intros [= <- <-]; left; split; [eauto | reflexivity]).
  destruct (py_getitem scripts script_key) as [v|] eqn:Hv; cbn [bind];
    [|intros [= <- <-]; left; split; [eauto | reflexivity]].
  destruct v as [| | | | |selected];
    try (intros [= <- <-]; left; split; [eauto | reflexivity]).
  destruct (_read_status status_file) as [| | | | |prev] eqn:Hprev;
    cbn [py_update bind];
    try (intros [= <- <-]; left; split; [eauto | reflexivity]).
  intros H. right.
  apply mbind_inv in H as [(u & st1 & H1 & H) | (e & H1 & _)].
  2:{ apply write_status_inv in H1 as [[=] _]. }
  apply write_status_inv in H1 as [_ ->]. cbn [status log Server.prompts_file app] in H.
  eexists scripts, selected, prev, _, _.
  split; [reflexivity|]. split; [exact Hv|]. split; [reflexivity|].
  exact H.
Qed.

End RunPipeline.

Section SessionMonotonicity.

Import Server Media.

(** Some snapshot says that the session is completed. *)
Definition becomes_completed (snaps : list dict) : Prop :=
  exists d, In d snaps /\ state_of d = Some "completed".

(** Some snapshot counts as many completed segments as there are
    segments. *)
Definition reaches_total (snaps : list dict) : Prop :=
  exists d t, In d snaps /\ total_of d = Some t /\ completed_of d = Some t.

Lemma failed_facts (e : string) (d : dict) :
  let f := dupdate d [("state", JStr "failed"); ("error", JStr e)] in
  state_of f = Some "failed"
  /\ total_of f = total_of d
  /\ completed_of f = completed_of d.
Proof.
  unfold completed_of, total_of. cbn [dupdate fold_left fst snd].
  rewrite !progress_field_other by discriminate.
  rewrite state_of_other by discriminate.
  unfold state_of. rewrite dget_dset_eq. repeat split.
Qed.

(** C1, amended: over the snapshots that one run of [run_pipeline]
    writes, [progress.completed] is always present and never decreases; a
    snapshot in state [completed] counts all the segments
    ([completed = total_segments]); and the state becomes [completed]
    exactly when the run returns without raising. *)
Theorem run_pipeline_progress_monotone (w : world) (session_exists : bool)
    (scripts_file status_file prompts_file : file)
    (session_id script_key : string) (voice : option string) (mode : string)
    (r : result unit) (st : state) :
  run_pipeline w session_exists scripts_file status_file prompts_file
    session_id script_key voice mode = (r, st) ->
  let snaps := snapshots (log st) in
  (exists cs, map completed_of snaps = map Some cs /\ StronglySorted Z.le cs)
  /\ (forall d, In d snaps -> state_of d = Some "completed" ->
        exists t, total_of d = Some t /\ completed_of d = Some t)
  /\ (becomes_completed snaps <-> r = Ok tt).
Proof.
  intros H snaps.
  apply run_pipeline_cases in H
    as [[[e ->] Hlog] | (scripts & selected & prev & voice' & mode' & _ & _ & _ & H)].
  { unfold snaps. rewrite Hlog. cbn [snapshots].
    split; [exists []; split; [reflexivity | constructor]|].
    split; [intros d []|].
    split; [intros (d & [] & _) | discriminate]. }
  cbv zeta in H.
  set (seg_keys := Main.natural_segment_order (dkeys selected)) in *.
  set (total := Z.of_nat (List.length seg_keys)) in *.
  set (s0 := first_status prev voice' mode' script_key total) in *.
  destruct (first_status_facts prev voice' mode' script_key total)
    as ([Hs0 Ht0] & Hc0 & _).
  fold s0 in Hs0, Ht0, Hc0.
  assert (Hrun0 : while_running total s0) by (split; assumption).
  apply try_except_inv in H as [[-> H] | (e & st1 & -> & H & ->)].
  - destruct (try_body_progress _ _ _ _ _ _ _ _ _ _ _ H Hrun0 Hc0)
      as (new & c & El & Hall & Hasc & Htot & Hc & _ & Hok).
    destruct (Hok eq_refl) as (d & Hd & Hdst & Hdc).
    unfold snaps. rewrite El. cbn [log snapshots app].
    split.
    { destruct (ascending_sorted (s0 :: new) 0 c) as (cs & Hm & Hs & _);
        [exists 0; repeat split; [exact Hc0 | lia | exact Hasc] | eauto]. }
    split.
    { intros d' [<- | Hin] Hst.
      - rewrite Hs0 in Hst. discriminate.
      - rewrite Forall_forall in Hall. destruct (Hall d' Hin) as [Ht' Hc'].
        exists total. auto. }
    split; [reflexivity|]. intros _. exists d. split; [now right | exact Hdst].
  - destruct (try_body_progress _ _ _ _ _ _ _ _ _ _ _ H Hrun0 Hc0)
      as (new & c & El & Hall & Hasc & Htot & Hc & Hfail & _).
    destruct (Hfail e eq_refl) as [Hst1 Hrunning].
    destruct (failed_facts e (status st1)) as (Hf1 & Hf2 & Hf3).
    cbv zeta in Hf1, Hf2, Hf3.
    set (f := dupdate (status st1) _) in *.
    unfold snaps. cbn [log]. rewrite snapshots_app, El.
    cbn [log snapshots app].
    split.
    { destruct (ascending_sorted (s0 :: new ++ [f]) 0 c) as (cs & Hm & Hs & _);
        [|eauto].
      exists 0. repeat split; [exact Hc0 | lia |].
      apply (ascending_app new [f] 0 c c); [exact Hasc|].
      exists c. repeat split; [congruence | lia | simpl; lia]. }
    assert (Hno : forall d', In d' (s0 :: new ++ [f]) ->
                             state_of d' <> Some "completed").
    { intros d' [<- | Hin]; [rewrite Hs0; discriminate|].
      apply in_app_or in Hin as [Hin | [<- | []]].
      - rewrite Forall_forall in Hrunning. destruct (Hrunning d' Hin) as [-> _].
        discriminate.
      - rewrite Hf1. discriminate. }
    split; [intros d' Hin Hst; destruct (Hno d' Hin Hst)|].
    split; [intros (d' & Hin & Hst); destruct (Hno d' Hin Hst) | discriminate].
Qed.

End SessionMonotonicity.

(** ** The log of a run only grows *)

Section LogGrows.

Import Server Media.

Definition grows {A : Type} (m : M A) : Prop :=
  forall st r st', m st = (r, st') -> exists l, log st' = (log st ++ l)%list.

Lemma grows_ret {A : Type} (a : A) : grows (ret a).
Proof. intros st r st' [= <- <-]. exists []. now rewrite app_nil_r. Qed.

Lemma grows_lift {A : Type} (x : result A) : grows (lift x).
Proof. intros st r st' [= <- <-]. exists []. now rewrite app_nil_r. Qed.

Lemma grows_emit (e : event) : grows (emit e).
Proof. intros st r st' [= <- <-]. now exists [e]. Qed.

Lemma grows_update_status (u : dict) : grows (update_status u).
Proof. intros st r st' [= <- <-]. exists []. cbn [log]. now rewrite app_nil_r. Qed.

Lemma grows_write_status : grows write_status.
Proof. intros st r st' [= <- <-]. now eexists. Qed.

Lemma grows_bind {A B : Type} (m : M A) (k : A -> M B) :
  grows m -> (forall a, grows (k a)) -> grows (mbind m k).
Proof.
  intros Hm Hk st r st' H.
  destruct (mbind_inv _ _ _ _ _ H) as [(a & st1 & H1 & H2) | (e & H1 & _)].
  - destruct (Hm _ _ _ H1) as [l1 E1], (Hk a _ _ _ H2) as [l2 E2].
    exists (l1 ++ l2)%list. now rewrite E2, E1, app_assoc.
  - exact (Hm _ _ _ H1).
Qed.

Lemma grows_call {A : Type} (e : event) (x : result A) : grows (call e x).
Proof. apply grows_bind; [apply grows_emit | intros; apply grows_lift]. Qed.

Variable w : world.
Variable scripts : json.
Variable script_key : string.
Variable selected_script : dict.
Variable session_dir : string.
Variable voice : string.
Variable mode : string.
Variable total : Z.

Lemma grows_prompts_stage (seg_key : string) :
  grows (prompts_stage w scripts script_key seg_key).
Proof.
  intros st r st'. unfold prompts_stage.
  destruct (image_prompts_for _ _ _ _ _) as [image_prompts disk].
  intros [= <- <-]. exists []. cbn [log]. now rewrite app_nil_r.
Qed.

Lemma grows_image_stage (prompt : json) (img_path : string) :
  grows (image_stage w mode prompt img_path).
Proof.
  unfold image_stage. destruct (String.eqb mode "videos"); apply grows_call.
Qed.

Ltac grow_using stage :=
  repeat first
    [ stage
    | apply grows_ret | apply grows_lift | apply grows_emit | apply grows_call
    | apply grows_update_status | apply grows_write_status
    | apply grows_prompts_stage | apply grows_image_stage
    | apply grows_bind; [|intros ?] ].

Ltac grow := grow_using fail.

Lemma grows_video_stage (seg_dir image_path : string) (prompt : json)
    (half : Q) (label : string) :
  grows (video_stage w seg_dir image_path prompt half label).
Proof.
  unfold video_stage.
  destruct (Common.generate_video_with_retries _ _ _ _) as [r calls]. grow.
Qed.

Lemma grows_segment_stages (seg_key seg_text : string) :
  grows (segment_stages w scripts script_key session_dir voice mode
           seg_key seg_text).
Proof.
  unfold segment_stages.
  do 6 (apply grows_bind; [grow | intros ?]).
  apply grows_bind; [|intros ?; grow].
  destruct (String.eqb mode "videos"); grow_using ltac:(apply grows_video_stage).
Qed.

Lemma grows_process_segment (i : Z) (seg_key : string) :
  grows (process_segment w scripts script_key selected_script session_dir
           voice mode total i seg_key).
Proof.
  unfold process_segment. grow_using ltac:(apply grows_segment_stages).
Qed.

Lemma grows_segments_loop (seg_keys : list string) :
  forall i acc,
    grows (segments_loop w scripts script_key selected_script session_dir
             voice mode total i seg_keys acc).
Proof.
  induction seg_keys as [|k keys IH]; intros i acc; cbn [segments_loop].
  - apply grows_ret.
  - apply grows_bind; [apply grows_process_segment | intros; apply IH].
Qed.

Lemma grows_try_body (seg_keys : list string) :
  grows (try_body w scripts script_key selected_script session_dir voice mode
           total seg_keys).
Proof.
  unfold try_body. apply grows_bind; [apply grows_segments_loop|]. intros. grow.
Qed.

Lemma grows_try_except (body : M unit) : grows body -> grows (try_except body).
Proof.
  intros Hb st r st' H.
  apply try_except_inv in H as [[_ H] | (e & st1 & _ & H & ->)].
  - exact (Hb _ _ _ H).
  - destruct (Hb _ _ _ H) as [l E]. cbn [log].
    eexists. rewrite E, <- app_assoc. reflexivity.
Qed.

End LogGrows.

Section RunStart.

Import Server Media.

Lemma py_getitem_in (j : json) (k : string) (v : json) :
  py_getitem j k = Ok v -> py_in k j = Ok true.
Proof.
  destruct j as [| | | | |d]; try discriminate.
  cbn [py_getitem py_in]. unfold dmem.
  destruct (dget k d); [reflexivity | discriminate].
Qed.

Lemma natural_segment_order_length (d : dict) :
  List.length (Main.natural_segment_order (dkeys d)) = List.length d.
Proof.
  unfold Main.natural_segment_order, dkeys.
  rewrite (Permutation_length (sorted_perm Main.seg_key (map fst d))).
  apply length_map.
Qed.

(** C6, amended: when [run_pipeline] starts on a session whose scripts
    hold the selected script, the first thing it does is to write a
    snapshot in state [running] whose progress is [total_segments] = the
    number of segments of the selected script and [completed] = 0; the
    [error] and [artifacts] fields of that snapshot are those of the
    status found on disk, unchanged. *)
Theorem run_pipeline_first_snapshot (w : world) (scripts : json)
    (selected_script prev : dict) (prompts_file : file)
    (session_id script_key : string) (voice : option string) (mode : string) :
  py_getitem scripts script_key = Ok (JObj selected_script) ->
  exists s0 rest,
    log (snd (run_pipeline w true (Holds scripts) (Holds (JObj prev))
                prompts_file session_id script_key voice mode))
    = WriteStatus s0 :: rest
    /\ dget "progress" s0
       = Some (progress (Z.of_nat (List.length selected_script)) 0)
    /\ state_of s0 = Some "running"
    /\ dget "error" s0 = dget "error" prev
    /\ dget "artifacts" s0 = dget "artifacts" prev.
Proof.
  intros Hget.
  destruct (run_pipeline w true (Holds scripts) (Holds (JObj prev))
              prompts_file session_id script_key voice mode) as [r st] eqn:H.
  unfold run_pipeline in H. cbn [negb] in H.
  rewrite (py_getitem_in _ _ _ Hget), Hget in H.
  cbn [bind negb _read_status py_update] in H.
  apply mbind_inv in H as [(u & st1 & H1 & H) | (e & H1 & _)].
  2:{ apply write_status_inv in H1 as [[=] _]. }
  apply write_status_inv in H1 as [_ ->].
  cbn [status log Server.prompts_file app] in H.
  match type of H with
  | try_except _ (State ?s _ _) = _ => set (s0 := s) in *
  end.
  destruct (grows_try_except _ (grows_try_body _ _ _ _ _ _ _ _ _) _ _ _ H)
    as [l El].
  cbn [log app] in El. cbn [snd].
  exists s0, l. split; [exact El|].
  match goal with
  | s0 := dupdate prev [_; ("voice", JStr ?v); ("mode", JStr ?m); _; ("progress", progress ?t _)] |- _ =>
      destruct (first_status_facts prev v m script_key t)
        as ([Hs _] & _ & Hp & He & Ha)
  end.
  unfold first_status in *. fold s0 in Hs, Hp, He, Ha.
  rewrite natural_segment_order_length in Hp.
  repeat split; assumption.
Qed.

End RunStart.

(** ** Prompts of a segment, and what replaces them *)

Section FindFacts.

Context {A : Type}.

Lemma find_filter (p q : A -> bool) (l : list A) :
  (forall x, p x = true -> q x = true) -> find p (filter q l) = find p l.
Proof.
  intros Hpq. induction l as [|x l IH]; simpl; [reflexivity|].
  destruct (q x) eqn:Eq; simpl.
  - destruct (p x); [reflexivity | exact IH].
  - destruct (p x) eqn:Ep; [|exact IH].
    rewrite (Hpq x Ep) in Eq. discriminate.
Qed.

(** A stable sort does not change which element a search finds first, when
    all the elements searched for have the same key. *)
Lemma find_sorted (key : A -> Z) (p : A -> bool) (k : Z) (l : list A) :
  (forall x, p x = true -> key x = k) -> find p (sorted key l) = find p l.
Proof.
  intros Hp.
  rewrite <- (find_filter p (fun y => key y =? k) (sorted key l)),
          <- (find_filter p (fun y => key y =? k) l).
  - now rewrite sorted_stable.
  - intros x Hx. apply Z.eqb_eq. now apply Hp.
  - intros x Hx. apply Z.eqb_eq. now apply Hp.
Qed.

End FindFacts.

Section PromptFallback.

Import Llm.

Lemma dget_find (k : string) (d : dict) (v : json) :
  dget k d = Some v ->
  find (fun kv : string * json => String.eqb (fst kv) k) d = Some (k, v).
Proof.
  induction d as [|[k' v'] r IH]; simpl; [discriminate|].
  rewrite (String.eqb_sym k' k).
  destruct (String.eqb_spec k k') as [<- | Hne]; [now intros [= ->] | exact IH].
Qed.

Lemma texts_from_find (seg text : string) (items : dict) :
  forall i texts,
    texts_from i items = Ok texts ->
    find (fun kv : string * json => String.eqb (fst kv) seg) items
    = Some (seg, JStr text) ->
    find (fun kv : string * string => String.eqb (fst kv) seg) texts
    = Some (seg, text).
Proof.
  induction items as [|[k v] r IH]; intros i texts; simpl; [discriminate|].
  destruct v; try discriminate.
  destruct (texts_from (i + 1) r) as [rest|] eqn:E; simpl; [|discriminate].
  intros [= <-]. simpl.
  destruct (String.eqb k seg).
  - now intros [= -> ->].
  - now apply (IH (i + 1)).
Qed.

Variable llm : payload -> reply.
Variable other_writers : string -> file -> file.
Variable script_key : string.

(** The segment processed is the one of [scripts.json], with its text. *)
Lemma prepare_text (scripts : json) (selected : dict) (seg text : string)
    (disk : file) (ordered segs : list (string * string)) (existing : json) :
  prepare script_key scripts (Some seg) disk = Ok (ordered, segs, existing) ->
  py_getitem scripts script_key = Ok (JObj selected) ->
  dget seg selected = Some (JStr text) ->
  segs = [(seg, text)].
Proof.
  intros Hp Hsel Htext. unfold prepare in Hp.
  rewrite (py_getitem_in _ _ _ Hsel), Hsel in Hp. cbn [bind negb] in Hp.
  destruct (dmem seg selected); [|discriminate].
  cbn [bind] in Hp.
  destruct (py_get (load_or_empty disk) script_key (JObj [])); [|discriminate].
  cbn [bind] in Hp.
  destruct (texts_from 0 (ordered_segments selected)) as [texts|] eqn:Ht;
    [|discriminate].
  cbn [bind] in Hp. injection Hp as <- <- <-.
  rewrite (texts_from_find seg text _ _ _ Ht); [reflexivity|].
  unfold ordered_segments.
  rewrite (find_sorted (fun kv : string * json => seg_index (fst kv))
             (fun kv : string * json => String.eqb (fst kv) seg)
             (seg_index seg)).
  - exact (dget_find seg selected (JStr text) Htext).
  - intros [k v] Hk. cbn [fst] in *. apply String.eqb_eq in Hk. now subst.
Qed.

(** When the reply of the model is not JSON, the prompts returned for the
    segment are the first 120 characters of its text, twice. *)
Lemma generate_prompts_not_json (scripts : json) (selected : dict)
    (seg text : string) (disk disk' : file) (out : dict) :
  (forall pl, llm pl = NotJson) ->
  generate_prompts_for_script llm other_writers script_key scripts (Some seg)
    disk = (Ok out, disk') ->
  py_getitem scripts script_key = Ok (JObj selected) ->
  dget seg selected = Some (JStr text) ->
  dget seg out = Some (fallback_data text).
Proof.
  intros Hllm H Hsel Htext. unfold generate_prompts_for_script in H.
  destruct (prepare script_key scripts (Some seg) disk)
    as [[[ordered segs] existing]|] eqn:Hp; [|discriminate].
  rewrite (prepare_text _ _ _ _ _ _ _ _ Hp Hsel Htext) in H.
  cbn [process_all] in H. unfold process_one in H.
  destruct (prev_prompts_of existing seg (map fst ordered) []); [|discriminate].
  rewrite Hllm in H.
  destruct (merge_save script_key seg (fallback_data text) (other_writers seg disk));
    [|discriminate].
  destruct (py_setitem existing seg (fallback_data text)); [|discriminate].
  injection H as <- _. apply (dget_dset_eq seg _ []).
Qed.

End PromptFallback.

Section PromptedStage.

Import Server Media.

Variable w : world.
Variable scripts : json.
Variable script_key : string.
Variable session_dir : string.
Variable voice : string.
Variable mode : string.

(** The call of the image back end of the mode, and its outcome. *)
Definition image_event (prompt : json) (img_path : string) : event :=
  if String.eqb mode "videos" then ImageFromPrompt prompt img_path
  else ImageWithFallback prompt img_path.

Definition image_backend (prompt : json) (img_path : string) : result unit :=
  if String.eqb mode "videos" then generate_image_from_prompt w prompt img_path
  else Common.generate_image_with_fallback
         (hf_generate_and_save_image w) (generate_image_from_prompt w)
         prompt img_path.

Lemma image_stage_call (prompt : json) (img_path : string) :
  image_stage w mode prompt img_path
  = call (image_event prompt img_path) (image_backend prompt img_path).
Proof.
  unfold image_stage, image_event, image_backend.
  now destruct (String.eqb mode "videos").
Qed.

(** The stages of a segment go on to image generation with the prompts
    [p1] and [p2]: after the narration the first image is asked for with
    [p1], and once it is there the second one is asked for with [p2]. *)
Definition proceeds_with (seg_key seg_text : string) (before after : list event)
    (p1 p2 : json) : Prop :=
  let seg_dir := path_join (segments_root session_dir) seg_key in
  exists rest,
    after = (before
             ++ RunTts seg_text voice (path_join seg_dir "audio.mp3")
                :: image_event p1 (path_join seg_dir "image1.png") :: rest)%list
    /\ (image_backend p1 (path_join seg_dir "image1.png") = Ok tt ->
        exists rest',
          rest = image_event p2 (path_join seg_dir "image2.png") :: rest').

(** How the prompt of one image is chosen from the mapping [d] returned
    for the segment: the narration text when the entry of the image or its
    ["prompt"] field is missing, the given prompt otherwise. *)
Definition prompt_choice (d : dict) (image seg_text : string) (p : json)
  : Prop :=
  (dget image d = None /\ p = JStr seg_text)
  \/ (exists e, dget image d = Some (JObj e)
                /\ ((dget "prompt" e = None /\ p = JStr seg_text)
                    \/ dget "prompt" e = Some p)).

Lemma prompt_choice_of (d : dict) (image seg_text : string) (p : json) :
  prompt_choice d image seg_text p ->
  prompt_of (JObj d) image seg_text = Ok p.
Proof.
  unfold prompt_of. cbn [py_get bind].
  intros [[-> ->] | (e & -> & [[He ->] | He])]; cbn [py_get];
    [reflexivity | now rewrite He | now rewrite He].
Qed.

Lemma segment_stages_proceeds (seg_key seg_text : string) (st st' : state)
    (r : result (string * clip)) (p1 p2 : json) :
  segment_stages w scripts script_key session_dir voice mode seg_key seg_text st
  = (r, st') ->
  run_tts w seg_text voice
    (path_join (path_join (segments_root session_dir) seg_key) "audio.mp3")
  = Ok tt ->
  let image_prompts :=
    fst (image_prompts_for w scripts script_key (prompts_file st) seg_key) in
  prompt_of image_prompts "image1" seg_text = Ok p1 ->
  prompt_of image_prompts "image2" seg_text = Ok p2 ->
  proceeds_with seg_key seg_text (log st) (log st') p1 p2.
Proof.
  intros H Htts image_prompts H1 H2. unfold segment_stages in H.
  apply mbind_inv in H as [(u & st1 & Ha & H) | (e & Ha & _)].
  2:{ apply call_inv in Ha as [Ha _]. congruence. }
  apply call_inv in Ha as [_ ->].
  apply mbind_inv in H as [(ip & st2 & Hb & H) | (e & Hb & _)].
  2:{ unfold prompts_stage in Hb.
      destruct (image_prompts_for _ _ _ _ _) in Hb. discriminate. }
  unfold prompts_stage in Hb. cbn [Server.prompts_file status log] in Hb.
  assert (Eip : ip = image_prompts /\ log st2 = (log st ++ [RunTts seg_text voice
                  (path_join (path_join (segments_root session_dir) seg_key)
                     "audio.mp3")])%list).
  { unfold image_prompts.
    destruct (image_prompts_for w scripts script_key (Server.prompts_file st) seg_key).
    injection Hb as <- <-. split; reflexivity. }
  destruct Eip as [-> Elog]. clear Hb.
  apply mbind_inv in H as [(q1 & st3 & Hc & H) | (e & Hc & _)].
  2:{ injection Hc as Hc _. congruence. }
  injection Hc as Hc <-. rewrite H1 in Hc. injection Hc as <-.
  apply mbind_inv in H as [(q2 & st4 & Hd & H) | (e & Hd & _)].
  2:{ injection Hd as Hd _. congruence. }
  injection Hd as Hd <-. rewrite H2 in Hd. injection Hd as <-.
  rewrite !image_stage_call in H.
  apply mbind_inv in H as [(u5 & st5 & He & H) | (e & He & _)].
  2:{ apply call_inv in He as [He ->]. cbn [log]. rewrite Elog, <- app_assoc.
      exists []. split; [reflexivity|]. intros Hok. congruence. }
  apply call_inv in He as [_ ->].
  apply mbind_inv in H as [(u6 & st6 & Hf & H) | (e & Hf & _)].
  2:{ apply call_inv in Hf as [_ ->]. cbn [log]. rewrite Elog, <- !app_assoc.
      eexists. split; [reflexivity|]. intros _. eexists. reflexivity. }
  apply call_inv in Hf as [_ ->].
  assert (G : exists l, log st' = (log (State (status st2) (Server.prompts_file st2)
                 ((log st2 ++ [image_event p1 (path_join (path_join
                      (segments_root session_dir) seg_key) "image1.png")])
                  ++ [image_event p2 (path_join (path_join
                      (segments_root session_dir) seg_key) "image2.png")])) ++ l)%list).
  { revert H. cbn [status Server.prompts_file].
    match goal with
    | |- ?m ?s = _ -> _ => assert (Gm : grows m)
    end.
    { apply grows_bind.
      - destruct (String.eqb mode "videos"); [|apply grows_lift].
        apply grows_bind; [apply grows_video_stage|]. intros.
        apply grows_bind; [apply grows_video_stage|]. intros. apply grows_lift.
      - intros. apply grows_bind; [apply grows_emit | intros; apply grows_ret]. }
    intros H. exact (Gm _ _ _ H). }
  destruct G as [l El]. cbn [log] in El. rewrite El, Elog, <- !app_assoc.
  cbn [app]. eexists. split; [reflexivity|]. intros _. eexists. reflexivity.
Qed.

End PromptedStage.

Section PromptedStageFallback.

Import Server Media.

(** C7, amended: in [run_pipeline], for a segment whose narration
    succeeded and that has no cached prompts, the prompted stage never
    stops the run in these cases, and image generation is started:
    - when the generation of the prompts raises, with the narration text
      as both prompts;
    - when it returns a mapping, with, for each of [image1] and [image2]
      on its own, the narration text if the entry of the image or its
      ["prompt"] field is missing, and the prompt given otherwise;
    - when the reply of the model is not JSON, with the first 120
      characters of the narration text as both prompts. *)
Theorem prompted_stage_falls_back (w : world) (scripts : json)
    (script_key session_dir voice mode seg_key seg_text : string)
    (st st' : state) (r : result (string * clip)) :
  segment_stages w scripts script_key session_dir voice mode seg_key seg_text st
  = (r, st') ->
  run_tts w seg_text voice
    (path_join (path_join (segments_root session_dir) seg_key) "audio.mp3")
  = Ok tt ->
  truthy (cached_prompts (prompts_file st) script_key seg_key) = false ->
  let gen :=
    fst (Llm.generate_prompts_for_script (llm w) (fun _ disk => disk)
           script_key scripts (Some seg_key) (prompts_file st)) in
  let proceeds :=
    proceeds_with w session_dir voice mode seg_key seg_text (log st) (log st') in
  (forall e, gen = Raise e -> proceeds (JStr seg_text) (JStr seg_text))
  /\ (forall out d p1 p2,
        gen = Ok out ->
        dget seg_key out = Some (JObj d) ->
        prompt_choice d "image1" seg_text p1 ->
        prompt_choice d "image2" seg_text p2 ->
        proceeds p1 p2)
  /\ (forall out selected,
        gen = Ok out ->
        (forall pl, llm w pl = Llm.NotJson) ->
        py_getitem scripts script_key = Ok (JObj selected) ->
        dget seg_key selected = Some (JStr seg_text) ->
        proceeds (JStr (str_take 120 seg_text)) (JStr (str_take 120 seg_text))).
Proof.
  intros H Htts Hcache gen proceeds.
  pose proof (segment_stages_proceeds w scripts script_key session_dir voice
                mode seg_key seg_text st st' r) as P.
  specialize (fun p1 p2 => P p1 p2 H Htts). cbv zeta in P.
  unfold image_prompts_for in P. rewrite Hcache in P.
  unfold gen, proceeds.
  destruct (Llm.generate_prompts_for_script (llm w) (fun _ disk => disk)
              script_key scripts (Some seg_key) (prompts_file st))
    as [[out|e] disk] eqn:G; cbn [fst] in *.
  - split; [discriminate|]. split.
    + intros out' d p1 p2 [= <-] Hd Hp1 Hp2. rewrite Hd in P.
      apply P; now apply prompt_choice_of.
    + intros out' selected [= <-] Hllm Hsel Htext.
      rewrite (generate_prompts_not_json _ _ _ _ _ _ _ _ _ _ Hllm G Hsel Htext) in P.
      apply P; reflexivity.
  - split; [|split; discriminate].
    intros e' _. apply P; reflexivity.
Qed.

End PromptedStageFallback.

(** The command-line loop of src/main.py has the same replacement of
    missing prompts, but it does not catch a failure of the generation:
    there the exception leaves the loop. *)
Lemma cli_generation_failure_aborts (llm : Llm.payload -> Llm.reply)
    (scripts : json) (selected_key seg_key : string) (disk disk' : file)
    (found : json) (e : string) :
  Cli.load_segment_prompts_from_disk disk selected_key seg_key = Ok found ->
  truthy found = false ->
  Llm.generate_prompts_for_script llm (fun _ d => d) selected_key scripts
    (Some seg_key) disk = (Raise e, disk') ->
  Cli.image_prompts_for llm scripts selected_key seg_key disk = (Raise e, disk').
Proof.
  intros Hload Hfalsy Hgen. unfold Cli.image_prompts_for.
  now rewrite Hload, Hfalsy, Hgen.
Qed.

(** ** The schedule of the retry controller *)

Section RetrySchedule.

Import Common.

Variable op : nat -> result string.
Variable wait_s : Q.
Variable label : string.

(** What one attempt adds to the log. *)
Definition one_attempt (i : nat) : list event :=
  if Media.Qltb 0 wait_s then [Sleep wait_s; Call i] else [Call i].

Lemma before_call_attempt (calls : nat) (log : list event) :
  before_call wait_s calls log = (log ++ one_attempt calls)%list.
Proof.
  unfold before_call, one_attempt. destruct (Media.Qltb 0 wait_s).
  - now rewrite <- app_assoc.
  - reflexivity.
Qed.

Lemma attempts_one_attempt (i : nat) : attempts (one_attempt i) = 1%nat.
Proof. unfold one_attempt. now destruct (Media.Qltb 0 wait_s). Qed.

Lemma attempts_schedule (n first : nat) :
  attempts (flat_map one_attempt (seq first n)) = n.
Proof.
  revert first. induction n as [|n IH]; intros first; [reflexivity|].
  cbn [seq flat_map]. rewrite attempts_app, attempts_one_attempt, IH. reflexivity.
Qed.

Lemma retry_loop_schedule (remaining : nat) :
  forall (attempt : Z) (last_err : option string) (calls : nat)
         (log : list event),
    exists n,
      (n <= remaining)%nat
      /\ snd (retry_loop op wait_s label remaining attempt last_err calls log)
         = (log ++ flat_map one_attempt (seq calls n))%list.
Proof.
  induction remaining as [|r IH]; intros attempt last_err calls log.
  - exists 0%nat. split; [lia|]. cbn. now rewrite app_nil_r.
  - cbn [retry_loop]. destruct (op calls) as [name|e].
    + exists 1%nat. split; [lia|]. cbn [snd seq flat_map].
      now rewrite app_nil_r, before_call_attempt.
    + destruct (IH (attempt + 1) (Some e) (S calls)
                  (before_call wait_s calls log)) as (n & Hn & E).
      exists (S n). split; [lia|]. rewrite E, before_call_attempt.
      cbn [seq flat_map]. now rewrite <- app_assoc.
Qed.

End RetrySchedule.

(** X1: the log of [generate_video_with_retries] is one block per attempt,
    the attempts numbered from 0 in order; when the wait is positive every
    call, the first one included, comes right after one sleep of [wait_s],
    and with a wait of zero or less nothing is slept.  The number of
    attempts never exceeds [max_retries + 1]. *)
Theorem retry_log_is_a_schedule
    (op : nat -> result string) (wait_s : Q) (max_retries : Z) (label : string) :
  let log := snd (Common.generate_video_with_retries op wait_s max_retries label) in
  let n := Common.attempts log in
  log = flat_map
          (fun i => if Media.Qltb 0 wait_s
                    then [Common.Sleep wait_s; Common.Call i]
                    else [Common.Call i])
          (seq 0 n)
  /\ Z.of_nat n <= Z.max 0 (max_retries + 1).
Proof.
  intros log n. subst n log. unfold Common.generate_video_with_retries.
  destruct (retry_loop_schedule op wait_s label (Z.to_nat (max_retries + 1))
              0 None 0%nat []) as (n & Hn & E).
  rewrite E. cbn [app].
  change (fun i : nat => if Media.Qltb 0 wait_s
                         then [Common.Sleep wait_s; Common.Call i]
                         else [Common.Call i])
    with (one_attempt wait_s).
  rewrite attempts_schedule. split; [reflexivity | lia].
Qed.

(** ** The slideshow of a segment *)

Section Slideshow.

Import Media.
Local Open Scope Q_scope.

Lemma inject_nat_pred (n : nat) :
  (1 <= n)%nat ->
  inject_Z (Z.of_nat (n - 1)) == inject_Z (Z.of_nat n) - 1.
Proof.
  intros H. replace (Z.of_nat (n - 1)) with (Z.of_nat n - 1)%Z by lia.
  unfold Zminus. rewrite inject_Z_plus. reflexivity.
Qed.

Lemma last_share (total_dur : Q) (n : nat) :
  (1 <= n)%nat ->
  let base := total_dur / inject_Z (Z.of_nat n) in
  total_dur - base * inject_Z (Z.of_nat (n - 1)) == base.
Proof.
  intros H base. subst base. rewrite (inject_nat_pred n H).
  assert (Hn : ~ inject_Z (Z.of_nat n) == 0).
  { intros E. unfold Qeq in E. cbn in E. lia. }
  field. exact Hn.
Qed.

Lemma py_max_compat (a b c : Q) : a == b -> py_max a c == py_max b c.
Proof.
  intros E.
  destruct (py_max_cases a c) as [[H ->] | [H ->]];
    destruct (py_max_cases b c) as [[H' ->] | [H' ->]]; lra.
Qed.

(** Every picture is shown for [max(total / n, 0.1)]. *)
Lemma image_clips_durations (total_dur : Q) (n : nat) (image_paths : list string) :
  forall i : nat,
    (i + List.length image_paths = n)%nat ->
    let base := total_dur / inject_Z (Z.of_nat n) in
    Forall (fun c => duration c == py_max base (1 # 10))
      (image_clips base total_dur n i image_paths).
Proof.
  induction image_paths as [|img r IH]; intros i Hlen base; cbn [image_clips].
  - constructor.
  - constructor.
    + cbn [duration]. destruct (Nat.ltb i (n - 1)) eqn:E; [reflexivity|].
      apply py_max_compat. apply last_share. cbn [List.length] in Hlen. lia.
    + apply IH. cbn [List.length] in Hlen. lia.
Qed.

Lemma image_clips_length (base total_dur : Q) (n : nat) (image_paths : list string) :
  forall i, List.length (image_clips base total_dur n i image_paths)
            = List.length image_paths.
Proof.
  induction image_paths as [|img r IH]; intros i; cbn; [reflexivity|].
  now rewrite IH.
Qed.

Lemma concat_same_duration (d : Q) (cs : list clip) :
  Forall (fun c => duration c == d) cs ->
  duration (Concat cs) == inject_Z (Z.of_nat (List.length cs)) * d.
Proof.
  induction 1 as [|c cs Hc _ IH].
  - cbn. change (inject_Z 0) with 0. lra.
  - change (duration (Concat (c :: cs))) with (duration c + duration (Concat cs)).
    rewrite IH, Hc. cbn [List.length]. rewrite Nat2Z.inj_succ.
    unfold Z.succ. rewrite inject_Z_plus. change (inject_Z 1) with 1. lra.
Qed.

Lemma build_segment_from_images_body (image_paths : list string) (aud : clip) :
  image_paths <> [] ->
  build_segment_from_images image_paths aud
  = let total_dur := duration aud in
    let n := List.length image_paths in
    let base := total_dur / inject_Z (Z.of_nat n) in
    let video := Concat (image_clips base total_dur n 0 image_paths) in
    match subclip aud 0 (py_min total_dur (duration video)) with
    | Raise e => Raise e
    | Ok aud => Ok (SetAudio video aud)
    end.
Proof. destruct image_paths; [congruence | reflexivity]. Qed.

End Slideshow.

(** X2: for at least one picture and a narration of duration [T >= 0],
    [build_segment_from_images] shows every picture for
    [max(T / n, 0.1)] seconds, so that the video lasts
    [max(T, n * 0.1)]: exactly as long as the narration when the narration
    lasts at least [n * 0.1], and longer otherwise; the narration is
    attached from its start and is never cut.  With no picture the
    function raises. *)
Theorem build_segment_from_images_spans_narration
    (image_paths : list string) (aud : Media.clip) :
  image_paths <> [] ->
  (0 <= Media.duration aud)%Q ->
  let n := inject_Z (Z.of_nat (List.length image_paths)) in
  let T := Media.duration aud in
  exists (clips : list Media.clip) (t : Q),
    Media.build_segment_from_images image_paths aud
    = Ok (Media.SetAudio (Media.Concat clips) (Media.Subclip aud 0 t))
    /\ List.length clips = List.length image_paths
    /\ Forall (fun c => Media.duration c == Qmax (T / n) (1 # 10))%Q clips
    /\ (Media.duration (Media.Concat clips) == Qmax T (n * (1 # 10)))%Q
    /\ (t == T)%Q
    /\ Media.build_segment_from_images [] aud = Raise "No images provided".
Proof.
  intros Hne HT n T. rewrite (build_segment_from_images_body _ _ Hne). cbv zeta.
  set (len := List.length image_paths).
  assert (Hlen : (1 <= len)%nat).
  { subst len. destruct image_paths; [congruence | cbn; lia]. }
  set (base := (Media.duration aud / inject_Z (Z.of_nat len))%Q).
  set (clips := Media.image_clips base (Media.duration aud) len 0 image_paths).
  assert (Hn : (1 <= n)%Q).
  { subst n. fold len. change 1%Q with (inject_Z 1). rewrite <- Zle_Qle. lia. }
  assert (Hall : Forall (fun c => Media.duration c == Media.py_max base (1 # 10))%Q clips).
  { apply image_clips_durations. reflexivity. }
  assert (Hdur : (Media.duration (Media.Concat clips)
                  == n * Media.py_max base (1 # 10))%Q).
  { rewrite (concat_same_duration _ _ Hall). subst clips.
    rewrite image_clips_length. reflexivity. }
  assert (Hbase : (n * base == T)%Q).
  { subst base n T. fold len. field.
    intros E. unfold Qeq in E. cbn in E. lia. }
  assert (Hvid : (Media.duration (Media.Concat clips) == Qmax T (n * (1 # 10)))%Q).
  { rewrite Hdur.
    destruct (py_max_cases base (1 # 10)) as [[H ->] | [H ->]];
      destruct (Q.max_spec T (n * (1 # 10))) as [[H' ->] | [H' ->]]; nra. }
  assert (Hge : (T <= Media.duration (Media.Concat clips))%Q).
  { rewrite Hvid. apply Q.le_max_l. }
  set (t := Media.py_min (Media.duration aud) (Media.duration (Media.Concat clips))).
  assert (Ht : (t == T)%Q).
  { subst t. destruct (py_min_cases (Media.duration aud)
                         (Media.duration (Media.Concat clips)))
      as [[H ->] | [H ->]]; [fold T in H; lra | reflexivity]. }
  exists clips, t.
  rewrite (subclip_from_0 aud t HT) by (rewrite Ht; exact HT).
  split; [reflexivity|].
  split; [subst clips; apply image_clips_length|].
  split.
  { eapply Forall_impl; [|exact Hall]. cbn beta. intros c Hc. rewrite Hc.
    fold base. fold len. apply py_max_Qmax. }
  split; [exact Hvid|]. split; [exact Ht | reflexivity].
Qed.

(** ** A segment in videos mode: two reconciled halves under the narration *)

Section VideoSegment.

Import Media.
Local Open Scope Q_scope.



End VideoSegment.


(** ** What a generation leaves in the cache *)

Section GeneratedAndCached.

Import Llm.

Variable llm : payload -> reply.
Variable script_key : string.

Lemma process_one_ok (ordered : list (string * string)) (result_ result' : dict)
    (existing existing' : json) (disk disk' : file) (seg text : string) :
  process_one llm (fun _ d => d) script_key ordered (result_, existing) disk (seg, text)
  = (Ok (result', existing'), disk') ->
  exists data,
    result' = dset seg data result_
    /\ cached_entry disk' script_key seg = Some data
    /\ same_elsewhere script_key seg disk disk'.
Proof.
  unfold process_one.
  destruct (prev_prompts_of existing seg (map fst ordered) []) as [prev|];
    [|discriminate].
  set (pl := Payload _ _ _ _ _ _).
  assert (Step : forall data,
    match merge_save script_key seg data disk with
    | Raise e => (Raise e, disk)
    | Ok disk0 =>
        match py_setitem existing seg data with
        | Raise e => (Raise e, disk0)
        | Ok existing_for_script =>
            (Ok (dset seg data result_, existing_for_script), disk0)
        end
    end = (Ok (result', existing'), disk') ->
    exists data,
      result' = dset seg data result_
      /\ cached_entry disk' script_key seg = Some data
      /\ same_elsewhere script_key seg disk disk').
  { intros data.
    destruct (merge_save script_key seg data disk) as [disk0|] eqn:Hm;
      [|discriminate].
    destruct (merge_save_spec _ _ _ _ _ Hm) as [Hentry Hframe].
    destruct (py_setitem existing seg data); [|discriminate].
    intros [= <- <- <-]. exists data. split; [reflexivity | split; assumption]. }
  destruct (llm pl) as [msg| |d]; [discriminate | apply Step | apply Step].
Qed.

(** Every entry of [result] is in the cache under the script, and every
    segment processed has an entry. *)
Definition all_cached (result_ : dict) (disk : file) : Prop :=
  forall seg data,
    dget seg result_ = Some data ->
    cached_entry disk script_key seg = Some data.

Lemma process_all_cached (ordered : list (string * string))
    (segs : list (string * string)) :
  forall (result_ result' : dict) (existing existing' : json) (disk disk' : file),
    process_all llm (fun _ d => d) script_key ordered segs (result_, existing) disk
    = (Ok (result', existing'), disk') ->
    all_cached result_ disk ->
    all_cached result' disk'
    /\ (forall seg, In seg (map fst segs) \/ dmem seg result_ = true ->
                    dmem seg result' = true).
Proof.
  induction segs as [|[seg text] r IH];
    intros result_ result' existing existing' disk disk'; cbn [process_all].
  - intros [= <- <- <-] Hinv. split; [exact Hinv|].
    intros seg [[] | H]; exact H.
  - destruct (process_one llm (fun _ d => d) script_key ordered (result_, existing)
                disk (seg, text)) as [[[result1 existing1]|e] disk1] eqn:H1;
      [|discriminate].
    destruct (process_one_ok _ _ _ _ _ _ _ _ _ H1) as (data & -> & Hc & Hs).
    intros Hall Hinv.
    destruct (IH _ _ _ _ _ _ Hall) as [Hinv' Hkeys].
    { intros sg d Hd.
      destruct (String.eqb_spec sg seg) as [-> | Hne].
      - rewrite dget_dset_eq in Hd. now injection Hd as <-.
      - rewrite dget_dset_ne in Hd by exact Hne.
        rewrite (proj2 Hs script_key sg (or_intror Hne)). now apply Hinv. }
    split; [exact Hinv'|].
    intros sg Hsg. apply Hkeys.
    destruct (String.eqb_spec sg seg) as [-> | Hne].
    + right. unfold dmem. now rewrite dget_dset_eq.
    + destruct Hsg as [[E | Hin] | Hmem].
      * cbn in E. congruence.
      * now left.
      * right. unfold dmem in *. now rewrite dget_dset_ne.
Qed.

Lemma prepare_segments (scripts : json) (segment : option string) (disk : file)
    (script_obj : dict)
    (ordered segs : list (string * string)) (existing : json) :
  prepare script_key scripts segment disk = Ok (ordered, segs, existing) ->
  py_getitem scripts script_key = Ok (JObj script_obj) ->
  forall seg,
    segment = Some seg \/ (segment = None /\ In seg (dkeys script_obj)) ->
    In seg (map fst segs).
Proof.
  intros Hp Hobj seg Hseg.
  destruct Hseg as [-> | [-> Hin]].
  - destruct (prepare_single (fun _ d => d) _ _ _ _ _ _ _ Hp) as [text ->].
    now left.
  - revert Hp. unfold prepare.
    destruct (py_in script_key scripts) as [present|]; [|discriminate].
    cbn [bind]. destruct (negb present); [discriminate|].
    rewrite Hobj. cbn [bind].
    destruct (py_get (load_or_empty disk) script_key (JObj [])); [|discriminate].
    cbn [bind].
    destruct (texts_from 0 (ordered_segments script_obj)) as [texts|] eqn:Ht;
      [|discriminate].
    cbn [bind]. intros [= <- <- <-].
    rewrite (texts_from_keys _ _ _ Ht). unfold ordered_segments.
    apply (Permutation_in seg (Permutation_map fst
             (Permutation_sym (sorted_perm (fun kv => seg_index (fst kv)) script_obj)))).
    exact Hin.
Qed.

End GeneratedAndCached.

(** X4: when [generate_prompts_for_script] returns, with nobody else
    writing the cache in between, every segment it was asked for (the one
    named, or every segment of the script when none is named) has an entry
    in the result, and every entry of the result is what
    [load_segment_prompts_from_disk] of src/main.py and the cache lookup of
    [run_pipeline] then read back for that script and segment. *)
Theorem generated_prompts_are_read_back
    (llm : Llm.payload -> Llm.reply) (script_key : string) (scripts : json)
    (script_obj : dict) (segment : option string) (disk disk' : file)
    (out : dict) :
  Llm.generate_prompts_for_script llm (fun _ d => d) script_key scripts segment
    disk = (Ok out, disk') ->
  py_getitem scripts script_key = Ok (JObj script_obj) ->
  (forall seg,
     segment = Some seg \/ (segment = None /\ In seg (dkeys script_obj)) ->
     dmem seg out = true)
  /\ (forall seg data,
        dget seg out = Some data ->
        Cli.load_segment_prompts_from_disk disk' script_key seg = Ok data
        /\ Server.cached_prompts disk' script_key seg = data).
Proof.
  unfold Llm.generate_prompts_for_script. intros Hgen Hobj.
  destruct (Llm.prepare script_key scripts segment disk)
    as [[[ordered segs] existing]|] eqn:Hp; [|discriminate].
  destruct (Llm.process_all llm (fun _ d => d) script_key ordered segs
              ([], existing) disk) as [[[result' existing']|e] disk1] eqn:Hall;
    [|discriminate].
  injection Hgen as <- <-.
  destruct (process_all_cached llm script_key _ _ _ _ _ _ _ _ Hall) as [Hinv Hkeys].
  { intros sg d Hd. discriminate. }
  split.
  - intros seg Hseg. apply Hkeys. left.
    exact (prepare_segments script_key _ _ _ _ _ _ _ Hp Hobj seg Hseg).
  - intros seg data Hd. specialize (Hinv seg data Hd).
    unfold cached_entry, script_entry in Hinv.
    destruct disk1 as [| |[| | | | |all]]; try discriminate.
    destruct (dget script_key all) as [[| | | | |for_script]|] eqn:E;
      try discriminate.
    unfold Cli.load_segment_prompts_from_disk, Server.cached_prompts.
    cbn [py_get bind]. rewrite E. cbn [py_get bind]. rewrite Hinv.
    split; reflexivity.
Qed.

(** ** The continuity context of a request *)

Section Continuity.

Import Llm.

Variable existing : json.
Variable segment_key : string.

Definition earlier_cached (keys : list string) (sk : string) (v : json) : Prop :=
  In sk keys
  /\ seg_index sk < seg_index segment_key
  /\ py_getitem existing sk = Ok v.

Lemma prev_prompts_of_acc (keys : list string) :
  forall acc prev : dict,
    prev_prompts_of existing segment_key keys acc = Ok prev ->
    (forall sk v, dget sk acc = Some v -> py_getitem existing sk = Ok v) ->
    forall sk v,
      dget sk prev = Some v <-> (dget sk acc = Some v \/ earlier_cached keys sk v).
Proof.
  induction keys as [|sk0 r IH]; intros acc prev; cbn [prev_prompts_of].
  - intros [= <-] _ sk v. unfold earlier_cached. cbn [In]. tauto.
  - destruct (seg_index sk0 <? seg_index segment_key) eqn:Hidx.
    + destruct (py_in sk0 existing) as [present|] eqn:Hin; [|discriminate].
      cbn [bind]. destruct present.
      * destruct (py_getitem existing sk0) as [v0|] eqn:Hget; [|discriminate].
        cbn [bind]. intros Hrec Hacc sk v.
        rewrite (IH _ _ Hrec).
        2:{ intros sk' v' H'. destruct (String.eqb_spec sk' sk0) as [-> | Hne].
            - rewrite dget_dset_eq in H'. now injection H' as <-.
            - rewrite dget_dset_ne in H' by exact Hne. now apply Hacc. }
        unfold earlier_cached. cbn [In].
        destruct (String.eqb_spec sk sk0) as [-> | Hne].
        -- rewrite dget_dset_eq. split.
           ++ intros [[= <-] | (Hr & Hlt & Hv)].
              ** right. split; [now left|]. split; [now apply Z.ltb_lt | exact Hget].
              ** right. split; [now left | split; assumption].
           ++ intros [Ha | (_ & _ & Hv)]; left.
              ** apply Hacc in Ha. congruence.
              ** congruence.
        -- rewrite dget_dset_ne by exact Hne. split.
           ++ intros [Ha | (Hr & Hlt & Hv)]; [now left|].
              right. split; [now right | split; assumption].
           ++ intros [Ha | ([E | Hr] & Hlt & Hv)]; [now left | congruence |].
              right. split; [exact Hr | split; assumption].
      * intros Hrec Hacc sk v. rewrite (IH _ _ Hrec Hacc).
        unfold earlier_cached. cbn [In]. split.
        -- intros [Ha | (Hr & Hlt & Hv)]; [now left|].
           right. split; [now right | split; assumption].
        -- intros [Ha | ([E | Hr] & Hlt & Hv)]; [now left | |].
           ++ subst sk0. apply py_getitem_in in Hv. congruence.
           ++ right. split; [exact Hr | split; assumption].
    + intros Hrec Hacc sk v. rewrite (IH _ _ Hrec Hacc).
      unfold earlier_cached. cbn [In]. split.
      * intros [Ha | (Hr & Hlt & Hv)]; [now left|].
        right. split; [now right | split; assumption].
      * intros [Ha | ([E | Hr] & Hlt & Hv)]; [now left | |].
        -- subst sk0. apply Z.ltb_ge in Hidx. lia.
        -- right. split; [exact Hr | split; assumption].
Qed.

End Continuity.

(** X5: the continuity context that [generate_prompts_for_script] builds
    for a segment ([prev_prompts]) holds exactly the cached prompts of the
    segments of the script whose number is strictly smaller than the number
    of the current segment: nothing of the segment itself or of a later
    one, and nothing that is not in the cache of the script. *)
Theorem previous_prompts_are_the_earlier_ones
    (existing : json) (segment_key : string) (keys : list string) (prev : dict) :
  Llm.prev_prompts_of existing segment_key keys [] = Ok prev ->
  forall (sk : string) (v : json),
    dget sk prev = Some v
    <-> (In sk keys
         /\ Llm.seg_index sk < Llm.seg_index segment_key
         /\ py_getitem existing sk = Ok v).
Proof.
  intros H sk v.
  rewrite (prev_prompts_of_acc existing segment_key keys [] prev H)
    by (intros ? ? [=]).
  unfold earlier_cached. cbn [dget]. split; [intros [[=] | H']; exact H' | now right].
Qed.

(** ** Slugs of slugs *)

Section SlugAgain.

Import Main.

Lemma str_take_take (n : nat) (s : string) :
  str_take n (str_take n s) = str_take n s.
Proof.
  revert s. induction n as [|n IH]; intros [|c s]; cbn; try reflexivity.
  now rewrite IH.
Qed.

Lemma lstrip_slug (x : string) : str_forall slug_char x = true -> lstrip x = x.
Proof.
  destruct x as [|c x]; [reflexivity|]. cbn. intros H.
  apply andb_true_iff in H as [Hc _]. now rewrite (slug_char_not_space c Hc).
Qed.

Lemma strip_slug (x : string) : str_forall slug_char x = true -> strip x = x.
Proof.
  intros H. unfold strip, rstrip. rewrite (lstrip_slug x H).
  rewrite lstrip_slug by now apply str_forall_rev.
  apply str_rev_involutive.
Qed.

Lemma hyphenate_slug (x : string) :
  str_forall slug_char x = true -> hyphenate x = x.
Proof.
  intros H. destruct x as [|c x]; [reflexivity|]. unfold hyphenate.
  rewrite <- (append_empty_r (String c x)) at 1.
  rewrite hyphenate_from_word by (try discriminate; exact H).
  apply append_empty_r.
Qed.

End SlugAgain.

(** X6: [slugify] changes nothing in a slug: applied to one of its own
    results, with the same length limit, it returns that result (whatever
    UUID the second call would draw). *)
Theorem slugify_of_a_slug (uuid4 uuid4' : N) (text : string) (max_len : nat) :
  Main.slugify uuid4' (Main.slugify uuid4 text max_len) max_len
  = Main.slugify uuid4 text max_len.
Proof.
  destruct (slug_before_cut uuid4 text) as [Hchars Hne].
  unfold Main.slugify at 2.
  set (slug := if Main.is_empty _ then _ else _) in *.
  assert (Hcut : str_forall slug_char (str_take max_len slug) = true)
    by now apply str_forall_take.
  unfold Main.slugify.
  rewrite (str_filter_all Main.slug_keep).
  2:{ revert Hcut. generalize (str_take max_len slug).
      induction s as [|c s IH]; cbn; [reflexivity|].
      intros H. apply andb_true_iff in H as [Hc Hs].
      now rewrite (slug_char_keep c Hc), IH. }
  rewrite (strip_slug _ Hcut).
  unfold lower. rewrite (str_map_fixed lower_char slug_char _ slug_char_lower Hcut).
  rewrite (hyphenate_slug _ Hcut).
  destruct (str_take max_len slug) as [|c s] eqn:E.
  - cbn [Main.is_empty]. destruct max_len as [|n]; [reflexivity|].
    destruct slug; [congruence | discriminate].
  - cbn [Main.is_empty]. rewrite <- E. apply str_take_take.
Qed.

(** ** What a completed run leaves behind *)

Section Completed.

Import Server Media.

(** A computation started in a state that satisfies [P] and that returns
    leaves a state and a value that satisfy [Q]. *)
Definition triple {A : Type} (P : state -> Prop) (m : M A)
    (Q : A -> state -> Prop) : Prop :=
  forall st a st', P st -> m st = (Ok a, st') -> Q a st'.

Lemma triple_bind {A B : Type} (P : state -> Prop) (m : M A) (k : A -> M B)
    (Q1 : A -> state -> Prop) (Q : B -> state -> Prop) :
  triple P m Q1 -> (forall a, triple (Q1 a) (k a) Q) -> triple P (mbind m k) Q.
Proof.
  intros Hm Hk st b st' HP H.
  apply mbind_inv in H as [(a & st1 & H1 & H2) | (e & _ & [=])].
  exact (Hk a st1 b st' (Hm _ _ _ HP H1) H2).
Qed.

Lemma triple_skip {A B : Type} (m : M A) (k : A -> M B)
    (Q : B -> state -> Prop) :
  (forall a, triple (fun _ => True) (k a) Q) ->
  triple (fun _ => True) (mbind m k) Q.
Proof.
  intros Hk. apply (triple_bind _ _ _ (fun _ _ => True)); [|exact Hk].
  intros st a st' _ _. exact I.
Qed.

Lemma triple_ret {A : Type} (P : state -> Prop) (a : A)
    (Q : A -> state -> Prop) :
  (forall st, P st -> Q a st) -> triple P (ret a) Q.
Proof. intros H st a' st' HP [= <- <-]. now apply H. Qed.

Variable w : world.
Variable scripts : json.
Variable script_key : string.
Variable selected_script : dict.
Variable session_dir : string.
Variable voice : string.
Variable mode : string.
Variable total : Z.

(** The file of the video of a segment. *)
Definition segment_video (seg_key : string) : string :=
  path_join (path_join (path_join session_dir "segments") seg_key)
    (seg_key ++ ".mp4").

(** The output of a segment is the file of its video, and that file has
    been written. *)
Definition segment_written (seg_key : string) (out : string * clip)
    (st : state) : Prop :=
  fst out = segment_video seg_key /\ In (WriteVideo (fst out) (snd out)) (log st).

Lemma segment_stages_written (seg_key seg_text : string) :
  triple (fun _ => True)
    (segment_stages w scripts script_key session_dir voice mode seg_key seg_text)
    (segment_written seg_key).
Proof.
  unfold segment_stages.
  do 7 (apply triple_skip; intros ?).
  intros st out st' _ H.
  apply mbind_inv in H as [(u & st1 & H1 & H2) | (e & _ & [=])].
  apply emit_inv in H1 as [_ ->]. injection H2 as <- <-.
  split; [reflexivity|]. cbn [fst snd log]. apply in_or_app. right. now left.
Qed.

Lemma process_segment_written (i : Z) (seg_key : string) :
  triple (fun _ => True)
    (process_segment w scripts script_key selected_script session_dir voice
       mode total i seg_key)
    (segment_written seg_key).
Proof.
  unfold process_segment.
  do 5 (apply triple_skip; intros ?).
  eapply triple_bind; [apply segment_stages_written|].
  intros out st b st' [Hname Hin] H.
  apply update_write_inv in H. injection H as <- <-.
  split; [exact Hname|]. cbn [log]. apply in_or_app. now left.
Qed.

Lemma segments_loop_written (seg_keys : list string) :
  forall (i : Z) (acc : list (string * clip)) (keys_done : list string),
    triple
      (fun st => Forall2 (fun k out => segment_written k out st) keys_done acc)
      (segments_loop w scripts script_key selected_script session_dir voice
         mode total i seg_keys acc)
      (fun outs st =>
         Forall2 (fun k out => segment_written k out st)
           (keys_done ++ seg_keys) outs).
Proof.
  induction seg_keys as [|k keys IH]; intros i acc keys_done; cbn [segments_loop].
  - apply triple_ret. intros st H. now rewrite app_nil_r.
  - intros st outs st' Hacc H.
    apply mbind_inv in H as [(out & st1 & H1 & H2) | (e & _ & [=])].
    pose proof (process_segment_written i k st out st1 I H1) as Hout.
    destruct (grows_process_segment w scripts script_key selected_script
                session_dir voice mode total i k st _ _ H1) as [l Hl].
    replace (keys_done ++ k :: keys)%list with ((keys_done ++ [k]) ++ keys)%list
      by now rewrite <- app_assoc.
    apply (IH (i + 1) (acc ++ [out])%list (keys_done ++ [k])%list st1 outs st');
      [|exact H2].
    apply Forall2_app; [|constructor; [exact Hout | constructor]].
    eapply Forall2_impl; [|exact Hacc].
    intros k' o' [Hn Hi]. split; [exact Hn|]. rewrite Hl. apply in_or_app. now left.
Qed.

End Completed.

(** The state in which a run that returns ends: the loop has left the
    video of every segment, in the natural order of the segments, and the
    run has then written the final video, transcribed it, written the
    subtitled video and marked the status completed. *)
Lemma completed_run_state
    (w : Server.world) (session_exists : bool)
    (scripts_file status_file prompts_file : file)
    (session_id script_key : string) (voice : option string) (mode : string)
    (st : Server.state) :
  Server.run_pipeline w session_exists scripts_file status_file prompts_file
    session_id script_key voice mode = (Ok tt, st) ->
  exists (scripts : json) (selected : dict) (outs : list (string * Media.clip))
         (st1 : Server.state) (items : list Media.item),
    scripts_file = Holds scripts
    /\ py_getitem scripts script_key = Ok (JObj selected)
    /\ let session_dir := Server.path_join (Server.sessions_root w) session_id in
       let seg_keys := Main.natural_segment_order (dkeys selected) in
       let final_output := Server.path_join session_dir "final_output.mp4" in
       let subtitled_output :=
         Server.path_join session_dir "final_output_subtitled.mp4" in
       let final := Media.Concat (map snd outs) in
       let last_status :=
         dupdate (Server.status st1)
           [("state", JStr "completed");
            ("artifacts",
             JObj [("final", JStr final_output);
                   ("subtitled", JStr subtitled_output);
                   ("segments", JArr (map (fun o => JStr (fst o)) outs))])] in
       Forall2 (fun k out => segment_written session_dir k out st1) seg_keys outs
       /\ st = Server.State last_status (Server.prompts_file st1)
                 (Server.log st1
                  ++ [Server.WriteVideo final_output final;
                      Server.Transcribe final_output;
                      Server.WriteSubtitled subtitled_output
                        (Media.burn_subtitles_from_items (Media.duration final)
                           items);
                      Server.WriteStatus last_status]).
Proof.
  intros H.
  apply run_pipeline_cases in H
    as [[[e [=]] _] | (scripts & selected & prev & voice' & mode' & -> & Hsel & _ & H)].
  cbv zeta in H |- *.
  set (session_dir := Server.path_join (Server.sessions_root w) session_id) in *.
  set (seg_keys := Main.natural_segment_order (dkeys selected)) in *.
  apply try_except_inv in H as [[_ H] | (e & st1 & [=] & _)].
  unfold Server.try_body in H.
  apply mbind_inv in H as [(outs & st1 & Hloop & H) | (e & _ & [=])].
  pose proof (segments_loop_written w scripts script_key selected session_dir
                voice' mode' _ seg_keys 1 [] [] _ _ _ (Forall2_nil _) Hloop)
    as Houts.
  cbn [app] in Houts.
  apply mbind_inv in H as [(final & st2 & H2 & H) | (e & _ & [=])].
  injection H2 as Hfinal <-.
  apply mbind_inv in H as [(u3 & st3 & H3 & H) | (e & _ & [=])].
  apply emit_inv in H3 as [_ ->].
  apply mbind_inv in H as [(items & st4 & H4 & H) | (e & _ & [=])].
  apply call_inv in H4 as [_ ->].
  apply mbind_inv in H as [(u5 & st5 & H5 & H) | (e & _ & [=])].
  apply emit_inv in H5 as [_ ->].
  apply mbind_inv in H as [(u6 & st6 & H6 & H) | (e & _ & [=])].
  apply update_status_inv in H6 as [_ ->].
  apply write_status_inv in H as [_ ->].
  cbn [Server.status Server.log Server.prompts_file].
  assert (Econcat : final = Media.Concat (map snd outs)).
  { unfold Media.concatenate_segments in Hfinal.
    destruct (map snd outs); [discriminate | now injection Hfinal as <-]. }
  subst final.
  exists scripts, selected, outs, st1, items.
  split; [reflexivity|]. split; [exact Hsel|]. split; [exact Houts|].
  now rewrite <- !app_assoc.
Qed.


(** ** A run that is refused *)



(** ** The choice of a script (src/main.py) *)

Section MenuFacts.

Import PyStr Menu.

Lemma choose_in (ordered : list string) (inputs : list string) :
  forall k rest,
    choose ordered inputs = (Ok k, rest) ->
    In k ordered /\ exists read, inputs = (read ++ rest)%list /\ read <> [].
Proof.
  induction inputs as [|line r IH]; intros k rest; cbn [choose]; [discriminate|].
  assert (Again : choose ordered r = (Ok k, rest) ->
                  In k ordered
                  /\ exists read, line :: r = (read ++ rest)%list /\ read <> []).
  { intros H. destruct (IH _ _ H) as (Hin & read & -> & _).
    split; [exact Hin|]. exists (line :: read). split; [reflexivity | discriminate]. }
  destruct (py_int (strip line)) as [choice|]; [|exact Again].
  destruct ((1 <=? choice) && (choice <=? Z.of_nat (List.length ordered)))%bool
    eqn:E; [|exact Again].
  apply andb_true_iff in E as [H1 H2].
  apply Z.leb_le in H1. apply Z.leb_le in H2.
  intros [= <- <-]. split.
  - apply nth_In. lia.
  - exists [line]. split; [reflexivity | discriminate].
Qed.

Lemma valid_scripts_in (scripts : dict) (k : string) :
  In k (dkeys (valid_scripts scripts)) ->
  exists segments, In (k, JObj segments) scripts.
Proof.
  unfold dkeys, valid_scripts. intros H.
  apply in_map_iff in H as ([k' v] & <- & Hin).
  apply filter_In in Hin as [Hin Hv]. cbn [snd] in Hv.
  destruct v as [| | | | |segments]; try discriminate.
  now exists segments.
Qed.

End MenuFacts.

(** X9: the key that [pick_script_key] returns is always the name of one
    of the scripts whose value is an object (a script the model marked
    "ERROR" is never offered nor returned), and it is returned only after
    at least one line of input has been read.  When no script is an
    object, the function raises "No valid scripts returned from LLM."
    without reading any input. *)
Theorem pick_script_key_returns_a_segmented_script
    (scripts : json) (inputs : list string) :
  (forall k rest,
     Menu.pick_script_key scripts inputs = (Ok k, rest) ->
     exists d segments read,
       scripts = JObj d
       /\ In (k, JObj segments) d
       /\ inputs = (read ++ rest)%list /\ read <> [])
  /\ (forall d,
        scripts = JObj d ->
        Forall (fun kv => Menu.is_dict (snd kv) = false) d ->
        Menu.pick_script_key scripts inputs
        = (Raise "No valid scripts returned from LLM.", inputs)).
Proof.
  split.
  - intros k rest H. unfold Menu.pick_script_key in H.
    destruct scripts as [| | | | |d]; try discriminate.
    destruct (Menu.valid_scripts d) as [|kv valid] eqn:Ev; [discriminate|].
    rewrite <- Ev in H.
    destruct (Menu.print_menu _ _); [|discriminate].
    apply choose_in in H as (Hin & read & Hread & Hne).
    unfold Menu.ordered_keys in Hin.
    apply (Permutation_in _ (sorted_perm Main.seg_key _)) in Hin.
    apply valid_scripts_in in Hin as [segments Hin].
    exists d, segments, read. repeat split; assumption.
  - intros d -> Hall. unfold Menu.pick_script_key.
    replace (Menu.valid_scripts d) with (@nil (string * json)); [reflexivity|].
    symmetry. unfold Menu.valid_scripts.
    induction Hall as [|kv r Hkv _ IH]; cbn [filter]; [reflexivity|].
    now rewrite Hkv.
Qed.

(** X10: the prompt of [pick_script_key] is repeated until a line holds a
    number between 1 and the number of scripts offered: every line before
    it that is not a number, or whose number is out of range, is skipped,
    and the answer is the script at that place in the list; the lines
    after it are left unread. *)
Theorem choose_skips_invalid_lines
    (ordered : list string) (bad : list string) (good : string)
    (rest : list string) (choice : Z) :
  Forall (fun line =>
            match PyStr.py_int (strip line) with
            | Some c => c < 1 \/ Z.of_nat (List.length ordered) < c
            | None => True
            end) bad ->
  PyStr.py_int (strip good) = Some choice ->
  1 <= choice <= Z.of_nat (List.length ordered) ->
  Menu.choose ordered (bad ++ good :: rest)
  = (Ok (nth (Z.to_nat (choice - 1)) ordered EmptyString), rest).
Proof.
  intros Hbad Hgood Hrange.
  induction Hbad as [|line r Hline _ IH]; cbn [app Menu.choose].
  - rewrite Hgood.
    replace ((1 <=? choice) && (choice <=? Z.of_nat (List.length ordered)))%bool
      with true; [reflexivity|].
    symmetry. apply andb_true_iff. split; apply Z.leb_le; lia.
  - destruct (PyStr.py_int (strip line)) as [c|]; [|exact IH].
    replace ((1 <=? c) && (c <=? Z.of_nat (List.length ordered)))%bool
      with false; [exact IH|].
    symmetry. apply andb_false_iff.
    destruct Hline; [left; apply Z.leb_gt | right; apply Z.leb_gt]; lia.
Qed.

(** ** Paths *)

Section PathFacts.

Import PyStr OsPath.

Definition not_slash (c : ascii) : bool := negb (Ascii.eqb c "/").

(** A name without slash, and a name that is a component of a path:
    without slash, not empty, and neither [.] nor [..]. *)
Definition slash_free (s : string) : Prop := str_forall not_slash s = true.

Definition plain (s : string) : Prop :=
  slash_free s /\ s <> "" /\ s <> "." /\ s <> "..".

Lemma split_nonempty (sep : ascii) (s : string) : split sep s <> [].
Proof.
  destruct s as [|c r]; cbn [split]; [discriminate|].
  destruct (Ascii.eqb c sep); [discriminate|].
  destruct (split sep r); discriminate.
Qed.

Lemma split_app (sep : ascii) (a b : string) :
  split sep (a ++ String sep b) = (split sep a ++ split sep b)%list.
Proof.
  induction a as [|c a IH]; cbn [append split].
  - now rewrite Ascii.eqb_refl.
  - destruct (Ascii.eqb c sep); [now rewrite IH|].
    rewrite IH. destruct (split sep a) as [|p ps] eqn:E; [|reflexivity].
    now destruct (split_nonempty sep a).
Qed.

Lemma split_slash_free (s : string) : slash_free s -> split "/" s = [s].
Proof.
  unfold slash_free. induction s as [|c s IH]; cbn [split str_forall];
    [reflexivity|].
  intros H. apply andb_true_iff in H as [Hc Hs]. unfold not_slash in Hc.
  apply negb_true_iff in Hc. rewrite Hc, (IH Hs). reflexivity.
Qed.

Lemma concat_cons (x y : string) (r : list string) :
  String.concat "/" (x :: y :: r) = x ++ "/" ++ String.concat "/" (y :: r).
Proof. reflexivity. Qed.

Lemma concat_app (l1 l2 : list string) :
  l1 <> [] -> l2 <> [] ->
  String.concat "/" (l1 ++ l2) = String.concat "/" l1 ++ "/" ++ String.concat "/" l2.
Proof.
  intros H1 H2. induction l1 as [|x [|y r] IH]; [congruence | |].
  - destruct l2 as [|z l2]; [congruence|]. reflexivity.
  - change ((x :: y :: r) ++ l2)%list with (x :: y :: (r ++ l2))%list.
    rewrite !concat_cons.
    change (y :: (r ++ l2))%list with ((y :: r) ++ l2)%list.
    rewrite IH by discriminate. now rewrite !str_append_assoc.
Qed.

Lemma split_concat (pieces : list string) :
  pieces <> [] -> Forall slash_free pieces ->
  split "/" (String.concat "/" pieces) = pieces.
Proof.
  intros Hne Hall. induction Hall as [|x r Hx Hr IH]; [congruence|].
  destruct r as [|y r].
  - now apply split_slash_free.
  - rewrite concat_cons.
    change (x ++ "/" ++ String.concat "/" (y :: r))
      with (x ++ String "/" (String.concat "/" (y :: r))).
    rewrite split_app, (split_slash_free x Hx), IH by discriminate. reflexivity.
Qed.

(** The absolute path with the components [cs]. *)
Definition path_of (cs : list string) : string := "/" ++ String.concat "/" cs.

Lemma plain_slash_free (s : string) : plain s -> slash_free s.
Proof. now intros [H _]. Qed.

Lemma step_plain (i : nat) (acc : list string) (c : string) :
  plain c -> normpath_step i acc c = (acc ++ [c])%list.
Proof.
  intros (_ & H0 & H1 & H2). unfold normpath_step.
  apply String.eqb_neq in H0, H1, H2. now rewrite H0, H1, H2.
Qed.

Lemma step_up (acc : list string) (c : string) :
  plain c -> normpath_step 1 (acc ++ [c]) ".." = acc.
Proof.
  intros (_ & _ & _ & H2). unfold normpath_step.
  cbn [String.eqb Ascii.eqb Bool.eqb orb negb Nat.eqb andb].
  rewrite last_last. apply String.eqb_neq in H2. rewrite H2, andb_false_r.
  apply removelast_last.
Qed.

Lemma fold_step_plain (i : nat) (cs : list string) :
  Forall plain cs ->
  forall acc, fold_left (normpath_step i) cs acc = (acc ++ cs)%list.
Proof.
  induction 1 as [|c cs Hc _ IH]; intros acc; cbn [fold_left].
  - now rewrite app_nil_r.
  - rewrite (step_plain i acc c Hc), IH, <- app_assoc. reflexivity.
Qed.

Lemma first_not_slash (s r : string) :
  slash_free s -> s <> "" -> String.prefix "/" (s ++ r) = false.
Proof.
  destruct s as [|c s]; [congruence|]. intros H _.
  unfold slash_free in H. cbn [str_forall] in H.
  apply andb_true_iff in H as [Hc _]. unfold not_slash in Hc.
  apply negb_true_iff in Hc. cbn [append String.prefix].
  destruct (ascii_dec "/" c) as [<- | Hne]; [|reflexivity].
  now rewrite Ascii.eqb_refl in Hc.
Qed.

Lemma concat_head (pieces : list string) :
  pieces <> [] ->
  exists rest, String.concat "/" pieces = hd "" pieces ++ rest.
Proof.
  destruct pieces as [|x [|y r]]; [congruence | |]; intros _.
  - exists "". cbn. now rewrite append_empty_r.
  - eexists. rewrite concat_cons. reflexivity.
Qed.

(** [normpath] on an absolute path given by its pieces. *)
Lemma normpath_path_of (pieces : list string) :
  pieces <> [] -> Forall slash_free pieces -> hd "" pieces <> "" ->
  normpath (path_of pieces)
  = path_of (fold_left (normpath_step 1) pieces []).
Proof.
  intros Hne Hall Hhd. unfold normpath, path_of.
  cbn [append String.eqb].
  assert (Hinit : initial_slashes (String "/" (String.concat "/" pieces)) = 1%nat).
  { unfold initial_slashes. cbn [String.prefix].
    destruct (ascii_dec "/" "/") as [_|n]; [|now destruct n].
    destruct (concat_head pieces Hne) as [rest ->].
    rewrite first_not_slash; [now destruct (hd "" pieces ++ rest) | | exact Hhd].
    destruct pieces; [congruence|]. now inversion Hall. }
  rewrite Hinit. cbn [split Ascii.eqb Bool.eqb].
  rewrite (split_concat pieces Hne Hall).
  cbn [fold_left normpath_step String.eqb orb slashes append]. reflexivity.
Qed.

Lemma last_char (s : string) :
  s <> "" -> exists s' c, s = s' ++ String c "".
Proof.
  induction s as [|c s IH]; [congruence|]. intros _.
  destruct s as [|d s].
  - now exists "", c.
  - destruct IH as (s' & c' & E); [discriminate|].
    exists (String c s'), c'. cbn [append]. now rewrite <- E.
Qed.

Lemma ends_with_slash_last (s' : string) (c : ascii) :
  Server.ends_with_slash (s' ++ String c "") = Ascii.eqb c "/".
Proof. unfold Server.ends_with_slash. now rewrite str_rev_app. Qed.

Lemma ends_with_slash_inv (a : string) :
  Server.ends_with_slash a = true -> exists a', a = a' ++ "/".
Proof.
  destruct a as [|x a]; [discriminate|].
  destruct (last_char (String x a)) as (s' & c & E); [discriminate|].
  rewrite E, ends_with_slash_last. intros H.
  apply Ascii.eqb_eq in H. subst c. now exists s'.
Qed.

Lemma slash_free_app (a b : string) :
  slash_free (a ++ b) <-> slash_free a /\ slash_free b.
Proof. unfold slash_free. rewrite str_forall_app. apply andb_true_iff. Qed.

Lemma path_of_no_final_slash (cs : list string) :
  cs <> [] -> Forall plain cs -> Server.ends_with_slash (path_of cs) = false.
Proof.
  intros Hne Hall.
  destruct (exists_last Hne) as (cs' & c & ->).
  apply Forall_app in Hall as [_ Hc]. inversion Hc as [|? ? (Hfree & Hc0 & _) _]; subst.
  destruct (last_char c Hc0) as (s' & x & ->).
  apply slash_free_app in Hfree as [_ Hx].
  unfold slash_free in Hx. cbn [str_forall] in Hx. rewrite andb_true_r in Hx.
  unfold not_slash in Hx. apply negb_true_iff in Hx.
  unfold path_of. destruct cs' as [|y r].
  - cbn [app String.concat]. rewrite <- str_append_assoc.
    now rewrite ends_with_slash_last.
  - rewrite concat_app by discriminate. cbn [String.concat].
    rewrite <- !str_append_assoc. now rewrite ends_with_slash_last.
Qed.

(** [os.path.join] of an absolute path and a relative one, by pieces. *)
Lemma join_path_of (cs rel : list string) :
  cs <> [] -> Forall plain cs ->
  rel <> [] -> Forall slash_free rel -> hd "" rel <> "" ->
  join (path_of cs) (String.concat "/" rel) = path_of (cs ++ rel).
Proof.
  intros Hcs Hplain Hrel Hfree Hhd. unfold join, Server.path_join.
  destruct (concat_head rel Hrel) as [rest E]. rewrite E at 1.
  rewrite first_not_slash; [| |exact Hhd].
  2:{ destruct rel; [congruence|]. now inversion Hfree. }
  rewrite (path_of_no_final_slash cs Hcs Hplain).
  cbn [String.eqb path_of append orb].
  unfold path_of. rewrite (concat_app cs rel Hcs Hrel). reflexivity.
Qed.

Lemma basename_after_slash (a b : string) :
  slash_free b -> basename (a ++ "/" ++ b) = b.
Proof.
  intros Hb. unfold basename.
  change (a ++ "/" ++ b) with (a ++ String "/" b).
  rewrite split_app, (split_slash_free b Hb). apply last_last.
Qed.

Lemma basename_join (a b : string) :
  slash_free b -> b <> "" -> basename (join a b) = b.
Proof.
  intros Hb Hne. unfold join, Server.path_join.
  rewrite <- (append_empty_r b) at 1. rewrite (first_not_slash b "" Hb Hne).
  destruct (String.eqb a "") eqn:Ea; cbn [orb].
  - apply String.eqb_eq in Ea. subst a. cbn [append].
    unfold basename. now rewrite (split_slash_free b Hb).
  - destruct (Server.ends_with_slash a) eqn:Es.
    + apply ends_with_slash_inv in Es as [a' ->].
      rewrite str_append_assoc. now apply basename_after_slash.
    + now apply basename_after_slash.
Qed.

End PathFacts.

(** ** Artifacts of a session (src/api/server.py) *)

Section ArtifactFacts.

Import PyStr OsPath Endpoints.

Lemma prefix_nil (s : string) : String.prefix "" s = true.
Proof. now destruct s. Qed.

Lemma prefix_app (a b c : string) :
  String.prefix (a ++ b) (a ++ c) = String.prefix b c.
Proof.
  induction a as [|x a IH]; cbn [append String.prefix]; [reflexivity|].
  destruct (ascii_dec x x) as [_|n]; [exact IH | now destruct n].
Qed.

Lemma prefix_before_slash (sid other tail : string) :
  slash_free sid ->
  String.prefix sid (other ++ String "/" tail) = String.prefix sid other.
Proof.
  unfold slash_free. revert other.
  induction sid as [|c s IH]; intros other H.
  - now rewrite !prefix_nil.
  - cbn [str_forall] in H. apply andb_true_iff in H as [Hc Hs].
    destruct other as [|d o]; cbn [append String.prefix].
    + destruct (ascii_dec c "/") as [-> | _]; [discriminate | reflexivity].
    + destruct (ascii_dec c d); [now apply IH | reflexivity].
Qed.

Lemma path_of_snoc (cs : list string) (x : string) :
  cs <> [] -> path_of (cs ++ [x]) = path_of cs ++ "/" ++ x.
Proof.
  intros H. unfold path_of. rewrite concat_app by (assumption || discriminate).
  cbn [String.concat]. now rewrite str_append_assoc.
Qed.

Lemma path_of_app (cs rel : list string) :
  cs <> [] -> rel <> [] ->
  path_of (cs ++ rel) = path_of cs ++ "/" ++ String.concat "/" rel.
Proof.
  intros H1 H2. unfold path_of. rewrite concat_app by assumption.
  now rewrite str_append_assoc.
Qed.

Lemma app_cons_nonempty {A : Type} (l : list A) (x : A) (r : list A) :
  (l ++ x :: r)%list <> [].
Proof. intros E. symmetry in E. exact (app_cons_not_nil _ _ _ E). Qed.

Lemma plain_pieces (cs : list string) : Forall plain cs -> Forall slash_free cs.
Proof. apply Forall_impl. exact plain_slash_free. Qed.

Lemma hd_plain (cs rest : list string) :
  cs <> [] -> Forall plain cs -> hd "" (cs ++ rest) <> "".
Proof.
  destruct cs as [|c cs]; [congruence|]. intros _ H.
  inversion H as [|? ? (_ & Hc & _) _]; subst. exact Hc.
Qed.

Lemma normpath_plain (cs : list string) :
  cs <> [] -> Forall plain cs -> normpath (path_of cs) = path_of cs.
Proof.
  intros Hne Hall.
  rewrite normpath_path_of;
    [| exact Hne | now apply plain_pieces
     | rewrite <- (app_nil_r cs); now apply hd_plain].
  now rewrite fold_step_plain.
Qed.

Lemma abspath_plain (cwd : string) (cs : list string) :
  cs <> [] -> Forall plain cs -> abspath cwd (path_of cs) = path_of cs.
Proof.
  intros Hne Hall. unfold abspath, isabs.
  change (String.prefix "/" (path_of cs)) with (String.prefix "" (String.concat "/" cs)).
  rewrite prefix_nil. now apply normpath_plain.
Qed.

Variable disk : fs.
Variable cwd : string.
Variable cs : list string.
Variable sid : string.

Hypothesis cs_nonempty : cs <> [].
Hypothesis cs_plain : Forall plain cs.
Hypothesis sid_plain : plain sid.

(** What the endpoint answers once the path has passed the guard. *)
Definition served (target : string) : http file_response :=
  if (exists_ disk target && isfile disk target)%bool
  then Respond (FileResponse target
                  (guess_media_type (lower (snd (splitext target))))
                  (basename target))
  else HTTPException 404 "File not found".

Lemma session_dir_of : join (path_of cs) sid = path_of (cs ++ [sid]).
Proof.
  apply (join_path_of cs [sid]); try assumption; try discriminate.
  - constructor; [apply sid_plain | constructor].
  - apply sid_plain.
Qed.

(** A relative path made of ordinary names is looked up under the
    directory of the session. *)
Lemma api_get_artifact_inside (rel : list string) :
  rel <> [] -> Forall plain rel ->
  isdir disk (path_of (cs ++ [sid])) = true ->
  api_get_artifact disk cwd (path_of cs) sid (String.concat "/" rel)
  = served (path_of (cs ++ sid :: rel)).
Proof.
  intros Hrel Hplain Hdir. unfold api_get_artifact.
  rewrite session_dir_of, Hdir. cbn [negb].
  assert (Hsd : Forall plain (cs ++ [sid])).
  { apply Forall_app. split; [assumption | constructor; [assumption | constructor]]. }
  rewrite (join_path_of (cs ++ [sid]) rel);
    [| apply app_cons_nonempty | exact Hsd | exact Hrel | now apply plain_pieces
     | rewrite <- (app_nil_r rel); now apply hd_plain].
  rewrite <- app_assoc. cbn [app].
  assert (Hall : Forall plain (cs ++ sid :: rel)).
  { apply Forall_app. split; [assumption | constructor; assumption]. }
  rewrite (normpath_plain _ (app_cons_nonempty _ _ _) Hall).
  rewrite (abspath_plain cwd _ (app_cons_nonempty _ _ _) Hsd).
  replace (path_of (cs ++ sid :: rel))
    with (path_of (cs ++ [sid]) ++ "/" ++ String.concat "/" rel).
  2:{ rewrite <- path_of_app by (assumption || apply app_cons_nonempty).
      now rewrite <- app_assoc. }
  rewrite <- (append_empty_r (path_of (cs ++ [sid]))) at 1.
  rewrite prefix_app, prefix_nil. cbn [negb].
  unfold served. now destruct (exists_ disk _), (isfile disk _).
Qed.

(** A relative path that leaves the directory of the session for a
    neighbour [other] passes the guard exactly when the name of the
    session is a prefix of the name [other]. *)
Lemma api_get_artifact_neighbour (other f : string) :
  plain other -> plain f ->
  isdir disk (path_of (cs ++ [sid])) = true ->
  api_get_artifact disk cwd (path_of cs) sid ("../" ++ other ++ "/" ++ f)
  = if String.prefix sid other
    then served (path_of (cs ++ [other; f]))
    else HTTPException 400 "Invalid path".
Proof.
  intros Hother Hf Hdir. unfold api_get_artifact.
  rewrite session_dir_of, Hdir. cbn [negb].
  assert (Hsd : Forall plain (cs ++ [sid])).
  { apply Forall_app. split; [assumption | constructor; [assumption | constructor]]. }
  assert (Hup : slash_free "..") by reflexivity.
  change ("../" ++ other ++ "/" ++ f) with (String.concat "/" [".."; other; f]).
  rewrite (join_path_of (cs ++ [sid]) [".."; other; f]);
    [| apply app_cons_nonempty | exact Hsd | discriminate
     | repeat constructor; (exact Hup || apply Hother || apply Hf)
     | discriminate].
  rewrite normpath_path_of;
    [| apply app_cons_nonempty
     | apply Forall_app; split;
       [now apply plain_pieces
       | repeat constructor; (exact Hup || apply Hother || apply Hf)]
     | rewrite <- app_assoc; now apply hd_plain].
  rewrite !fold_left_app, (fold_step_plain 1 cs cs_plain). cbn [app fold_left].
  rewrite (step_plain 1 cs sid sid_plain), (step_up cs sid sid_plain).
  rewrite (step_plain 1 cs other Hother), (step_plain 1 _ f Hf).
  rewrite <- app_assoc. cbn [app].
  rewrite (abspath_plain cwd _ (app_cons_nonempty _ _ _) Hsd).
  rewrite (path_of_snoc cs sid cs_nonempty).
  rewrite (path_of_app cs [other; f] cs_nonempty) by discriminate.
  rewrite prefix_app. cbn [String.concat].
  change (String.prefix ("/" ++ sid) ("/" ++ other ++ "/" ++ f))
    with (String.prefix (String "/" sid) (String "/" (other ++ String "/" f))).
  cbn [String.prefix]. destruct (ascii_dec "/" "/") as [_|n]; [|now destruct n].
  rewrite (prefix_before_slash sid other f (proj1 sid_plain)).
  destruct (String.prefix sid other); [|reflexivity].
  cbn [negb]. unfold served.
  now destruct (exists_ disk _), (isfile disk _).
Qed.

End ArtifactFacts.

(** X11: [api_get_artifact] guards against a path that leaves the
    directory of the session by comparing strings.  For a request
    [../other/f] under a sessions root [/c1/.../cn], the answer is 400
    "Invalid path" exactly when the name of the session is not a prefix of
    the name [other]; when it is a prefix (the session itself, but also
    every neighbour whose name starts with the name of the session) the
    file [f] of [other] is served if it is there, and 404 "File not found"
    is answered if it is not. *)
Theorem artifact_guard_compares_names
    (disk : Endpoints.fs) (cwd : string) (cs : list string)
    (sid other f : string) :
  cs <> [] -> Forall plain cs -> plain sid -> plain other -> plain f ->
  let sessions_root := "/" ++ String.concat "/" cs in
  let neighbour := sessions_root ++ "/" ++ other ++ "/" ++ f in
  Endpoints.isdir disk (OsPath.join sessions_root sid) = true ->
  Endpoints.api_get_artifact disk cwd sessions_root sid
    ("../" ++ other ++ "/" ++ f)
  = if String.prefix sid other
    then if (Endpoints.exists_ disk neighbour && Endpoints.isfile disk neighbour)%bool
         then Endpoints.Respond
                (Endpoints.FileResponse neighbour
                   (Endpoints.guess_media_type
                      (lower (snd (OsPath.splitext neighbour))))
                   f)
         else Endpoints.HTTPException 404 "File not found"
    else Endpoints.HTTPException 400 "Invalid path".
Proof.
  intros Hcs Hplain Hsid Hother Hf sessions_root neighbour Hdir.
  change sessions_root with (path_of cs) in *.
  rewrite (session_dir_of cs sid Hcs Hplain Hsid) in Hdir.
  rewrite (api_get_artifact_neighbour disk cwd cs sid Hcs Hplain Hsid other f
             Hother Hf Hdir).
  destruct (String.prefix sid other); [|reflexivity].
  unfold served.
  replace (path_of (cs ++ [other; f])) with neighbour.
  2:{ rewrite (path_of_app cs [other; f] Hcs) by discriminate. reflexivity. }
  replace (OsPath.basename neighbour) with f; [reflexivity|].
  symmetry. subst neighbour. rewrite <- !str_append_assoc.
  rewrite str_append_assoc. apply basename_after_slash. apply Hf.
Qed.

Section InventoryFacts.

Import PyStr OsPath Endpoints.

Variable disk : fs.
Variable base_url session_id segments_root : string.

(** The entry of a segment directory in the inventory. *)
Definition entry_of (seg : string) (files : list string) : links :=
  let url := _url base_url session_id seg in
  Links (map url (filter (has_suffix [".png"; ".jpg"; ".jpeg"]) files))
        (map url (filter (has_suffix [".mp4"]) files))
        (map url (filter (has_suffix [".mp3"; ".wav"; ".m4a"]) files)).

Lemma inventory_loop_entries (segs : list string) :
  forall acc info,
    inventory_loop disk base_url session_id segments_root segs acc = Ok info ->
    forall seg entry,
      In (seg, entry) info ->
      In (seg, entry) acc
      \/ (In seg segs
          /\ exists files,
               listdir disk (join segments_root seg) = Ok files
               /\ entry = entry_of seg files).
Proof.
  induction segs as [|s r IH]; intros acc info; cbn [inventory_loop].
  - intros [= <-] seg entry H. now left.
  - destruct (isdir disk (join segments_root s)); cbn [negb].
    + destruct (listdir disk (join segments_root s)) as [files|] eqn:El;
        [|discriminate].
      cbn [bind]. intros H seg entry Hin.
      destruct (IH _ _ H seg entry Hin) as [Hacc | (Hs & files' & Hl & He)].
      * apply in_app_or in Hacc as [Hacc | [[= <- <-] | []]]; [now left|].
        right. split; [now left|]. now exists files.
      * right. split; [now right|]. now exists files'.
    + intros H seg entry Hin.
      destruct (IH _ _ H seg entry Hin) as [Hacc | (Hs & files' & Hl & He)];
        [now left|].
      right. split; [now right|]. now exists files'.
Qed.

Lemma entry_links (seg : string) (files : list string) (url : string) :
  In url (images (entry_of seg files) ++ videos (entry_of seg files)
          ++ audios (entry_of seg files)) ->
  exists f, In f files /\ url = _url base_url session_id seg f.
Proof.
  cbn [entry_of images videos audios]. rewrite !in_app_iff, !in_map_iff.
  intros [(f & <- & Hf) | [(f & <- & Hf) | (f & <- & Hf)]];
    apply filter_In in Hf as [Hf _]; now exists f.
Qed.

End InventoryFacts.

Section SortStrings.

Import PyStr.

Lemma insert_str_perm (descending : bool) (x : string) (l : list string) :
  Permutation (insert_str descending x l) (x :: l).
Proof.
  induction l as [|y r IH]; cbn [insert_str]; [reflexivity|].
  destruct (if descending then str_le y x else str_le x y); [reflexivity|].
  rewrite IH. apply perm_swap.
Qed.

Lemma sort_strings_perm (descending : bool) (l : list string) :
  Permutation (sort_strings descending l) l.
Proof.
  induction l as [|x r IH]; cbn [sort_strings]; [reflexivity|].
  rewrite insert_str_perm. now constructor.
Qed.

End SortStrings.

Ltac plain_list :=
  apply Forall_app; split;
  [assumption | repeat (apply Forall_cons; [assumption|]); apply Forall_nil].

Lemma path_of_injective (a b : list string) :
  a <> [] -> b <> [] -> Forall slash_free a -> Forall slash_free b ->
  path_of a = path_of b -> a = b.
Proof.
  intros Ha Hb Fa Fb E. unfold path_of in E. injection E as E.
  rewrite <- (split_concat a Ha Fa), <- (split_concat b Hb Fb). now rewrite E.
Qed.

(** X12: every link that the inventory of [api_get_status] gives for a
    file [f] found in [segments/<seg>/] of the session has the form
    [<base>/api/sessions/<id>/artifact/<seg>/<f>]; followed through
    [api_get_artifact], whose path is what comes after [artifact/], it
    makes the endpoint look for [<session>/<seg>/<f>], a path without the
    [segments] directory and therefore not the file that was listed: the
    link is answered with that other file if there is one, and with 404
    "File not found" otherwise. *)
Theorem segment_links_leave_out_segments_directory
    (disk : Endpoints.fs) (cwd base_url : string) (cs : list string)
    (sid : string) (info : list (string * Endpoints.links))
    (seg : string) (entry : Endpoints.links) (url : string) :
  cs <> [] -> Forall plain cs -> plain sid ->
  (forall d names, Endpoints.listdir disk d = Ok names -> Forall plain names) ->
  let sessions_root := "/" ++ String.concat "/" cs in
  let session_dir := OsPath.join sessions_root sid in
  Endpoints.isdir disk session_dir = true ->
  Endpoints.segments_inventory disk base_url session_dir sid = Ok info ->
  In (seg, entry) info ->
  In url (Endpoints.images entry ++ Endpoints.videos entry
          ++ Endpoints.audios entry) ->
  exists (f : string) (files : list string),
    Endpoints.listdir disk
      (OsPath.join (OsPath.join session_dir "segments") seg) = Ok files
    /\ In f files
    /\ url = PyStr.rstrip_char "/" base_url ++ "/api/sessions/" ++ sid
             ++ "/artifact/" ++ (seg ++ "/" ++ f)
    /\ let listed :=
         OsPath.join (OsPath.join (OsPath.join session_dir "segments") seg) f in
       let looked_for := OsPath.join (OsPath.join session_dir seg) f in
       looked_for <> listed
       /\ Endpoints.api_get_artifact disk cwd sessions_root sid (seg ++ "/" ++ f)
          = if (Endpoints.exists_ disk looked_for
                && Endpoints.isfile disk looked_for)%bool
            then Endpoints.Respond
                   (Endpoints.FileResponse looked_for
                      (Endpoints.guess_media_type
                         (lower (snd (OsPath.splitext looked_for))))
                      f)
            else Endpoints.HTTPException 404 "File not found".
Proof.
  intros Hcs Hplain Hsid Hnames sessions_root session_dir Hdir Hinv Hentry Hurl.
  change sessions_root with (path_of cs) in *.
  assert (Esd : session_dir = path_of (cs ++ [sid]))
    by apply (session_dir_of cs sid Hcs Hplain Hsid).
  unfold Endpoints.segments_inventory in Hinv.
  destruct (Endpoints.isdir disk (OsPath.join session_dir "segments"));
    [|injection Hinv as <-; destruct Hentry].
  destruct (Endpoints.listdir disk (OsPath.join session_dir "segments"))
    as [names|] eqn:Enames; [|discriminate].
  cbn [bind] in Hinv.
  destruct (inventory_loop_entries _ _ _ _ _ _ _ Hinv seg entry Hentry)
    as [[] | (Hseg & files & Hfiles & ->)].
  apply (Permutation_in _ (sort_strings_perm false names)) in Hseg.
  apply entry_links in Hurl as (f & Hf & ->).
  pose proof (Hnames _ _ Enames) as Pnames.
  pose proof (Hnames _ _ Hfiles) as Pfiles.
  assert (Pseg : plain seg) by (rewrite Forall_forall in Pnames; auto).
  assert (Pf : plain f) by (rewrite Forall_forall in Pfiles; auto).
  assert (Pword : plain "segments") by (repeat split; discriminate).
  assert (P1 : Forall plain (cs ++ [sid])).
  { plain_list. }
  assert (Join : forall l x, Forall plain (cs ++ l) -> plain x ->
                 OsPath.join (path_of (cs ++ l)) x = path_of (cs ++ l ++ [x])).
  { intros l x Hl Hx. rewrite app_assoc.
    apply (join_path_of (cs ++ l) [x]); try discriminate.
    - destruct l; [now rewrite app_nil_r | apply app_cons_nonempty].
    - exact Hl.
    - constructor; [apply Hx | constructor].
    - apply Hx. }
  exists f, files. split; [exact Hfiles|]. split; [exact Hf|].
  split; [reflexivity|].
  cbv zeta. rewrite Esd.
  assert (P2 : Forall plain (cs ++ [sid; "segments"])).
  { plain_list. }
  assert (P3 : Forall plain (cs ++ [sid; "segments"; seg])).
  { plain_list. }
  assert (P4 : Forall plain (cs ++ [sid; seg])).
  { plain_list. }
  rewrite (Join [sid] "segments" P1 Pword). cbn [app].
  rewrite (Join [sid; "segments"] seg P2 Pseg). cbn [app].
  rewrite (Join [sid; "segments"; seg] f P3 Pf). cbn [app].
  rewrite (Join [sid] seg P1 Pseg). cbn [app].
  rewrite (Join [sid; seg] f P4 Pf). cbn [app].
  split.
  - intros E. apply path_of_injective in E.
    + apply (f_equal (@List.length string)) in E. rewrite !length_app in E.
      cbn [List.length] in E. lia.
    + apply app_cons_nonempty.
    + apply app_cons_nonempty.
    + apply plain_pieces. plain_list.
    + apply plain_pieces. plain_list.
  - change (seg ++ "/" ++ f) with (String.concat "/" [seg; f]).
    rewrite Esd in Hdir.
    rewrite (api_get_artifact_inside disk cwd cs sid Hcs Hplain Hsid [seg; f])
      by (discriminate || exact Hdir
          || (repeat (apply Forall_cons; [assumption|]); apply Forall_nil)).
    unfold served.
    replace (OsPath.basename (path_of (cs ++ [sid; seg; f]))) with f;
      [reflexivity|].
    symmetry.
    replace (cs ++ [sid; seg; f])%list with ((cs ++ [sid; seg]) ++ [f])%list
      by now rewrite <- app_assoc.
    rewrite path_of_snoc by apply app_cons_nonempty.
    apply basename_after_slash. apply Pf.
Qed.

(** X13: after a run of [run_pipeline] that returned, on a disk that has
    the session directory and the files the run wrote, [api_download]
    serves the final video for the kind "final" and the subtitled video
    for the kind "subtitled", the two files that the status lists as
    artifacts, as [video/mp4] under their own names; any other kind is
    answered with 400. *)
Theorem completed_run_can_be_downloaded
    (w : Server.world) (session_exists : bool)
    (scripts_file status_file prompts_file : file)
    (session_id script_key : string) (voice : option string) (mode : string)
    (st : Server.state) (disk : Endpoints.fs) :
  Server.run_pipeline w session_exists scripts_file status_file prompts_file
    session_id script_key voice mode = (Ok tt, st) ->
  let session_dir := OsPath.join (Server.sessions_root w) session_id in
  Endpoints.isdir disk session_dir = true ->
  (forall p c, In (Server.WriteVideo p c) (Server.log st) ->
               Endpoints.exists_ disk p = true) ->
  (forall p subs, In (Server.WriteSubtitled p subs) (Server.log st) ->
                  Endpoints.exists_ disk p = true) ->
  Endpoints.api_download disk (Server.sessions_root w) session_id "final"
  = Endpoints.Respond
      (Endpoints.FileResponse (OsPath.join session_dir "final_output.mp4")
         "video/mp4" "final_output.mp4")
  /\ Endpoints.api_download disk (Server.sessions_root w) session_id "subtitled"
     = Endpoints.Respond
         (Endpoints.FileResponse
            (OsPath.join session_dir "final_output_subtitled.mp4")
            "video/mp4" "final_output_subtitled.mp4")
  /\ (forall kind, kind <> "final" -> kind <> "subtitled" ->
        Endpoints.api_download disk (Server.sessions_root w) session_id kind
        = Endpoints.HTTPException 400 "kind must be 'final' or 'subtitled'").
Proof.
  intros Hrun session_dir Hdir Hvideo Hsub.
  destruct (completed_run_state _ _ _ _ _ _ _ _ _ _ Hrun)
    as (scripts & selected & outs & st1 & items & _ & _ & _ & Hst).
  cbv zeta in Hst.
  assert (Hc : exists c,
             In (Server.WriteVideo
                   (Server.path_join
                      (Server.path_join (Server.sessions_root w) session_id)
                      "final_output.mp4") c) (Server.log st)).
  { rewrite Hst. cbn [Server.log]. eexists. apply in_or_app. right. left.
    reflexivity. }
  assert (Hs : exists subs,
             In (Server.WriteSubtitled
                   (Server.path_join
                      (Server.path_join (Server.sessions_root w) session_id)
                      "final_output_subtitled.mp4") subs) (Server.log st)).
  { rewrite Hst. cbn [Server.log]. eexists. apply in_or_app. right.
    do 2 right. left. reflexivity. }
  destruct Hc as [c Hc]. destruct Hs as [subs Hs]. clear Hst.
  unfold Endpoints.api_download. fold session_dir. rewrite Hdir. cbn [negb find fst].
  split; [|split].
  - cbn [String.eqb Ascii.eqb Bool.eqb andb].
    rewrite (Hvideo _ _ Hc
             : Endpoints.exists_ disk (OsPath.join session_dir "final_output.mp4")
               = true).
    cbn [negb].
    rewrite basename_join by (reflexivity || discriminate). reflexivity.
  - cbn [String.eqb Ascii.eqb Bool.eqb andb].
    rewrite (Hsub _ _ Hs
             : Endpoints.exists_ disk
                 (OsPath.join session_dir "final_output_subtitled.mp4") = true).
    cbn [negb].
    rewrite basename_join by (reflexivity || discriminate). reflexivity.
  - intros kind H1 H2. apply String.eqb_neq in H1, H2.
    rewrite (String.eqb_sym "final"), (String.eqb_sym "subtitled"), H1, H2.
    reflexivity.
Qed.

(** ** The order of strings and the list of sessions *)

Section StringOrder.

Import PyStr.

Lemma ascii_compare_refl (a : ascii) : Ascii.compare a a = Eq.
Proof. unfold Ascii.compare. apply N.compare_refl. Qed.

Lemma ascii_compare_lt_trans (a b c : ascii) :
  Ascii.compare a b = Lt -> Ascii.compare b c = Lt -> Ascii.compare a c = Lt.
Proof.
  unfold Ascii.compare. rewrite !N.compare_lt_iff. apply N.lt_trans.
Qed.

Lemma str_le_trans (a b c : string) :
  str_le a b = true -> str_le b c = true -> str_le a c = true.
Proof.
  unfold str_le, String.leb. revert b c.
  induction a as [|x a IH]; intros [|y b] [|z c]; cbn [String.compare];
    try reflexivity; try discriminate.
  destruct (Ascii.compare x y) eqn:Exy; try discriminate;
    destruct (Ascii.compare y z) eqn:Eyz; try discriminate.
  - apply Ascii.compare_eq_iff in Exy, Eyz. subst y z.
    rewrite ascii_compare_refl. apply IH.
  - apply Ascii.compare_eq_iff in Exy. subst y. now rewrite Eyz.
  - apply Ascii.compare_eq_iff in Eyz. subst z. now rewrite Exy.
  - now rewrite (ascii_compare_lt_trans x y z Exy Eyz).
Qed.

Lemma str_lt_not_le (a b : string) :
  String.ltb a b = true -> str_le b a = false.
Proof.
  unfold String.ltb, str_le, String.leb. rewrite (String.compare_antisym b a).
  now destruct (String.compare a b).
Qed.

(** Two names that start with stamps of the same length are in the order
    of the stamps. *)
Lemma str_lt_app (a b x y : string) :
  String.length a = String.length b ->
  String.ltb a b = true -> String.ltb (a ++ x) (b ++ y) = true.
Proof.
  unfold String.ltb. revert b.
  induction a as [|c a IH]; intros [|d b]; cbn [String.length]; try discriminate.
  intros [= Hlen]. cbn [append String.compare].
  destruct (Ascii.compare c d); [now apply IH | reflexivity | discriminate].
Qed.

Definition descending (l : list string) : Prop :=
  StronglySorted (fun a b => str_le b a = true) l.

Lemma insert_str_descending (x : string) (l : list string) :
  descending l -> descending (insert_str true x l).
Proof.
  unfold descending. induction 1 as [|y r Hr IH Hy]; cbn [insert_str].
  - repeat constructor.
  - destruct (str_le y x) eqn:E.
    + constructor; [now constructor|].
      constructor; [exact E|].
      eapply Forall_impl; [|exact Hy]. cbn beta. intros z Hz.
      exact (str_le_trans z y x Hz E).
    + constructor; [exact IH|].
      apply (Permutation_Forall (Permutation_sym (insert_str_perm true x r))).
      constructor; [|exact Hy].
      destruct (String.leb_total x y) as [H | H]; [exact H|].
      unfold str_le in E. congruence.
Qed.

Lemma sort_strings_descending (l : list string) :
  descending (sort_strings true l).
Proof.
  induction l as [|x r IH]; cbn [sort_strings]; [constructor|].
  now apply insert_str_descending.
Qed.

(** In a descending list a greater name comes before a smaller one. *)
Lemma descending_before (l : list string) (small great : string) :
  descending l -> In small l -> In great l -> String.ltb small great = true ->
  exists l1 l2 l3, l = (l1 ++ great :: l2 ++ small :: l3)%list.
Proof.
  intros Hl Hsmall Hgreat Hlt.
  apply in_split in Hgreat as (l1 & rest & ->).
  assert (Hne : small <> great).
  { intros ->. unfold String.ltb in Hlt.
    assert (E : String.compare great great = Eq).
    { clear. induction great as [|c s IH]; cbn; [reflexivity|].
      now rewrite ascii_compare_refl. }
    now rewrite E in Hlt. }
  apply in_app_or in Hsmall as [H1 | [E | Hrest]].
  - exfalso. apply in_split in H1 as (m1 & m2 & ->).
    rewrite <- app_assoc in Hl. cbn [app] in Hl.
    unfold descending in Hl.
    assert (Hs : StronglySorted (fun a b => str_le b a = true)
                   (small :: m2 ++ great :: rest)).
    { clear - Hl. induction m1 as [|z m1 IH]; [exact Hl|].
      inversion Hl; subst. now apply IH. }
    inversion Hs as [|? ? _ Hall]; subst.
    rewrite Forall_forall in Hall.
    specialize (Hall great ltac:(apply in_or_app; right; now left)).
    rewrite (str_lt_not_le _ _ Hlt) in Hall. discriminate.
  - congruence.
  - apply in_split in Hrest as (l2 & l3 & ->). now exists l1, l2, l3.
Qed.

End StringOrder.

(** X14: [api_list_sessions] answers with the directories found under
    the sessions root, each once, in descending order of their names; as
    the name of a session starts with the time of its creation written
    with a fixed number of digits, a session created later is listed
    before a session created earlier.  Without a sessions root the list is
    empty. *)
Theorem api_list_sessions_newest_first
    (disk : Endpoints.fs) (sessions_root : string) (names : list string) :
  Endpoints.listdir disk sessions_root = Ok names ->
  (Endpoints.exists_ disk sessions_root = false ->
   Endpoints.api_list_sessions disk sessions_root = Ok [])
  /\ (Endpoints.exists_ disk sessions_root = true ->
      exists sessions,
        Endpoints.api_list_sessions disk sessions_root = Ok sessions
        /\ Permutation sessions
             (filter (fun d => Endpoints.isdir disk (OsPath.join sessions_root d))
                names)
        /\ StronglySorted (fun a b => String.leb b a = true) sessions
        /\ (forall ts1 ts2 slug1 slug2,
              String.length ts1 = String.length ts2 ->
              String.ltb ts1 ts2 = true ->
              In (ts1 ++ "-" ++ slug1) sessions ->
              In (ts2 ++ "-" ++ slug2) sessions ->
              exists l1 l2 l3,
                sessions = (l1 ++ (ts2 ++ "-" ++ slug2)%string :: l2
                            ++ (ts1 ++ "-" ++ slug1)%string :: l3)%list)).
Proof.
  intros Hls. unfold Endpoints.api_list_sessions. split.
  - now intros ->.
  - intros ->. cbn [negb]. rewrite Hls. cbn [bind].
    eexists. split; [reflexivity|].
    split; [apply sort_strings_perm|].
    split; [apply sort_strings_descending|].
    intros ts1 ts2 slug1 slug2 Hlen Hlt H1 H2.
    apply (descending_before _ _ _ (sort_strings_descending _) H1 H2).
    now apply str_lt_app.
Qed.

(** ** The scripts of a session *)

Section ScriptsFacts.

Import Scripts.

Lemma generate_scripts_ok (llm : string -> Llm.reply) (s : session)
    (scripts : dict) (after : option session) :
  generate_scripts_for_session llm (Some s) = (Ok scripts, after) ->
  exists idea prev st,
    idea_txt s = Ok idea
    /\ llm idea = Llm.Parsed (JObj scripts)
    /\ scripts <> []
    /\ Server._read_status (status_json s) = JObj prev
    /\ st = dupdate prev [("state", JStr "scripts_ready");
                          ("script_keys", JArr (map JStr (dkeys scripts)))]
    /\ after = Some (Session (Ok idea) (Holds (JObj scripts)) (Holds (JObj st))).
Proof.
  unfold generate_scripts_for_session, get_llm_response.
  destruct (idea_txt s) as [idea|] eqn:Ei; [|discriminate].
  destruct (llm idea) as [e| |data] eqn:El; try discriminate.
  destruct data as [| | | | |[|kv d]]; try discriminate.
  destruct (Server._read_status (status_json s)) as [| | | | |prev] eqn:Ep;
    try discriminate.
  cbn [Server.py_update]. intros [= <- <-].
  exists idea, prev, (dupdate prev [("state", JStr "scripts_ready");
                                    ("script_keys", JArr (map JStr (dkeys (kv :: d))))]).
  repeat split; try reflexivity; try assumption. discriminate.
Qed.

End ScriptsFacts.

(** X15: when [generate_scripts_for_session] returns, the model has
    answered with a JSON object that is not empty; that object is what the
    function returns and what scripts.json holds, and the status written
    is the status read with the state set to "scripts_ready" and the names
    of the scripts, in the order of the object, under "script_keys": every
    other entry of the status is as it was. *)
Theorem generate_scripts_marks_session_ready
    (llm : string -> Llm.reply) (s : Scripts.session) (scripts : dict)
    (after : option Scripts.session) :
  Scripts.generate_scripts_for_session llm (Some s) = (Ok scripts, after) ->
  exists idea prev st,
    Scripts.idea_txt s = Ok idea
    /\ llm idea = Llm.Parsed (JObj scripts)
    /\ scripts <> []
    /\ Server._read_status (Scripts.status_json s) = JObj prev
    /\ after = Some (Scripts.Session (Ok idea) (Holds (JObj scripts))
                       (Holds (JObj st)))
    /\ Server.state_of st = Some "scripts_ready"
    /\ dget "script_keys" st = Some (JArr (map JStr (dkeys scripts)))
    /\ (forall k, k <> "state" -> k <> "script_keys" -> dget k st = dget k prev).
Proof.
  intros H.
  destruct (generate_scripts_ok llm s scripts after H)
    as (idea & prev & st & Hi & Hl & Hne & Hp & -> & ->).
  eexists idea, prev, _. repeat split; try assumption; try reflexivity.
  - cbn [dupdate fold_left fst snd]. rewrite state_of_other by discriminate.
    unfold Server.state_of. now rewrite dget_dset_eq.
  - cbn [dupdate fold_left fst snd]. apply dget_dset_eq.
  - intros k H1 H2. apply dget_dupdate_other. cbn [dkeys map fst In].
    intros [E | [E | []]]; congruence.
Qed.

(** X16: when the model does not answer with a JSON object that is not
    empty, [generate_scripts_for_session] raises and leaves status.json
    and idea.txt as they were: the error of the call if the call failed,
    "Failed to generate scripts" otherwise.  scripts.json is untouched
    unless the answer was a JSON value that counts as true (a list, a
    text, a number): that value is then what scripts.json holds. *)
Theorem failed_generation_keeps_status
    (llm : string -> Llm.reply) (s : Scripts.session) (idea : string) :
  Scripts.idea_txt s = Ok idea ->
  (forall kv d, llm idea <> Llm.Parsed (JObj (kv :: d))) ->
  exists e scripts_file,
    Scripts.generate_scripts_for_session llm (Some s)
    = (Raise e,
       Some (Scripts.Session (Ok idea) scripts_file (Scripts.status_json s)))
    /\ (forall msg, llm idea = Llm.Failed msg ->
          e = msg /\ scripts_file = Scripts.scripts_json s)
    /\ (llm idea = Llm.NotJson ->
        e = "Failed to generate scripts"
        /\ scripts_file = Scripts.scripts_json s)
    /\ (forall data, llm idea = Llm.Parsed data ->
          e = "Failed to generate scripts"
          /\ scripts_file = if truthy data then Holds data
                            else Scripts.scripts_json s).
Proof.
  intros Hi Hnot.
  unfold Scripts.generate_scripts_for_session, Scripts.get_llm_response.
  rewrite Hi.
  destruct (llm idea) as [msg| |data] eqn:El.
  - eexists _, _. split; [reflexivity|].
    split; [intros ? [= <-]; now split|]. split; [discriminate|discriminate].
  - eexists _, _. split; [reflexivity|].
    split; [discriminate|]. split; [now split | discriminate].
  - destruct data as [| | | | |[|kv d]];
      try (eexists _, _; split; [reflexivity|];
           split; [discriminate|]; split; [discriminate|];
           intros ? [= <-]; now split).
    now destruct (Hnot kv d).
Qed.

(** X17: when [api_generate_scripts] answers, the session of the answer
    is the one named in the request or, for a request with an idea only,
    the session just created for that idea; [ordered_keys] lists exactly
    the scripts of the answer whose value is an object (a script given as
    the text "ERROR" stays in [scripts] but is not listed), in ascending
    order of the first number in their names; and the session is left with
    these scripts in scripts.json and the state "scripts_ready". *)
Theorem api_generate_scripts_lists_segmented_scripts
    (ts : string) (uuid4 : N) (llm : string -> Llm.reply)
    (sessions : string -> option Scripts.session)
    (payload : list (string * string)) (resp : Endpoints.scripts_response)
    (after : option (string * Scripts.session)) :
  Endpoints.api_generate_scripts ts uuid4 llm sessions payload
  = (Endpoints.Respond resp, after) ->
  let given := strip (Endpoints.field payload "session_id") in
  let idea := strip (Endpoints.field payload "idea") in
  Endpoints.session_id resp
  = (if String.eqb given ""
     then ts ++ "-" ++ Main.slugify uuid4 idea Main.default_max_len
     else given)
  /\ StronglySorted (fun a b => Main.seg_key a <= Main.seg_key b)
       (Endpoints.ordered_keys resp)
  /\ Permutation (Endpoints.ordered_keys resp)
       (dkeys (filter (fun kv => Menu.is_dict (snd kv)) (Endpoints.scripts resp)))
  /\ (forall k,
        In k (Endpoints.ordered_keys resp)
        <-> exists segments, In (k, JObj segments) (Endpoints.scripts resp))
  /\ exists s st,
       after = Some (Endpoints.session_id resp, s)
       /\ Scripts.scripts_json s = Holds (JObj (Endpoints.scripts resp))
       /\ Scripts.status_json s = Holds (JObj st)
       /\ Server.state_of st = Some "scripts_ready".
Proof.
  intros H given idea. unfold Endpoints.api_generate_scripts in H.
  fold given idea in H.
  destruct (String.eqb given "" && String.eqb idea "")%bool; [discriminate|].
  set (target := if String.eqb given "" then _ else _) in H.
  assert (Etarget : fst target
                    = if String.eqb given ""
                      then ts ++ "-" ++ Main.slugify uuid4 idea Main.default_max_len
                      else given).
  { subst target. now destruct (String.eqb given ""). }
  destruct target as [sid found].
  destruct (Scripts.generate_scripts_for_session llm found)
    as [[scripts|e] left_] eqn:Hgen; [|discriminate].
  injection H as <- <-. cbn [Endpoints.session_id Endpoints.ordered_keys
                              Endpoints.scripts].
  split; [exact Etarget|].
  split; [apply (sorted_sorted Main.seg_key)|].
  split; [apply sorted_perm|].
  split.
  - intros k. split.
    + intros Hk. apply (Permutation_in _ (sorted_perm Main.seg_key _)) in Hk.
      now apply valid_scripts_in.
    + intros [segments Hin].
      apply (Permutation_in _ (Permutation_sym (sorted_perm Main.seg_key _))).
      unfold dkeys. apply in_map_iff. exists (k, JObj segments).
      split; [reflexivity|]. apply filter_In. now split.
  - destruct found as [s|]; [|discriminate].
    destruct (generate_scripts_ok llm s scripts left_ Hgen)
      as (idea' & prev & st & _ & _ & _ & _ & -> & ->).
    eexists _, _. split; [reflexivity|]. split; [reflexivity|].
    split; [reflexivity|].
    cbn [dupdate fold_left fst snd]. rewrite state_of_other by discriminate.
    unfold Server.state_of. now rewrite dget_dset_eq.
Qed.

(** ** The files of the back ends *)

Section BackendFacts.

Import PyStr OsPath Backends.

Lemma str_int_injective (a b : Z) : str_int a = str_int b -> a = b.
Proof.
  unfold str_int. intros E. apply DecimalZ.to_int_inj.
  assert (Hnil : forall z, Z.to_int z <> Decimal.Pos Decimal.Nil
                           /\ Z.to_int z <> Decimal.Neg Decimal.Nil).
  { intros [|p|p]; cbn; split; try discriminate;
      intros [= H]; exact (DecimalPos.Unsigned.to_uint_nonnil p H). }
  pose proof (NilZero.isi (Z.to_int a) (proj1 (Hnil a)) (proj2 (Hnil a))) as Ha.
  pose proof (NilZero.isi (Z.to_int b) (proj1 (Hnil b)) (proj2 (Hnil b))) as Hb.
  rewrite E in Ha. congruence.
Qed.

Lemma append_cancel_r (a b s : string) : a ++ s = b ++ s -> a = b.
Proof.
  intros E. apply (f_equal str_rev) in E. rewrite !str_rev_app in E.
  assert (Cancel : forall x y z : string, x ++ y = x ++ z -> y = z).
  { induction x as [|c x IH]; cbn; [auto|]. intros y z [= H]. now apply IH. }
  apply Cancel in E. apply (f_equal str_rev) in E.
  now rewrite !str_rev_involutive in E.
Qed.

Lemma take_drop (n : nat) (p : string) : str_take n p ++ str_drop n p = p.
Proof.
  revert p. induction n as [|n IH]; intros [|c p]; cbn; try reflexivity.
  now rewrite IH.
Qed.

Lemma splitext_loop_parts (p : string) (dotIndex : Z) (steps : nat) :
  forall i r,
    splitext_loop p i steps dotIndex = Some r -> fst r ++ snd r = p.
Proof.
  induction steps as [|k IH]; intros i r; cbn [splitext_loop]; [discriminate|].
  destruct (String.get (Z.to_nat i) p) as [c|];
    [|intros [= <-]; apply take_drop].
  destruct (negb (Ascii.eqb c ".")); [intros [= <-]; apply take_drop | apply IH].
Qed.

Lemma splitext_parts (p : string) :
  fst (splitext p) ++ snd (splitext p) = p.
Proof.
  unfold splitext. destruct (rfind "/" p <? rfind "." p); [|apply append_empty_r].
  destruct (splitext_loop p _ _ _) as [r|] eqn:E; [|apply append_empty_r].
  exact (splitext_loop_parts _ _ _ _ _ E).
Qed.

End BackendFacts.

(** X19: the file that [generate_video_from_image] writes is named after
    the seed that the Space reports, [generated_<seed>.mp4], in the
    working directory; it is written only when the result of the Space is
    an object with a "video" entry.  Two generations therefore write the
    same file exactly when they report the same seed. *)
Theorem generated_video_is_named_after_its_seed
    (predict : result (json * Z)) (copy : json -> string -> result unit)
    (str : json -> string) (name : string) (seed : Z) :
  Backends.generate_video_from_image predict copy str = Ok (name, seed) ->
  name = "generated_" ++ str_int seed ++ ".mp4"
  /\ (exists d remote,
        predict = Ok (JObj d, seed) /\ dget "video" d = Some remote
        /\ copy remote name = Ok tt)
  /\ (forall predict' copy' str' name' seed',
        Backends.generate_video_from_image predict' copy' str'
        = Ok (name', seed') ->
        (name = name' <-> seed = seed')).
Proof.
  assert (Name : forall p c s n sd,
            Backends.generate_video_from_image p c s = Ok (n, sd) ->
            n = "generated_" ++ str_int sd ++ ".mp4"
            /\ exists d remote,
                 p = Ok (JObj d, sd) /\ dget "video" d = Some remote
                 /\ c remote n = Ok tt).
  { intros p c s n sd. unfold Backends.generate_video_from_image.
    destruct p as [[r used]|]; [|discriminate].
    destruct r as [| | | | |d]; try discriminate.
    destruct (dget "video" d) as [remote|] eqn:Ev; [|discriminate].
    destruct (c remote _) as [[]|] eqn:Ec; [|discriminate].
    intros [= <- <-]. split; [reflexivity|]. now exists d, remote. }
  intros H. destruct (Name _ _ _ _ _ H) as [-> Hex].
  split; [reflexivity|]. split; [exact Hex|].
  intros p' c' s' n' sd' H'. destruct (Name _ _ _ _ _ H') as [-> _].
  split.
  - intros [= E]. apply append_cancel_r in E. now apply str_int_injective.
  - now intros ->.
Qed.

(** X20: without HF_TOKEN in the environment (unset or empty) and without
    a client cached by an earlier call, both image back ends refuse before
    they call anything remote, and [generate_image_with_fallback] raises
    the error that names the two refusals, whatever the prompt. *)
Theorem no_token_no_image
    (hf_token : option string) (makedirs : string -> result unit)
    (text_to_image : json -> string -> result unit)
    (predict : json -> result (string * Z))
    (save : string -> string -> result unit)
    (prompt : json) (save_path : string) :
  Backends.missing hf_token = true ->
  makedirs save_path = Ok tt ->
  Common.generate_image_with_fallback
    (fun prompt save_path =>
       match fst (Backends.generate_and_save_image false hf_token makedirs
                    text_to_image prompt save_path) with
       | Ok _ => Ok tt
       | Raise e => Raise e
       end)
    (fun prompt save_path =>
       match Backends.generate_image_from_prompt hf_token predict save prompt
               save_path with
       | Ok _ => Ok tt
       | Raise e => Raise e
       end)
    prompt save_path
  = Raise ("Both HF inference and fallback image generation failed: hf_error="
           ++ "HF_TOKEN is not set or inference client failed to initialize."
           ++ "; fallback_error=" ++ "HF_TOKEN is not set in your environment.").
Proof.
  intros Hmissing Hdirs.
  unfold Common.generate_image_with_fallback, Backends.generate_and_save_image,
    Backends._get_client, Backends.generate_image_from_prompt.
  now rewrite Hdirs, Hmissing.
Qed.

(** ** Numbers and time stamps (src/videogeneration/subtitles.py) *)

Section Digits.

Import PyStr.

Ltac each_char c :=
  destruct c as [[] [] [] [] [] [] [] []]; vm_compute; intros;
  solve [reflexivity | discriminate | assumption].




Lemma digit_not_underscore (c : ascii) :
  is_digit c = true -> Ascii.eqb c "_" = false.
Proof. each_char c. Qed.




Definition no_char (sep : ascii) (s : string) : Prop :=
  str_forall (fun c => negb (Ascii.eqb c sep)) s = true.



Lemma no_char_app (sep : ascii) (a b : string) :
  no_char sep a -> no_char sep b -> no_char sep (a ++ b).
Proof. unfold no_char. rewrite str_forall_app. intros -> ->. reflexivity. Qed.

End Digits.

Section Stamps.

Import PyStr Subtitles.

Variable repr : string -> string.




End Stamps.


Section SrtFacts.

Import PyStr Subtitles Media.

Variable repr : string -> string.








End SrtFacts.


(** ** Subtitles from a transcription *)

Section WhisperFacts.

Import Subtitles Media.
Local Open Scope Q_scope.

Lemma items_of_texts (segments : list whisper_segment) :
  Forall (fun it : item => snd it <> EmptyString) (items_of segments)
  /\ (List.length (items_of segments) <= List.length segments)%nat.
Proof.
  induction segments as [|seg r [IH Hlen]]; cbn [items_of List.length].
  - split; [constructor | lia].
  - destruct (String.eqb_spec
                (strip match seg_text seg with Some t => t | None => EmptyString end)
                EmptyString) as [E | Hne].
    + split; [exact IH | lia].
    + split; [constructor; [exact Hne | exact IH] | cbn [List.length]; lia].
Qed.

Lemma burn_subtitles_clips (D : Q) (items : list item) :
  eps <= D ->
  map txt_text (burn_subtitles_from_items D items) = map snd items
  /\ Forall (fun c => 0 <= txt_start c <= D - eps /\ 1 # 10 <= txt_duration c)
       (burn_subtitles_from_items D items).
Proof.
  intros HD. unfold burn_subtitles_from_items, _clamp_items_to_duration.
  induction items as [|[[start end_] text] r [IHt IHc]]; cbn [map].
  - split; [reflexivity | constructor].
  - destruct (clamp_item_spec D start end_ text HD) as (s & e & -> & Hs & _).
    cbn [txt_text txt_start txt_duration snd]. split; [now rewrite IHt|].
    constructor; [|exact IHc]. split; [exact Hs|]. cbn [txt_duration].
    destruct (py_max_cases (e - s) (1 # 10)) as [[H ->] | [H ->]]; lra.
Qed.

End WhisperFacts.

(** X23: on a video of at least one millisecond, every subtitle that
    [auto_subtitle_with_whisper] puts on the video has a text that is not
    empty (the segments whose text is blank are dropped, so there are at
    most as many subtitles as segments), starts inside the video, at most
    one millisecond before its end, and is shown for at least a tenth of a
    second.  When the whisper package cannot be imported the function
    raises and nothing is transcribed. *)
Theorem whisper_subtitles_have_text
    (imported : bool)
    (transcribed : result (option (list Subtitles.whisper_segment)))
    (D : Q) :
  (Media.eps <= D)%Q ->
  (forall clips,
     Subtitles.auto_subtitle_with_whisper imported transcribed D = Ok clips ->
     imported = true
     /\ Forall (fun c =>
                  Media.txt_text c <> EmptyString
                  /\ (0 <= Media.txt_start c <= D - Media.eps)%Q
                  /\ (1 # 10 <= Media.txt_duration c)%Q) clips
     /\ (forall segments,
           transcribed = Ok (Some segments) ->
           (List.length clips <= List.length segments)%nat))
  /\ Subtitles.auto_subtitle_with_whisper false transcribed D
     = Raise "openai-whisper is not installed. Run: pip install openai-whisper".
Proof.
  intros HD. split; [|reflexivity].
  intros clips. unfold Subtitles.auto_subtitle_with_whisper,
    Subtitles.transcribe_to_items_whisper.
  destruct imported; cbn [negb bind]; [|discriminate].
  assert (Burn : forall segments,
            let clips := Media.burn_subtitles_from_items D
                           (Subtitles.items_of segments) in
            Forall (fun c =>
                      Media.txt_text c <> EmptyString
                      /\ (0 <= Media.txt_start c <= D - Media.eps)%Q
                      /\ (1 # 10 <= Media.txt_duration c)%Q) clips
            /\ (List.length clips <= List.length segments)%nat).
  { intros segments clips0. subst clips0.
    destruct (items_of_texts segments) as [Htexts Hlen].
    destruct (burn_subtitles_clips D (Subtitles.items_of segments) HD)
      as [Et Hc].
    split.
    - rewrite Forall_forall in *. intros c Hin. split; [|now apply Hc].
      assert (Hm : In (Media.txt_text c) (map snd (Subtitles.items_of segments)))
        by (rewrite <- Et; now apply in_map).
      apply in_map_iff in Hm as (it & <- & Hit). now apply Htexts.
    - rewrite <- (length_map Media.txt_text), Et, length_map. exact Hlen. }
  destruct transcribed as [[segments|]|e]; cbn [bind]; [| |discriminate].
  - intros [= <-]. destruct (Burn segments) as [Hall Hlen].
    split; [reflexivity|]. split; [exact Hall|].
    intros segments' [= <-]. exact Hlen.
  - intros [= <-]. split; [reflexivity|]. split; [constructor | discriminate].
Qed.

(** ** Extensions *)

Section ExtensionFacts.

Import PyStr OsPath.

Lemma rfind_from_none (c : ascii) (s : string) :
  no_char c s -> forall i l, rfind_from c s i l = l.
Proof.
  unfold no_char. induction s as [|x s IH]; cbn [str_forall rfind_from]; [auto|].
  intros H i l. apply andb_true_iff in H as [Hx Hs].
  apply negb_true_iff in Hx. now rewrite Hx, IH.
Qed.

Lemma rfind_from_last (c : ascii) (x y : string) :
  no_char c y ->
  forall i l, rfind_from c (x ++ String c y) i l = i + Z.of_nat (String.length x).
Proof.
  intros Hy. induction x as [|d x IH]; intros i l;
    cbn [append rfind_from String.length].
  - rewrite Ascii.eqb_refl, rfind_from_none by exact Hy. lia.
  - rewrite IH. lia.
Qed.

Lemma take_app (x y : string) : str_take (String.length x) (x ++ y) = x.
Proof. induction x as [|c x IH]; cbn; [now destruct y | now rewrite IH]. Qed.

Lemma drop_app (x y : string) : str_drop (String.length x) (x ++ y) = y.
Proof. induction x as [|c x IH]; cbn; [reflexivity | exact IH]. Qed.

Lemma get_app (x : string) (c : ascii) (y : string) :
  String.get (String.length x) (x ++ String c y) = Some c.
Proof. induction x as [|d x IH]; cbn; [reflexivity | exact IH]. Qed.

(** [splitext] on a file name with an extension: [pre] is what comes
    before the name of the file, nothing or a directory with its slash. *)
Lemma splitext_name (pre name e : string) :
  (pre = "" \/ exists a, pre = a ++ "/") ->
  no_char "/" name -> no_char "/" e -> no_char "." e ->
  (exists c r, name = String c r /\ c <> "."%char) ->
  splitext (pre ++ name ++ "." ++ e) = (pre ++ name, "." ++ e).
Proof.
  intros Hpre Hname He Hdot (c & r & -> & Hc). unfold splitext.
  assert (Hrest : no_char "/" (String c r ++ "." ++ e)).
  { apply no_char_app; [exact Hname|]. apply (no_char_app "/" "."); [reflexivity | exact He]. }
  assert (Hsep : rfind "/" (pre ++ String c r ++ "." ++ e) + 1
                 = Z.of_nat (String.length pre)).
  { unfold rfind. destruct Hpre as [-> | [a ->]].
    - cbn [append String.length]. rewrite rfind_from_none by exact Hrest. reflexivity.
    - rewrite str_append_assoc.
      change ("/" ++ String c r ++ "." ++ e) with (String "/" (String c r ++ "." ++ e)).
      rewrite rfind_from_last by exact Hrest.
      rewrite length_append. cbn [String.length]. lia. }
  assert (Hdotidx : rfind "." (pre ++ String c r ++ "." ++ e)
                    = Z.of_nat (String.length (pre ++ String c r))).
  { unfold rfind. rewrite <- str_append_assoc.
    change ("." ++ e) with (String "." e).
    now rewrite rfind_from_last by exact Hdot. }
  replace (rfind "/" (pre ++ String c r ++ "." ++ e))
    with (Z.of_nat (String.length pre) - 1) by lia.
  rewrite Hdotidx, length_append. cbn [String.length].
  replace (Z.of_nat (String.length pre) - 1
           <? Z.of_nat (String.length pre + S (String.length r))) with true
    by (symmetry; apply Z.ltb_lt; lia).
  replace (Z.to_nat (Z.of_nat (String.length pre + S (String.length r))
                     - (Z.of_nat (String.length pre) - 1 + 1)))
    with (S (String.length r)) by lia.
  cbn [splitext_loop].
  replace (Z.to_nat (Z.of_nat (String.length pre) - 1 + 1))
    with (String.length pre) by lia.
  change (String c r ++ "." ++ e) with (String c (r ++ "." ++ e)).
  rewrite get_app.
  replace (Ascii.eqb c ".") with false
    by (symmetry; now apply Ascii.eqb_neq).
  cbn [negb]. rewrite Nat2Z.id.
  change (String c (r ++ "." ++ e)) with (String c r ++ "." ++ e).
  rewrite <- str_append_assoc.
  replace (String.length pre + S (String.length r))%nat
    with (String.length (pre ++ String c r))
    by (rewrite length_append; reflexivity).
  now rewrite take_app, drop_app.
Qed.

Lemma slash_free_no_char (s : string) : slash_free s <-> no_char "/" s.
Proof. reflexivity. Qed.

End ExtensionFacts.

(** X18: [adjust_video_to_duration], called without [out_path], never
    writes over the video it reads: [os.path.splitext] cuts the path in
    two parts that put together give the path again, and the file written
    has [_adj] between these two parts.  For a file [name.ext] in a
    directory, the name not starting with a dot, the file written is
    [name_adj.ext] in the same directory. *)
Theorem adjusted_video_is_another_file (video_path : string) :
  (exists base ext,
     OsPath.splitext video_path = (base, ext)
     /\ base ++ ext = video_path
     /\ Backends.out_path video_path = base ++ "_adj" ++ ext
     /\ Backends.out_path video_path <> video_path)
  /\ (forall pre name e,
        video_path = pre ++ name ++ "." ++ e ->
        (pre = "" \/ exists a, pre = a ++ "/") ->
        no_char "/" name -> no_char "/" e -> no_char "." e ->
        (exists c r, name = String c r /\ c <> "."%char) ->
        Backends.out_path video_path = pre ++ name ++ "_adj." ++ e).
Proof.
  split.
  - pose proof (splitext_parts video_path) as E. unfold Backends.out_path.
    destruct (OsPath.splitext video_path) as [base ext]. cbn [fst snd] in E.
    exists base, ext. repeat split; try assumption.
    intros H. rewrite <- E in H.
    apply (f_equal String.length) in H.
    rewrite !length_append in H. cbn [String.length] in H. lia.
  - intros pre name e -> Hpre Hname He Hdot Hfirst. unfold Backends.out_path.
    rewrite (splitext_name pre name e Hpre Hname He Hdot Hfirst).
    now rewrite !str_append_assoc.
Qed.

(** X24: for a relative path made of ordinary names that ends with a
    file [name.ext], [api_get_artifact] looks for that file under the
    directory of the session and never answers 400; when the file is
    there it is served under its own name with the media type of its
    extension, read without regard to case: image/png for png, image/jpeg
    for jpg and jpeg, video/mp4 for mp4, audio/mpeg for mp3, and
    application/octet-stream for anything else, wav and m4a included. *)
Theorem artifact_media_type_follows_extension
    (disk : Endpoints.fs) (cwd : string) (cs : list string) (sid : string)
    (dirs : list string) (name e : string) :
  cs <> [] -> Forall plain cs -> plain sid -> Forall plain dirs ->
  no_char "/" name -> no_char "/" e -> no_char "." e ->
  (exists c r, name = String c r /\ c <> "."%char) ->
  let sessions_root := "/" ++ String.concat "/" cs in
  let relpath := String.concat "/" (dirs ++ [name ++ "." ++ e]) in
  let target := OsPath.join (OsPath.join sessions_root sid) relpath in
  Endpoints.isdir disk (OsPath.join sessions_root sid) = true ->
  Endpoints.api_get_artifact disk cwd sessions_root sid relpath
  = (if (Endpoints.exists_ disk target && Endpoints.isfile disk target)%bool
     then Endpoints.Respond
            (Endpoints.FileResponse target
               (Endpoints.guess_media_type ("." ++ lower e))
               (name ++ "." ++ e))
     else Endpoints.HTTPException 404 "File not found")
  /\ map Endpoints.guess_media_type
       [".png"; ".jpg"; ".jpeg"; ".mp4"; ".mp3"; ".wav"; ".m4a"; ".txt"; ""]
     = ["image/png"; "image/jpeg"; "image/jpeg"; "video/mp4"; "audio/mpeg";
        "application/octet-stream"; "application/octet-stream";
        "application/octet-stream"; "application/octet-stream"].
Proof.
  intros Hcs Hplain Hsid Hdirs Hname He Hdot Hfirst sessions_root relpath target
    Hdir.
  split; [|reflexivity].
  change sessions_root with (path_of cs) in *.
  assert (Pfile : plain (name ++ "." ++ e)).
  { destruct Hfirst as (c & r & -> & Hc). split.
    - apply slash_free_no_char, no_char_app; [exact Hname|].
      apply (no_char_app "/" "."); [reflexivity | exact He].
    - split; [discriminate|]. split.
      + destruct r; cbn; [destruct e|]; try discriminate; congruence.
      + cbn. intros [= -> _]. now destruct Hc. }
  assert (Prel : Forall plain (dirs ++ [name ++ "." ++ e])).
  { apply Forall_app. split; [exact Hdirs | constructor; [exact Pfile | constructor]]. }
  assert (Esd : OsPath.join (path_of cs) sid = path_of (cs ++ [sid]))
    by apply (session_dir_of cs sid Hcs Hplain Hsid).
  assert (Psd : Forall plain (cs ++ [sid])) by plain_list.
  assert (Etarget : target = path_of (cs ++ sid :: dirs ++ [name ++ "." ++ e])).
  { subst target relpath. rewrite Esd.
    rewrite (join_path_of (cs ++ [sid]) (dirs ++ [name ++ "." ++ e]));
      [ now rewrite <- app_assoc | apply app_cons_nonempty | exact Psd
      | apply app_cons_nonempty | now apply plain_pieces | ].
    destruct dirs as [|d ds]; cbn [app hd]; [apply Pfile|].
    inversion Hdirs as [|? ? Hd _]; subst. apply Hd. }
  rewrite Esd in Hdir.
  subst relpath.
  rewrite (api_get_artifact_inside disk cwd cs sid Hcs Hplain Hsid _
             (app_cons_nonempty _ _ _) Prel Hdir).
  unfold served. rewrite <- Etarget.
  assert (Eparts : exists pre, target = ((pre ++ "/") ++ name ++ "." ++ e)%string).
  { rewrite Etarget.
    replace (cs ++ sid :: dirs ++ [(name ++ "." ++ e)%string])%list
      with ((cs ++ sid :: dirs) ++ [(name ++ "." ++ e)%string])%list
      by (rewrite <- app_assoc; reflexivity).
    rewrite path_of_snoc by apply app_cons_nonempty.
    eexists. now rewrite str_append_assoc. }
  destruct Eparts as [pre Eparts].
  assert (Eext : OsPath.splitext target = ((pre ++ "/") ++ name, "." ++ e)).
  { rewrite Eparts. apply splitext_name; eauto. }
  assert (Ebase : OsPath.basename target = name ++ "." ++ e).
  { rewrite Eparts, str_append_assoc.
    apply basename_after_slash, Pfile. }
  rewrite Eext, Ebase. reflexivity.
Qed.

(** ** What a failed run leaves behind *)

Section Failed.

Import Server Media.

Variable w : world.
Variable scripts : json.
Variable script_key : string.
Variable selected_script : dict.
Variable session_dir : string.
Variable voice : string.
Variable mode : string.
Variable total : Z.







End Failed.


(* ===================================================================== *)
(** * Part III: the properties on concrete runs                           *)
(* ===================================================================== *)

Section Examples.

Import Server Media.

(** A session for the idea "a kind fox", whose first script has one
    segment of 132 characters. *)
Definition fox_text : string :=
  "A kind fox finds a basket of berries in the snowy forest and carries it slowly home to share with a hungry hare and two small birds.".

Definition fox_scripts : json :=
  JObj [("script1", JObj [("segment1", JStr fox_text)]);
        ("script2", JStr "ERROR")].

Definition fox_session : string * dict :=
  create_session "20250101-120000" 0 "a kind fox".

(** Collaborators that all succeed, but for the reply of the model and
    for the transcription, which are given. *)
Definition fox_world (reply : Llm.reply) (whisper : result (list item))
  : world :=
  {| sessions_root := "/srv/sessions";
     default_voice := "en-US-AriaNeural";
     wait_s := 10;
     max_retries := 5;
     run_tts := fun _ _ _ => Ok tt;
     audio_duration := fun _ => 6%Q;
     llm := fun _ => reply;
     generate_image_from_prompt := fun _ _ => Ok tt;
     hf_generate_and_save_image := fun _ _ => Ok tt;
     generate_video_from_image := fun _ _ _ _ _ => Ok "generated_42.mp4";
     video_duration := fun _ => 5%Q;
     transcribe := fun _ => whisper |}.

Definition no_whisper : result (list item) :=
  Raise "openai-whisper is not installed. Run: pip install openai-whisper".

(** A first run, in which the transcription fails after the only segment
    has been processed, and a first run in which everything succeeds. *)
Definition failed_run : result unit * state :=
  run_pipeline (fox_world Llm.NotJson no_whisper) true
    (Holds fox_scripts) (Holds (JObj (snd fox_session))) Absent
    (fst fox_session) "script1" None "images".

Definition completed_run : result unit * state :=
  run_pipeline (fox_world Llm.NotJson (Ok [(0%Q, 5%Q, "A kind fox")])) true
    (Holds fox_scripts) (Holds (JObj (snd fox_session))) Absent
    (fst fox_session) "script1" None "images".

(** The status that a run leaves on disk: its last snapshot. *)
Definition status_after (run : result unit * state) : dict :=
  last (snapshots (log (snd run))) [].

(** The same session run again: [api_run_session] marks it queued, then
    [run_pipeline] starts from that status. *)
Definition run_again (previous : result unit * state) : result unit * state :=
  match api_run_session (Holds (JObj (status_after previous))) "script1" None
          "images" with
  | Ok queued =>
      run_pipeline (fox_world Llm.NotJson (Ok [])) true
        (Holds fox_scripts) (Holds (JObj queued))
        (prompts_file (snd previous)) (fst fox_session) "script1" None "images"
  | Raise e => (Raise e, State [] Absent [])
  end.

Lemma failed_run_states :
  map state_of (snapshots (log (snd failed_run)))
  = [Some "running"; Some "running"; Some "running"; Some "failed"].
Proof. vm_compute. reflexivity. Qed.

Lemma failed_run_last :
  In (status_after failed_run) (snapshots (log (snd failed_run)))
  /\ total_of (status_after failed_run) = Some 1
  /\ completed_of (status_after failed_run) = Some 1
  /\ state_of (status_after failed_run) = Some "failed".
Proof.
  split; [vm_compute; do 3 right; left; reflexivity|].
  repeat split; vm_compute; reflexivity.
Qed.

Lemma failed_run_never_completed :
  ~ becomes_completed (snapshots (log (snd failed_run))).
Proof.
  intros (d & Hin & Hst).
  apply (in_map state_of) in Hin. rewrite failed_run_states, Hst in Hin.
  repeat (destruct Hin as [Hin | Hin]; [discriminate Hin|]). exact Hin.
Qed.

(** C1 as stated fails: in [failed_run] the snapshots reach
    [completed = total_segments = 1] and the state never becomes
    [completed], it becomes [failed]. *)
Lemma completed_count_reached_without_completed_state :
  reaches_total (snapshots (log (snd failed_run)))
  /\ state_of (status_after failed_run) = Some "failed"
  /\ ~ (reaches_total (snapshots (log (snd failed_run)))
        <-> becomes_completed (snapshots (log (snd failed_run)))).
Proof.
  destruct failed_run_last as (Hin & Ht & Hc & Hs).
  assert (R : reaches_total (snapshots (log (snd failed_run)))).
  { exists (status_after failed_run), 1.
    split; [exact Hin|]. split; [exact Ht | exact Hc]. }
  split; [exact R|]. split; [exact Hs|].
  intros [H _]. exact (failed_run_never_completed (H R)).
Qed.

Lemma failed_run_eq :
  run_pipeline (fox_world Llm.NotJson no_whisper) true
    (Holds fox_scripts) (Holds (JObj (snd fox_session))) Absent
    (fst fox_session) "script1" None "images"
  = (fst failed_run, snd failed_run).
Proof. vm_compute. reflexivity. Defined.

Lemma run_pipeline_progress_monotone_witness :
  (exists cs,
     map completed_of (snapshots (log (snd failed_run))) = map Some cs
     /\ StronglySorted Z.le cs)
  /\ (becomes_completed (snapshots (log (snd failed_run)))
      <-> fst failed_run = Ok tt).
Proof.
  destruct (run_pipeline_progress_monotone _ _ _ _ _ _ _ _ _ _ _ failed_run_eq)
    as (Hmono & _ & Hiff).
  split; [exact Hmono | exact Hiff].
Defined.

(** The fields that the specification wants cleared when a run starts
    again. *)
Definition cleared (d : dict) : Prop :=
  (dget "error" d = None \/ dget "error" d = Some JNull)
  /\ (dget "artifacts" d = None \/ dget "artifacts" d = Some (JObj [])).

(** C6 as stated fails: the first snapshot of a run that follows a failed
    run still has the error of that run, and the first snapshot of a run
    that follows a completed run still has its artifacts. *)
Lemma run_again_keeps_error_and_artifacts :
  state_of (status_after failed_run) = Some "failed"
  /\ (exists s0,
        hd_error (snapshots (log (snd (run_again failed_run)))) = Some s0
        /\ completed_of s0 = Some 0
        /\ dget "error" s0
           = Some (JStr "openai-whisper is not installed. Run: pip install openai-whisper")
        /\ ~ cleared s0)
  /\ state_of (status_after completed_run) = Some "completed"
  /\ (exists s0,
        hd_error (snapshots (log (snd (run_again completed_run)))) = Some s0
        /\ completed_of s0 = Some 0
        /\ dget "artifacts" s0 = dget "artifacts" (status_after completed_run)
        /\ ~ cleared s0).
Proof.
  split; [vm_compute; reflexivity|]. split.
  { eexists. split; [vm_compute; reflexivity|].
    split; [vm_compute; reflexivity|]. split; [vm_compute; reflexivity|].
    intros [[H | H] _]; vm_compute in H; discriminate H. }
  split; [vm_compute; reflexivity|].
  eexists. split; [vm_compute; reflexivity|].
  split; [vm_compute; reflexivity|]. split; [vm_compute; reflexivity|].
  intros [_ [H | H]]; vm_compute in H; discriminate H.
Qed.

Lemma run_pipeline_first_snapshot_witness :
  exists s0 rest,
    log (snd (run_pipeline (fox_world Llm.NotJson (Ok [])) true
                (Holds fox_scripts) (Holds (JObj (status_after failed_run)))
                Absent (fst fox_session) "script1" None "images"))
    = WriteStatus s0 :: rest
    /\ dget "progress" s0 = Some (progress 1 0)
    /\ state_of s0 = Some "running"
    /\ dget "error" s0 = dget "error" (status_after failed_run)
    /\ dget "artifacts" s0 = dget "artifacts" (status_after failed_run).
Proof.
  apply (run_pipeline_first_snapshot (fox_world Llm.NotJson (Ok []))
           fox_scripts [("segment1", JStr fox_text)]
           (status_after failed_run) Absent (fst fox_session) "script1" None
           "images").
  reflexivity.
Defined.

(** The prompts given to the image back ends during a run, in order. *)
Definition image_prompts_used (l : list event) : list json :=
  flat_map (fun e => match e with
                     | ImageFromPrompt p _ => [p]
                     | ImageWithFallback p _ => [p]
                     | _ => []
                     end) l.

(** A run in which the model answers with the given JSON value. *)
Definition run_with_reply (data : json) : result unit * state :=
  run_pipeline (fox_world (Llm.Parsed data) (Ok [])) true
    (Holds fox_scripts) (Holds (JObj (snd fox_session))) Absent
    (fst fox_session) "script1" None "images".

(** C7 as stated fails: when the reply of the model is not JSON, the
    prompts are the narration text cut at 120 characters, not the
    narration text; and when the reply lacks the entry of one image only,
    the other image keeps the prompt of the model. *)
Lemma fallback_prompts_are_not_the_narration :
  image_prompts_used (log (snd failed_run))
  = [JStr (str_take 120 fox_text); JStr (str_take 120 fox_text)]
  /\ image_prompts_used (log (snd failed_run)) <> [JStr fox_text; JStr fox_text]
  /\ image_prompts_used
       (log (snd (run_with_reply
                    (JObj [("image1", JObj [("prompt", JStr "a fox, low angle")])]))))
     = [JStr "a fox, low angle"; JStr fox_text].
Proof.
  split; [vm_compute; reflexivity|].
  split; [|vm_compute; reflexivity].
  intros H.
  assert (E : image_prompts_used (log (snd failed_run))
              = [JStr (str_take 120 fox_text); JStr (str_take 120 fox_text)])
    by (vm_compute; reflexivity).
  rewrite E in H. vm_compute in H. discriminate H.
Qed.

(** An entry of the wrong shape is not absorbed: [image1] given as a
    string makes the run fail at the prompted stage. *)
Lemma prompt_entry_of_wrong_shape_aborts :
  fst (run_with_reply (JObj [("image1", JStr "a fox, low angle")]))
  = Raise "'str' object has no attribute 'get'"
  /\ state_of (status_after
                 (run_with_reply (JObj [("image1", JStr "a fox, low angle")])))
     = Some "failed"
  /\ image_prompts_used
       (log (snd (run_with_reply (JObj [("image1", JStr "a fox, low angle")]))))
     = [].
Proof. repeat split; vm_compute; reflexivity. Qed.

(** The stages of the segment when the call of the model raises. *)
Definition stages_when_model_fails : result (string * clip) * state :=
  segment_stages (fox_world (Llm.Failed "rate limit reached") (Ok []))
    fox_scripts "script1" "/srv/sessions/fox" "en-US-AriaNeural" "images"
    "segment1" fox_text (State [] Absent []).

Lemma stages_when_model_fails_eq :
  segment_stages (fox_world (Llm.Failed "rate limit reached") (Ok []))
    fox_scripts "script1" "/srv/sessions/fox" "en-US-AriaNeural" "images"
    "segment1" fox_text (State [] Absent [])
  = (fst stages_when_model_fails, snd stages_when_model_fails).
Proof. vm_compute. reflexivity. Defined.

Lemma prompted_stage_falls_back_witness :
  proceeds_with (fox_world (Llm.Failed "rate limit reached") (Ok []))
    "/srv/sessions/fox" "en-US-AriaNeural" "images" "segment1" fox_text
    [] (log (snd stages_when_model_fails)) (JStr fox_text) (JStr fox_text).
Proof.
  destruct (prompted_stage_falls_back _ _ _ _ _ _ _ _ _ _ _
              stages_when_model_fails_eq eq_refl eq_refl) as (Hraise & _ & _).
  apply (Hraise "rate limit reached"). vm_compute. reflexivity.
Defined.

(** An image-to-video back end that is busy three times, then answers. *)
Definition busy_three_times (n : nat) : result string :=
  if Nat.ltb n 3 then Raise "Space is busy" else Ok "generated_42.mp4".

Lemma retry_controller_attempts_witness :
  exists log,
    Common.generate_video_with_retries busy_three_times 10 5 "video 1"
    = (Ok "generated_42.mp4", log)
    /\ Common.attempts log = 4%nat.
Proof.
  apply (proj1 (proj2 (retry_controller_attempts busy_three_times 10 "video 1"))).
  - intros i Hi. exists "Space is busy".
    destruct i as [|[|[|i]]]; [reflexivity | reflexivity | reflexivity | lia].
  - reflexivity.
Defined.


Lemma combine_two_videos_shrinks_witness :
  exists seg clamped_audio,
    combine_two_videos (VideoFileClip "a.mp4" 3) (VideoFileClip "b.mp4" 3)
      (AudioFileClip "audio.mp3" 5)
    = Ok (SetAudio seg clamped_audio)
    /\ (duration (SetAudio seg clamped_audio) == 4999 # 1000)%Q.
Proof.
  destruct (combine_two_videos_shrinks
              (VideoFileClip "a.mp4" 3) (VideoFileClip "b.mp4" 3)
              (AudioFileClip "audio.mp3" 5))
    as (seg & a & t & Hrun & _ & Hdur & _).
  - vm_compute. discriminate.
  - vm_compute. discriminate.
  - vm_compute. discriminate.
  - exists seg, a. split; [exact Hrun|].
    rewrite Hdur. vm_compute. reflexivity.
Defined.

Lemma subtitle_spans_clamped_witness :
  exists s e dur,
    nth_error (_clamp_items_to_duration [(12%Q, 11%Q, "The end.")] 10%Q) 0
    = Some (s, e, "The end.")
    /\ nth_error (burn_subtitles_from_items 10%Q [(12%Q, 11%Q, "The end.")]) 0
       = Some (TextClip "The end." s dur)
    /\ (s == 9999 # 1000)%Q /\ (e == 9999 # 1000)%Q /\ (dur == 1 # 10)%Q.
Proof.
  destruct (subtitle_spans_clamped 10%Q [(12%Q, 11%Q, "The end.")])
    with (i := 0%nat) (start := 12%Q) (end_ := 11%Q) (text := "The end.")
    as (s & e & dur & Hc & Hb & _ & _ & Hs & _ & Hcollapse & _).
  - vm_compute. discriminate.
  - reflexivity.
  - exists s, e, dur. split; [exact Hc|]. split; [exact Hb|].
    assert (Hs' : (s == 9999 # 1000)%Q) by (rewrite Hs; vm_compute; reflexivity).
    destruct Hcollapse as [He Hd].
    { rewrite Hs'. vm_compute. discriminate. }
    split; [exact Hs'|]. split; [|exact Hd].
    rewrite He.
    destruct (Q.min_spec (s + (1 # 10)) (10 - eps)) as [[Hlt _] | [_ ->]];
      [|reflexivity].
    rewrite Hs' in Hlt. vm_compute in Hlt. discriminate Hlt.
Defined.

(** The cache holds the prompts of segment1; the prompts of segment2 are
    generated. *)
Definition two_scripts : json :=
  JObj [("script1", JObj [("segment1", JStr "A fox wakes.");
                          ("segment2", JStr "The fox shares.")])].

Definition cache_with_segment1 : file :=
  Holds (JObj [("script1",
                JObj [("segment1",
                       JObj [("image1", JObj [("prompt", JStr "a fox at dawn")]);
                             ("image2", JObj [("prompt", JStr "a den in snow")])])])]).

Definition segment2_generated : result dict * file :=
  Llm.generate_prompts_for_script
    (fun _ => Llm.Parsed
                (JObj [("image1", JObj [("prompt", JStr "a fox and a hare")]);
                       ("image2", JObj [("prompt", JStr "berries, close up")])]))
    (fun _ disk => disk) "script1" two_scripts (Some "segment2")
    cache_with_segment1.



Lemma natural_segment_order_stable_by_index_witness :
  Main.seg_key "intro" = 0
  /\ Main.seg_key "part12b7" = 12
  /\ Permutation (Main.natural_segment_order ["segment2"; "intro"; "segment1"])
       ["segment2"; "intro"; "segment1"].
Proof.
  destruct (natural_segment_order_stable_by_index ["segment2"; "intro"; "segment1"])
    as (Hperm & _ & _ & Hnone & Hrun & _).
  split; [apply Hnone; reflexivity|].
  split; [|exact Hperm].
  apply (Hrun "part" "2" "b7" "1"%char); try reflexivity.
  right. exists "b"%char, "7". split; reflexivity.
Defined.

Lemma create_session_name_witness :
  fst (create_session "20250101-120000" 7 "?!") = "20250101-120000-00000000"
  /\ fst (create_session "20250101-120000" 7 "A kind  Fox!")
     = "20250101-120000-a-kind-fox".
Proof.
  destruct (create_session_name "20250101-120000" 7 "?!")
    as (Hname & _ & _ & _ & Huuid & _).
  split; [|reflexivity].
  rewrite Hname, Huuid; reflexivity.
Defined.

End Examples.

Section MoreExamples.

Import Server Media.

Lemma build_segment_from_images_spans_narration_witness :
  exists clips t,
    build_segment_from_images ["image1.png"; "image2.png"]
      (AudioFileClip "audio.mp3" 6)
    = Ok (SetAudio (Concat clips) (Subclip (AudioFileClip "audio.mp3" 6) 0 t))
    /\ (duration (Concat clips) == 6)%Q.
Proof.
  destruct (build_segment_from_images_spans_narration
              ["image1.png"; "image2.png"] (AudioFileClip "audio.mp3" 6))
    as (clips & t & Hrun & _ & _ & Hdur & _).
  - discriminate.
  - vm_compute. discriminate.
  - exists clips, t. split; [exact Hrun|].
    rewrite Hdur. vm_compute. reflexivity.
Defined.


(** The prompts of segment2 as [generate_prompts_for_script] returns them
    in [segment2_generated]. *)
Definition segment2_prompts : json :=
  JObj [("image1", JObj [("prompt", JStr "a fox and a hare")]);
        ("image2", JObj [("prompt", JStr "berries, close up")])].

Lemma segment2_generated_ok :
  Llm.generate_prompts_for_script (fun _ => Llm.Parsed segment2_prompts)
    (fun _ disk => disk) "script1" two_scripts (Some "segment2")
    cache_with_segment1
  = (Ok [("segment2", segment2_prompts)], snd segment2_generated).
Proof. vm_compute. reflexivity. Defined.

Lemma generated_prompts_are_read_back_witness :
  Cli.load_segment_prompts_from_disk (snd segment2_generated) "script1"
    "segment2" = Ok segment2_prompts
  /\ cached_prompts (snd segment2_generated) "script1" "segment2"
     = segment2_prompts.
Proof.
  destruct (generated_prompts_are_read_back _ _ _
              [("segment1", JStr "A fox wakes.");
               ("segment2", JStr "The fox shares.")] _ _ _ _
              segment2_generated_ok eq_refl) as [_ Hread].
  apply Hread. reflexivity.
Defined.

(** A cache of three segments, of which the second is being generated. *)
Definition three_cached : json :=
  JObj [("segment1", JStr "a fox at dawn");
        ("segment2", JStr "a den in snow");
        ("segment3", JStr "a hare at dusk")].

Lemma previous_prompts_are_the_earlier_ones_witness :
  exists prev,
    Llm.prev_prompts_of three_cached "segment2"
      ["segment1"; "segment2"; "segment3"] [] = Ok prev
    /\ dget "segment1" prev = Some (JStr "a fox at dawn")
    /\ forall v, dget "segment3" prev <> Some v.
Proof.
  exists [("segment1", JStr "a fox at dawn")].
  pose proof (previous_prompts_are_the_earlier_ones three_cached "segment2"
                ["segment1"; "segment2"; "segment3"]
                [("segment1", JStr "a fox at dawn")] eq_refl) as H.
  split; [reflexivity|]. split.
  - apply H. split; [now left|]. split; reflexivity.
  - intros v Hv. apply H in Hv as (_ & Hlt & _).
    vm_compute in Hlt. discriminate Hlt.
Defined.



Lemma completed_run_ok :
  run_pipeline (fox_world Llm.NotJson (Ok [(0%Q, 5%Q, "A kind fox")])) true
    (Holds fox_scripts) (Holds (JObj (snd fox_session))) Absent
    (fst fox_session) "script1" None "images"
  = (Ok tt, snd completed_run).
Proof. vm_compute. reflexivity. Defined.


Lemma choose_skips_invalid_lines_witness :
  Menu.choose ["script1"; "script2"] ["two"; "7"; " 2 "; "1"]
  = (Ok "script2", ["1"]).
Proof.
  apply (choose_skips_invalid_lines ["script1"; "script2"] ["two"; "7"] " 2 "
           ["1"] 2).
  - constructor; [vm_compute; exact I|].
    constructor; [vm_compute; right; reflexivity | constructor].
  - vm_compute. reflexivity.
  - vm_compute. split; discriminate.
Defined.

(** The sessions directory after the run of the fox: its session, a
    session created in the same second whose name continues the name of
    the first, a session of the next day, and a file. *)
Definition fox_dir : string := "/srv/sessions/20250101-120000-a-kind-fox".

Definition fox_listing : list (string * list string) :=
  [("/srv/sessions",
    ["20250101-120000-a-kind-fox"; "notes.txt"; "20250102-090000-a-hare";
     "20250101-120000-a-kind-fox-2"]);
   (fox_dir,
    ["idea.txt"; "scripts.json"; "status.json"; "segments";
     "final_output.mp4"; "final_output_subtitled.mp4"]);
   (fox_dir ++ "/segments", ["segment1"]);
   (fox_dir ++ "/segments/segment1",
    ["segment.txt"; "audio.mp3"; "image1.png"; "image2.png"; "segment1.mp4"]);
   ("/srv/sessions/20250101-120000-a-kind-fox-2", ["idea.txt"; "status.json"]);
   ("/srv/sessions/20250102-090000-a-hare", ["idea.txt"; "status.json"])].

Definition fox_files : list string :=
  flat_map
    (fun entry =>
       filter (fun p => negb (Endpoints.one_of (map fst fox_listing) p))
         (map (fun name => fst entry ++ "/" ++ name) (snd entry)))
    fox_listing.

Definition fox_disk : Endpoints.fs :=
  {| Endpoints.exists_ :=
       fun p => (Endpoints.one_of (map fst fox_listing) p
                 || Endpoints.one_of fox_files p)%bool;
     Endpoints.isdir := Endpoints.one_of (map fst fox_listing);
     Endpoints.isfile := Endpoints.one_of fox_files;
     Endpoints.listdir :=
       fun d =>
         match find (fun entry => String.eqb (fst entry) d) fox_listing with
         | Some entry => Ok (snd entry)
         | None => Raise ("[Errno 2] No such file or directory: '" ++ d ++ "'")
         end |}.

Ltac plain_name := split; [vm_compute; reflexivity | repeat split; discriminate].
Ltac plain_names := repeat (apply Forall_cons; [plain_name|]); apply Forall_nil.

Lemma artifact_guard_compares_names_witness :
  Endpoints.api_get_artifact fox_disk "/app" "/srv/sessions"
    "20250101-120000-a-kind-fox" "../20250101-120000-a-kind-fox-2/idea.txt"
  = Endpoints.Respond
      (Endpoints.FileResponse
         "/srv/sessions/20250101-120000-a-kind-fox-2/idea.txt"
         "application/octet-stream" "idea.txt")
  /\ Endpoints.api_get_artifact fox_disk "/app" "/srv/sessions"
       "20250101-120000-a-kind-fox" "../20250102-090000-a-hare/idea.txt"
     = Endpoints.HTTPException 400 "Invalid path".
Proof.
  split.
  - etransitivity.
    + apply (artifact_guard_compares_names fox_disk "/app" ["srv"; "sessions"]
               "20250101-120000-a-kind-fox" "20250101-120000-a-kind-fox-2"
               "idea.txt");
        [discriminate | plain_names | plain_name
        | plain_name | plain_name | vm_compute; reflexivity].
    + vm_compute. reflexivity.
  - etransitivity.
    + apply (artifact_guard_compares_names fox_disk "/app" ["srv"; "sessions"]
               "20250101-120000-a-kind-fox" "20250102-090000-a-hare"
               "idea.txt");
        [discriminate | plain_names | plain_name
        | plain_name | plain_name | vm_compute; reflexivity].
    + vm_compute. reflexivity.
Defined.

Lemma fox_disk_names (d : string) (names : list string) :
  Endpoints.listdir fox_disk d = Ok names -> Forall plain names.
Proof.
  assert (Hall : Forall (fun entry : string * list string =>
                           Forall plain (snd entry)) fox_listing).
  { repeat (apply Forall_cons; [cbn [snd]; plain_names|]). apply Forall_nil. }
  cbv [fox_disk Endpoints.listdir]. revert Hall.
  generalize fox_listing as listing.
  induction listing as [|entry listing IH]; cbn [find]; [discriminate|].
  intros Hall. apply Forall_cons_iff in Hall as [Hentry Hall].
  destruct (String.eqb (fst entry) d); [|exact (IH Hall)].
  intros [= <-]. exact Hentry.
Defined.

(** The links that the status of the session gives for its only
    segment. *)
Definition fox_link (f : string) : string :=
  "http://localhost:8000/api/sessions/20250101-120000-a-kind-fox/artifact/segment1/"
  ++ f.

Definition fox_links : Endpoints.links :=
  {| Endpoints.images := [fox_link "image1.png"; fox_link "image2.png"];
     Endpoints.videos := [fox_link "segment1.mp4"];
     Endpoints.audios := [fox_link "audio.mp3"] |}.

Lemma segment_links_leave_out_segments_directory_witness :
  Endpoints.segments_inventory fox_disk "http://localhost:8000/" fox_dir
    "20250101-120000-a-kind-fox" = Ok [("segment1", fox_links)]
  /\ Endpoints.isfile fox_disk (fox_dir ++ "/segments/segment1/segment1.mp4")
     = true
  /\ Endpoints.api_get_artifact fox_disk "/app" "/srv/sessions"
       "20250101-120000-a-kind-fox" "segment1/segment1.mp4"
     = Endpoints.HTTPException 404 "File not found".
Proof.
  split; [vm_compute; reflexivity|]. split; [vm_compute; reflexivity|].
  destruct (segment_links_leave_out_segments_directory fox_disk "/app"
              "http://localhost:8000/" ["srv"; "sessions"]
              "20250101-120000-a-kind-fox" [("segment1", fox_links)]
              "segment1" fox_links (fox_link "segment1.mp4"))
    with (4 := fox_disk_names)
    as (f & files & Hfiles & Hin & Hurl & _ & Hget);
    [discriminate | plain_names | plain_name | vm_compute; reflexivity
    | vm_compute; reflexivity | left; reflexivity
    | vm_compute; do 2 right; left; reflexivity |].
  vm_compute in Hfiles. injection Hfiles as <-.
  repeat (destruct Hin as [<- | Hin]; [try (vm_compute in Hurl; discriminate Hurl)|]);
    [|destruct Hin].
  etransitivity; [exact Hget | vm_compute; reflexivity].
Defined.

(** The files of the videos that a log records as written. *)
Definition written_videos (l : list event) : list string :=
  flat_map
    (fun ev =>
       match ev with
       | WriteVideo p _ => [p]
       | WriteSubtitled p _ => [p]
       | _ => []
       end) l.

Lemma written_videos_on_fox_disk :
  forallb (Endpoints.exists_ fox_disk) (written_videos (log (snd completed_run)))
  = true.
Proof. vm_compute. reflexivity. Defined.

Lemma completed_run_can_be_downloaded_witness :
  Endpoints.api_download fox_disk "/srv/sessions" (fst fox_session) "final"
  = Endpoints.Respond
      (Endpoints.FileResponse (fox_dir ++ "/final_output.mp4") "video/mp4"
         "final_output.mp4")
  /\ Endpoints.api_download fox_disk "/srv/sessions" (fst fox_session)
       "segment1"
     = Endpoints.HTTPException 400 "kind must be 'final' or 'subtitled'".
Proof.
  pose proof (proj1 (forallb_forall _ _) written_videos_on_fox_disk) as Hdisk.
  destruct (completed_run_can_be_downloaded _ _ _ _ _ _ _ _ _ _ fox_disk
              completed_run_ok) as (Hfinal & _ & Hother).
  - vm_compute. reflexivity.
  - intros p c Hin. apply Hdisk. apply in_flat_map.
    exists (WriteVideo p c). split; [exact Hin | left; reflexivity].
  - intros p subs Hin. apply Hdisk. apply in_flat_map.
    exists (WriteSubtitled p subs). split; [exact Hin | left; reflexivity].
  - split; [exact Hfinal|]. apply Hother; discriminate.
Defined.

Lemma api_list_sessions_newest_first_witness :
  exists older newest,
    Endpoints.api_list_sessions fox_disk "/srv/sessions"
    = Ok (newest ++ "20250102-090000-a-hare" :: older)%list
    /\ In "20250101-120000-a-kind-fox" older.
Proof.
  destruct (api_list_sessions_newest_first fox_disk "/srv/sessions"
              ["20250101-120000-a-kind-fox"; "notes.txt";
               "20250102-090000-a-hare"; "20250101-120000-a-kind-fox-2"]
              eq_refl) as [_ H].
  destruct (H eq_refl) as (sessions & Hrun & Hperm & _ & Horder).
  destruct (Horder "20250101-120000" "20250102-090000" "a-kind-fox" "a-hare")
    as (l1 & l2 & l3 & ->).
  - reflexivity.
  - vm_compute. reflexivity.
  - apply (Permutation_in _ (Permutation_sym Hperm)). vm_compute. tauto.
  - apply (Permutation_in _ (Permutation_sym Hperm)). vm_compute. tauto.
  - exists (l2 ++ "20250101-120000-a-kind-fox" :: l3)%list, l1.
    split; [exact Hrun|]. apply in_or_app. right. now left.
Defined.

(** The session of the fox before its scripts are generated, and a model
    that answers with [fox_scripts]. *)
Definition fox_created : Scripts.session :=
  Scripts.Session (Ok "a kind fox") Absent (Holds (JObj (snd fox_session))).

Definition fox_scripts_dict : dict :=
  [("script1", JObj [("segment1", JStr fox_text)]); ("script2", JStr "ERROR")].

Definition fox_generated : result dict * option Scripts.session :=
  Scripts.generate_scripts_for_session (fun _ => Llm.Parsed fox_scripts)
    (Some fox_created).

Lemma fox_generated_ok :
  Scripts.generate_scripts_for_session (fun _ => Llm.Parsed fox_scripts)
    (Some fox_created)
  = (Ok fox_scripts_dict, snd fox_generated).
Proof. vm_compute. reflexivity. Defined.

Lemma generate_scripts_marks_session_ready_witness :
  exists st,
    snd fox_generated
    = Some (Scripts.Session (Ok "a kind fox") (Holds fox_scripts)
              (Holds (JObj st)))
    /\ state_of st = Some "scripts_ready"
    /\ dget "script_keys" st = Some (JArr [JStr "script1"; JStr "script2"])
    /\ dget "idea" st = Some (JStr "a kind fox").
Proof.
  destruct (generate_scripts_marks_session_ready _ _ _ _ fox_generated_ok)
    as (idea & prev & st & Hidea & _ & _ & Hprev & Hafter & Hstate & Hkeys & Hrest).
  injection Hidea as <-. injection Hprev as <-.
  exists st. split; [exact Hafter|]. split; [exact Hstate|].
  split; [exact Hkeys|].
  rewrite Hrest by discriminate. reflexivity.
Defined.

Lemma failed_generation_keeps_status_witness :
  exists e,
    Scripts.generate_scripts_for_session (fun _ => Llm.NotJson)
      (Some fox_created)
    = (Raise e, Some fox_created)
    /\ e = "Failed to generate scripts".
Proof.
  destruct (failed_generation_keeps_status (fun _ => Llm.NotJson) fox_created
              "a kind fox") as (e & scripts_file & Hrun & _ & Hnot & _).
  - reflexivity.
  - discriminate.
  - destruct (Hnot eq_refl) as [He Hfile].
    exists e. split; [|exact He].
    rewrite Hrun, Hfile. reflexivity.
Defined.

(** A request with an idea only, answered by [api_generate_scripts]. *)
Definition fox_request
  : Endpoints.http Endpoints.scripts_response * option (string * Scripts.session) :=
  Endpoints.api_generate_scripts "20250101-120000" 0
    (fun _ => Llm.Parsed fox_scripts) (fun _ => None) [("idea", " a kind fox ")].

Lemma fox_request_ok :
  Endpoints.api_generate_scripts "20250101-120000" 0
    (fun _ => Llm.Parsed fox_scripts) (fun _ => None) [("idea", " a kind fox ")]
  = (Endpoints.Respond
       (Endpoints.ScriptsResponse "20250101-120000-a-kind-fox" fox_scripts_dict
          ["script1"]),
     snd fox_request).
Proof. vm_compute. reflexivity. Defined.

Lemma api_generate_scripts_lists_segmented_scripts_witness :
  exists resp s st,
    fst fox_request = Endpoints.Respond resp
    /\ In "script1" (Endpoints.ordered_keys resp)
    /\ ~ In "script2" (Endpoints.ordered_keys resp)
    /\ snd fox_request = Some (Endpoints.session_id resp, s)
    /\ Scripts.status_json s = Holds (JObj st)
    /\ state_of st = Some "scripts_ready".
Proof.
  destruct (api_generate_scripts_lists_segmented_scripts _ _ _ _ _ _ _
              fox_request_ok)
    as (_ & _ & _ & Hlisted & s & st & Hafter & _ & Hstatus & Hstate).
  eexists _, s, st. split; [vm_compute; reflexivity|].
  split; [apply Hlisted; exists [("segment1", JStr fox_text)]; left; reflexivity|].
  split.
  - intros Hin. apply Hlisted in Hin as [segments Hin].
    destruct Hin as [Hin | [Hin | []]]; discriminate Hin.
  - split; [exact Hafter|]. split; [exact Hstatus | exact Hstate].
Defined.

Lemma generated_video_is_named_after_its_seed_witness :
  Backends.generate_video_from_image
    (Ok (JObj [("video", JStr "/tmp/gradio/out.mp4")], 42))
    (fun _ _ => Ok tt) (fun _ => "/tmp/gradio/out.mp4")
  = Ok ("generated_42.mp4", 42)
  /\ forall predict copy str name,
       Backends.generate_video_from_image predict copy str = Ok (name, 43) ->
       name <> "generated_42.mp4".
Proof.
  assert (Hrun : Backends.generate_video_from_image
                   (Ok (JObj [("video", JStr "/tmp/gradio/out.mp4")], 42))
                   (fun _ _ => Ok tt) (fun _ => "/tmp/gradio/out.mp4")
                 = Ok ("generated_42.mp4", 42)) by (vm_compute; reflexivity).
  split; [exact Hrun|].
  intros predict copy str name Hother E.
  destruct (generated_video_is_named_after_its_seed _ _ _ _ _ Hrun)
    as (_ & _ & Hsame).
  symmetry in E. apply (Hsame _ _ _ _ _ Hother) in E. discriminate E.
Defined.

Lemma no_token_no_image_witness :
  Common.generate_image_with_fallback
    (fun prompt save_path =>
       match fst (Backends.generate_and_save_image false (Some "")
                    (fun _ => Ok tt) (fun _ _ => Ok tt) prompt save_path) with
       | Ok _ => Ok tt
       | Raise e => Raise e
       end)
    (fun prompt save_path =>
       match Backends.generate_image_from_prompt (Some "")
               (fun _ => Ok ("/tmp/gradio/image.webp", 7)) (fun _ _ => Ok tt)
               prompt save_path with
       | Ok _ => Ok tt
       | Raise e => Raise e
       end)
    (JStr "a fox at dawn") "segments/segment1/image1.png"
  = Raise ("Both HF inference and fallback image generation failed: hf_error="
           ++ "HF_TOKEN is not set or inference client failed to initialize."
           ++ "; fallback_error=" ++ "HF_TOKEN is not set in your environment.").
Proof.
  apply (no_token_no_image (Some "") (fun _ => Ok tt) (fun _ _ => Ok tt)
           (fun _ => Ok ("/tmp/gradio/image.webp", 7)) (fun _ _ => Ok tt)
           (JStr "a fox at dawn") "segments/segment1/image1.png");
    reflexivity.
Defined.



(** What whisper gives for a video of six seconds: two segments, of which
    the second is blank. *)
Definition fox_segments : list Subtitles.whisper_segment :=
  [Subtitles.WhisperSegment (Some 0%Q) (Some 3%Q) (Some " A kind fox ");
   Subtitles.WhisperSegment (Some 3%Q) (Some 6%Q) (Some "  ")].

Lemma whisper_subtitles_have_text_witness :
  exists clips,
    Subtitles.auto_subtitle_with_whisper true (Ok (Some fox_segments)) 6
    = Ok clips
    /\ (List.length clips <= 2)%nat
    /\ Forall (fun c => txt_text c <> EmptyString) clips.
Proof.
  destruct (whisper_subtitles_have_text true (Ok (Some fox_segments)) 6)
    as [Hclips _].
  - vm_compute. discriminate.
  - eexists. split; [vm_compute; reflexivity|].
    edestruct Hclips as (_ & Hall & Hlen); [vm_compute; reflexivity|].
    split; [exact (Hlen _ eq_refl)|].
    eapply Forall_impl; [|exact Hall]. intros c Hc. apply Hc.
Defined.

Lemma artifact_media_type_follows_extension_witness :
  Endpoints.api_get_artifact fox_disk "/app" "/srv/sessions"
    "20250101-120000-a-kind-fox" "segments/segment1/image1.png"
  = Endpoints.Respond
      (Endpoints.FileResponse (fox_dir ++ "/segments/segment1/image1.png")
         "image/png" "image1.png").
Proof.
  destruct (artifact_media_type_follows_extension fox_disk "/app"
              ["srv"; "sessions"] "20250101-120000-a-kind-fox"
              ["segments"; "segment1"] "image1" "png") as [Hget _];
    [discriminate | plain_names | plain_name | plain_names
    | reflexivity | reflexivity | reflexivity
    | exists "i"%char, "mage1"; split; [reflexivity | discriminate]
    | vm_compute; reflexivity |].
  etransitivity; [exact Hget | vm_compute; reflexivity].
Defined.



End MoreExamples.
